(** * The rendering cache of the VTE terminal widget (src/vtedraw.cc)

    A shallow embedding of the font cache, the per-character coverage
    cache, the style set of a [_vte_draw] and the text drawing loop,
    followed by the properties of these that the design document states.

    Conventions of the embedding.
    - C [int] values are [Z]; signed overflow is undefined in C and is not
      part of the model.  Values narrower than the computation
      ([guint16], [gint16], [guint]) are wrapped explicitly.
    - A nullable pointer is an [option]; the address of a [font_info] is an
      [N] into an explicit heap, so that two style slots can hold the same
      object.
    - [g_assert] failures and NULL dereferences are [None] in the [option]
      monad; [g_return_if_fail] returns normally, as in GLib.
    - Pango, cairo, GLib and the parts of VTE that live in other files are
      operations of the class [Collaborators]. *)

From Stdlib Require Import ZArith NArith SpecFloat Lia String Ascii.
From stdpp Require Import base option list gmap.

Local Open Scope Z_scope.

(** ** External data *)

(** A [vteunistr] is a [guint32]. *)
Abbreviation vteunistr := N (only parsing).

(** Addresses of Pango fonts and cairo scaled fonts (never NULL here; a
    nullable one is an [option]). *)
Abbreviation PangoFont := N (only parsing).
Abbreviation cairo_scaled_font_t := N (only parsing).

(** An interned [PangoLanguage *]; [0] is NULL.  Languages are compared by
    address. *)
Abbreviation PangoLanguage := Z (only parsing).

(** A [PangoFontDescription], by the fields Pango compares in
    [pango_font_description_equal]. *)
Record PangoFontDescription := {
  family : string;
  style : Z;
  variant : Z;
  weight : Z;
  stretch : Z;
  size : Z
}.

Definition PANGO_WEIGHT_BOLD : Z := 700.
Definition PANGO_STYLE_ITALIC : Z := 2.

Global Instance PangoFontDescription_eq_dec : EqDecision PangoFontDescription.
Proof. solve_decision. Defined.

Definition pango_font_description_equal (a b : PangoFontDescription) : bool :=
  bool_decide (a = b).

Definition pango_font_description_set_weight (d : PangoFontDescription) (w : Z)
  : PangoFontDescription :=
  {| family := family d; style := style d; variant := variant d;
     weight := w; stretch := stretch d; size := size d |}.

Definition pango_font_description_set_style (d : PangoFontDescription) (s : Z)
  : PangoFontDescription :=
  {| family := family d; style := s; variant := variant d;
     weight := weight d; stretch := stretch d; size := size d |}.

(** A [cairo_font_options_t], by the fields [cairo_font_options_equal]
    compares. *)
Record cairo_font_options_t := {
  antialias : Z;
  subpixel_order : Z;
  hint_style : Z;
  hint_metrics : Z
}.

Global Instance cairo_font_options_eq_dec : EqDecision cairo_font_options_t.
Proof. solve_decision. Defined.

(** cairo answers FALSE when one of the two is NULL. *)
Definition cairo_font_options_equal (a b : option cairo_font_options_t) : bool :=
  match a, b with
  | Some x, Some y => bool_decide (x = y)
  | _, _ => false
  end.

(** [cairo_font_options_create ()]: all fields at their defaults. *)
Definition cairo_font_options_create : cairo_font_options_t :=
  {| antialias := 0; subpixel_order := 0; hint_style := 0; hint_metrics := 0 |}.

(** A [PangoContext] as far as this file looks into it.  [ctx_addr] is the
    address of the object; [font_map_is_cairo] is what
    [PANGO_IS_CAIRO_FONT_MAP] says of its font map; [resolution] is an IEEE
    double; [font_options] may be NULL; [fontconfig_timestamp] is the
    [guint] stored as qdata on the context. *)
Record PangoContext := {
  ctx_addr : N;
  font_map_is_cairo : bool;
  base_dir : Z;
  resolution : spec_float;
  font_description : PangoFontDescription;
  font_options : option cairo_font_options_t;
  language : PangoLanguage;
  fontconfig_timestamp : Z
}.

Definition PANGO_DIRECTION_LTR : Z := 0.

(** What Pango reports for one glyph of a glyph string. *)
Record PangoGlyphInfo := {
  glyph : Z;
  geometry_width : Z;
  geometry_x_offset : Z;
  geometry_y_offset : Z
}.

(** A run ([PangoGlyphItem]): [item->analysis.font] and [glyphs->glyphs]. *)
Record PangoGlyphItem := {
  analysis_font : option PangoFont;
  glyphs : list PangoGlyphInfo
}.

(** A layout line: the list [line->runs]. *)
Record PangoLayoutLine := {
  runs : list PangoGlyphItem
}.

Record PangoRectangle := {
  rect_width : Z;
  rect_height : Z
}.

(** What a layout answers after [pango_layout_set_text]: the logical
    extents, the baseline, line 0 and the number of unknown glyphs.  A
    [PangoLayout] always has a line 0, so [pango_layout_get_line_readonly
    (layout, 0)] is not NULL and the test [!line] of the source is never
    taken. *)
Record PangoLayoutShape := {
  logical : PangoRectangle;
  baseline : Z;
  line0 : PangoLayoutLine;
  unknown_glyphs_count : Z
}.

(** One step of a [PangoGlyphItemIter]. *)
Record PangoGlyphItemIter := {
  start_char : Z; end_char : Z;
  start_index : Z; end_index : Z;
  start_glyph : Z; end_glyph : Z
}.

(** The operations of the collaborators.  Shaping is a function of the
    context of the layout and of its text. *)
Class Collaborators := {
  pango_layout_shape : PangoContext -> string -> PangoLayoutShape;
  pango_glyph_item_clusters : PangoGlyphItem -> string -> list PangoGlyphItemIter;
  pango_cairo_font_get_scaled_font : option PangoFont -> option cairo_scaled_font_t;
  pango_font_description_hash : PangoFontDescription -> Z;
  cairo_font_options_hash : option cairo_font_options_t -> Z;
  pango_font_map_create_context_default : PangoContext;
  pango_language_get_default : PangoLanguage;
  pango_language_includes_latin : PangoLanguage -> bool;
  g_unichar_get_script : vteunistr -> Z;
  _vte_unistr_append_to_string : vteunistr -> string -> string;
  vte_bidi_get_mirror_char : vteunistr -> bool -> vteunistr
}.

Definition G_UNICODE_SCRIPT_INHERITED : Z := 1.

(** [PANGO_PIXELS_CEIL(d)] is [((int)(d) + 1023) >> 10]. *)
Definition PANGO_PIXELS_CEIL (d : Z) : Z := Z.shiftr (d + 1023) 10.

(** Storing an [int] into a [guint16]. *)
Definition to_guint16 (v : Z) : Z := v mod 65536.

(** Storing into a [guint]. *)
Definition to_guint (v : Z) : Z := v mod 4294967296.

(** Storing an [int] into a [gint16]: the value is reduced modulo 2^16
    into the range of the type, as GCC and Clang define the conversion. *)
Definition to_gint16 (v : Z) : Z := (v + 32768) mod 65536 - 32768.

(** ** Constants of the source *)

Definition FONT_CACHE_TIMEOUT : Z := 30.
Definition MAX_RUN_LENGTH : nat := 100.

(** From vtedraw.hh. *)
Definition VTE_DRAW_NORMAL : nat := 0.
Definition VTE_DRAW_BOLD : nat := 1.
Definition VTE_DRAW_ITALIC : nat := 2.

(** ** The coverage cache of one character *)

Inductive unistr_coverage :=
| COVERAGE_UNKNOWN
| COVERAGE_USE_PANGO_LAYOUT_LINE
| COVERAGE_USE_PANGO_GLYPH_STRING
| COVERAGE_USE_CAIRO_GLYPH.

Global Instance unistr_coverage_eq_dec : EqDecision unistr_coverage.
Proof. solve_decision. Defined.

(** The union [unistr_font_info] with its discriminant: the member in use
    decides [coverage]. *)
Inductive unistr_font_info :=
| ufi_unknown
| using_pango_layout_line (line : PangoLayoutLine)
| using_pango_glyph_string (font : option PangoFont) (glyph_string : list PangoGlyphInfo)
| using_cairo_glyph (scaled_font : cairo_scaled_font_t) (glyph_index : Z).

Record unistr_info := {
  has_unknown_chars : bool;
  width : Z;
  ufi : unistr_font_info
}.

Definition coverage (uinfo : unistr_info) : unistr_coverage :=
  match ufi uinfo with
  | ufi_unknown => COVERAGE_UNKNOWN
  | using_pango_layout_line _ => COVERAGE_USE_PANGO_LAYOUT_LINE
  | using_pango_glyph_string _ _ => COVERAGE_USE_PANGO_GLYPH_STRING
  | using_cairo_glyph _ _ => COVERAGE_USE_CAIRO_GLYPH
  end.

Definition coverage_index (cov : unistr_coverage) : nat :=
  match cov with
  | COVERAGE_UNKNOWN => 0
  | COVERAGE_USE_PANGO_LAYOUT_LINE => 1
  | COVERAGE_USE_PANGO_GLYPH_STRING => 2
  | COVERAGE_USE_CAIRO_GLYPH => 3
  end%nat.

(** [g_slice_new0 (struct unistr_info)]. *)
Definition unistr_info_create : unistr_info :=
  {| has_unknown_chars := false; width := 0; ufi := ufi_unknown |}.

(** ** The cache of one font *)

(** The reusable layout: its context and its current text. *)
Record PangoLayout := {
  layout_context : PangoContext;
  layout_text : string
}.

Record font_info := {
  ref_count : Z;
  destroy_timeout : Z;
  layout : PangoLayout;
  ascii_unistr_info : list unistr_info;
  other_unistr_info : option (gmap N unistr_info);
  info_width : Z;
  info_height : Z;
  info_ascent : Z;
  gstring : string;
  coverage_count : list Z
}.

Definition set_lifecycle (info : font_info) (rc dt : Z) : font_info :=
  {| ref_count := rc; destroy_timeout := dt; layout := layout info;
     ascii_unistr_info := ascii_unistr_info info;
     other_unistr_info := other_unistr_info info;
     info_width := info_width info; info_height := info_height info;
     info_ascent := info_ascent info; gstring := gstring info;
     coverage_count := coverage_count info |}.

Definition set_layout_text (info : font_info) (text : string) : font_info :=
  {| ref_count := ref_count info; destroy_timeout := destroy_timeout info;
     layout := {| layout_context := layout_context (layout info); layout_text := text |};
     ascii_unistr_info := ascii_unistr_info info;
     other_unistr_info := other_unistr_info info;
     info_width := info_width info; info_height := info_height info;
     info_ascent := info_ascent info; gstring := gstring info;
     coverage_count := coverage_count info |}.

Definition set_gstring (info : font_info) (s : string) : font_info :=
  {| ref_count := ref_count info; destroy_timeout := destroy_timeout info;
     layout := layout info;
     ascii_unistr_info := ascii_unistr_info info;
     other_unistr_info := other_unistr_info info;
     info_width := info_width info; info_height := info_height info;
     info_ascent := info_ascent info; gstring := s;
     coverage_count := coverage_count info |}.

Definition set_caches (info : font_info) (a : list unistr_info)
    (o : option (gmap N unistr_info)) : font_info :=
  {| ref_count := ref_count info; destroy_timeout := destroy_timeout info;
     layout := layout info;
     ascii_unistr_info := a;
     other_unistr_info := o;
     info_width := info_width info; info_height := info_height info;
     info_ascent := info_ascent info; gstring := gstring info;
     coverage_count := coverage_count info |}.

Definition set_metrics (info : font_info) (w h a : Z) : font_info :=
  {| ref_count := ref_count info; destroy_timeout := destroy_timeout info;
     layout := layout info;
     ascii_unistr_info := ascii_unistr_info info;
     other_unistr_info := other_unistr_info info;
     info_width := w; info_height := h; info_ascent := a;
     gstring := gstring info;
     coverage_count := coverage_count info |}.

(** [info->coverage_count[0]++; info->coverage_count[cov]++] (VTE_DEBUG). *)
Definition count_coverage (info : font_info) (cov : unistr_coverage) : font_info :=
  {| ref_count := ref_count info; destroy_timeout := destroy_timeout info;
     layout := layout info;
     ascii_unistr_info := ascii_unistr_info info;
     other_unistr_info := other_unistr_info info;
     info_width := info_width info; info_height := info_height info;
     info_ascent := info_ascent info; gstring := gstring info;
     coverage_count :=
       alter Z.succ (coverage_index cov) (alter Z.succ 0%nat (coverage_count info)) |}.

(** The slot of [c]: an element of the direct array below 128, an entry of
    the hash table otherwise.  The table is created on first use and a
    zeroed entry is inserted for a character that has none. *)
Definition font_info_find_unistr_info (info : font_info) (c : vteunistr)
  : unistr_info * font_info :=
  if (c <? 128)%N then
    (default unistr_info_create (ascii_unistr_info info !! N.to_nat c), info)
  else
    let table := default ∅ (other_unistr_info info) in
    match table !! c with
    | Some uinfo => (uinfo, set_caches info (ascii_unistr_info info) (Some table))
    | None =>
        (unistr_info_create,
         set_caches info (ascii_unistr_info info)
           (Some (<[c := unistr_info_create]> table)))
    end.

(** Writing through the pointer that [font_info_find_unistr_info] returned. *)
Definition unistr_info_store (info : font_info) (c : vteunistr) (uinfo : unistr_info)
  : font_info :=
  if (c <? 128)%N then
    set_caches info (<[N.to_nat c := uinfo]> (ascii_unistr_info info))
      (other_unistr_info info)
  else
    set_caches info (ascii_unistr_info info)
      (Some (<[c := uinfo]> (default ∅ (other_unistr_info info)))).

(** The representation chosen for a shaped one-character text. *)
Definition choose_coverage `{Collaborators} (shape : PangoLayoutShape)
    (unknown : bool) : unistr_font_info :=
  match runs (line0 shape) with
  | [glyph_item] =>
      let pango_font := analysis_font glyph_item in
      let glyph_string := glyphs glyph_item in
      let fast :=
        match glyph_string with
        | [g] =>
            if negb unknown && (glyph g <=? 65535)
               && (Z.lor (geometry_x_offset g) (geometry_y_offset g) =? 0)
            then
              match pango_cairo_font_get_scaled_font pango_font with
              | Some scaled_font => Some (using_cairo_glyph scaled_font (glyph g))
              | None => None
              end
            else None
        | _ => None
        end in
      match fast with
      | Some u => u
      | None => using_pango_glyph_string pango_font glyph_string
      end
  | _ => using_pango_layout_line (line0 shape)
  end.

Definition font_info_get_unistr_info `{Collaborators} (info : font_info)
    (c : vteunistr) : unistr_info * font_info :=
  let '(uinfo, info) := font_info_find_unistr_info info c in
  if negb (bool_decide (coverage uinfo = COVERAGE_UNKNOWN)) then (uinfo, info)
  else
    let info := set_gstring info (_vte_unistr_append_to_string c "") in
    let info := set_layout_text info (gstring info) in
    let shape := pango_layout_shape (layout_context (layout info)) (gstring info) in
    let unknown := negb (unknown_glyphs_count shape =? 0) in
    let uinfo :=
      {| has_unknown_chars := unknown;
         width := to_guint16 (PANGO_PIXELS_CEIL (rect_width (logical shape)));
         ufi := choose_coverage shape unknown |} in
    let info := set_layout_text info "" in
    let info := count_coverage info (coverage uinfo) in
    (uinfo, unistr_info_store info c uinfo).

(** ** Construction of a font cache *)

(** The sample text; the spaces keep ligatures out of it. *)
Definition VTE_DRAW_SINGLE_WIDE_CHARACTERS : string :=
  "  ! " ++ String "034" (" # $ % & ' ( ) * + , - . / "
    ++ "0 1 2 3 4 5 6 7 8 9 "
    ++ ": ; < = > ? @ "
    ++ "A B C D E F G H I J K L M N O P Q R S T U V W X Y Z "
    ++ "[ \ ] ^ _ ` "
    ++ "a b c d e f g h i j k l m n o p q r s t u v w x y z "
    ++ "{ | } ~ ").

(** The body of the loop of [font_info_cache_ascii] for one cluster; a
    [continue] leaves [info] as it is.  The sample text is ASCII, so
    [text[iter.start_index]] is the code of the character read. *)
Definition cache_ascii_cluster `{Collaborators} (latin_uses_default_language : bool)
    (text : string) (glyph_string : list PangoGlyphInfo)
    (scaled_font : cairo_scaled_font_t)
    (info : font_info) (iter : PangoGlyphItemIter) : font_info :=
  if negb ((start_char iter + 1 =? end_char iter)
           && (start_index iter + 1 =? end_index iter)
           && (start_glyph iter + 1 =? end_glyph iter))
  then info
  else
    match String.get (Z.to_nat (start_index iter)) text,
          glyph_string !! Z.to_nat (start_glyph iter) with
    | Some ch, Some g =>
        let c := N_of_ascii ch in
        if negb latin_uses_default_language
           && (g_unichar_get_script c <=? G_UNICODE_SCRIPT_INHERITED)
        then info
        else if negb (glyph g <=? 65535)
                || negb (Z.lor (geometry_x_offset g) (geometry_y_offset g) =? 0)
        then info
        else
          let '(uinfo, info) := font_info_find_unistr_info info c in
          if negb (bool_decide (coverage uinfo = COVERAGE_UNKNOWN)) then info
          else
            let uinfo :=
              {| has_unknown_chars := false;
                 width := to_guint16 (PANGO_PIXELS_CEIL (geometry_width g));
                 ufi := using_cairo_glyph scaled_font (glyph g) |} in
            unistr_info_store (count_coverage info (coverage uinfo)) c uinfo
    | _, _ => info
    end.

Definition font_info_cache_ascii `{Collaborators} (info : font_info) : font_info :=
  let context := layout_context (layout info) in
  let text := layout_text (layout info) in
  let shape := pango_layout_shape context text in
  if negb (unknown_glyphs_count shape =? 0) then info
  else
    let language :=
      if language context =? 0 then pango_language_get_default
      else language context in
    let latin_uses_default_language := pango_language_includes_latin language in
    match runs (line0 shape) with
    | [glyph_item] =>
        match analysis_font glyph_item with
        | None => info
        | Some pango_font =>
            match pango_cairo_font_get_scaled_font (Some pango_font) with
            | None => info
            | Some scaled_font =>
                foldl (cache_ascii_cluster latin_uses_default_language text
                         (glyphs glyph_item) scaled_font)
                  info (pango_glyph_item_clusters glyph_item text)
            end
        end
    | _ => info
    end.

(** The characters U+0021..U+007E measured one by one. *)
Definition measured_chars : list ascii :=
  map ascii_of_nat (seq 33 94).

Definition font_info_measure_font `{Collaborators} (info : font_info) : font_info :=
  let context := layout_context (layout info) in
  let '(max_width, max_height) :=
    foldl (fun '(mw, mh) c =>
             let logical := logical (pango_layout_shape context (String c "")) in
             (Z.max mw (PANGO_PIXELS_CEIL (rect_width logical)),
              Z.max mh (PANGO_PIXELS_CEIL (rect_height logical))))
      (1, 1) measured_chars in
  let info := set_layout_text info VTE_DRAW_SINGLE_WIDE_CHARACTERS in
  let shape := pango_layout_shape context VTE_DRAW_SINGLE_WIDE_CHARACTERS in
  let info := set_metrics info max_width max_height (PANGO_PIXELS_CEIL (baseline shape)) in
  let info := font_info_cache_ascii info in
  let info :=
    if info_height info =? 0
    then set_metrics info (info_width info)
           (PANGO_PIXELS_CEIL (rect_height (logical shape))) (info_ascent info)
    else info in
  if info_ascent info =? 0
  then set_metrics info (info_width info) (info_height info)
         (PANGO_PIXELS_CEIL (baseline shape))
  else info.

(** [font_info_allocate]: a zeroed struct with a new layout on [context],
    measured. *)
Definition font_info_allocate `{Collaborators} (context : PangoContext) : font_info :=
  font_info_measure_font
    {| ref_count := 0; destroy_timeout := 0;
       layout := {| layout_context := context; layout_text := "" |};
       ascii_unistr_info := replicate 128 unistr_info_create;
       other_unistr_info := None;
       info_width := 0; info_height := 0; info_ascent := 0;
       gstring := "";
       coverage_count := replicate 4 0 |}.

(** ** The process-wide state *)

(** A pending GLib timeout: its id, the time at which it is due and the
    [font_info] its callback [font_info_destroy_delayed] was given. *)
Record GSource := {
  source_id : Z;
  source_ready_time : Z;
  source_data : N
}.

(** The heap of [font_info] structs, the hash table
    [font_info_for_context] (NULL until the first lookup), the timeouts of
    the main loop, the allocator and the clock, in seconds. *)
Record world := {
  heap : gmap N font_info;
  font_info_for_context : option (list (PangoContext * N));
  sources : list GSource;
  next_addr : N;
  next_source_id : Z;
  now : Z
}.

Definition set_heap (w : world) (h : gmap N font_info) : world :=
  {| heap := h; font_info_for_context := font_info_for_context w;
     sources := sources w; next_addr := next_addr w;
     next_source_id := next_source_id w; now := now w |}.

Definition set_table (w : world) (t : option (list (PangoContext * N))) : world :=
  {| heap := heap w; font_info_for_context := t;
     sources := sources w; next_addr := next_addr w;
     next_source_id := next_source_id w; now := now w |}.

Definition set_sources (w : world) (s : list GSource) : world :=
  {| heap := heap w; font_info_for_context := font_info_for_context w;
     sources := s; next_addr := next_addr w;
     next_source_id := next_source_id w; now := now w |}.

Definition set_now (w : world) (t : Z) : world :=
  {| heap := heap w; font_info_for_context := font_info_for_context w;
     sources := sources w; next_addr := next_addr w;
     next_source_id := next_source_id w; now := t |}.

(** [gdk_threads_add_timeout_seconds (interval, font_info_destroy_delayed,
    data)]: a new source, due [interval] seconds from now. *)
Definition gdk_threads_add_timeout_seconds (interval : Z) (data : N) (w : world)
  : Z * world :=
  (next_source_id w,
   {| heap := heap w; font_info_for_context := font_info_for_context w;
      sources := sources w ++ [ {| source_id := next_source_id w;
                                   source_ready_time := now w + interval;
                                   source_data := data |} ];
      next_addr := next_addr w;
      next_source_id := next_source_id w + 1; now := now w |}).

Definition g_source_remove (id : Z) (w : world) : world :=
  set_sources w (filter (fun s => source_id s ≠ id) (sources w)).

(** ** The key of the font cache *)

(** The C comparison [a == b] of two doubles. *)
Definition _vte_double_equal (a b : spec_float) : bool := SFeqb a b.

(** Pango's [pango_units_from_double (d)], [(int) floor (d * PANGO_SCALE +
    0.5)] with [PANGO_SCALE = 1024], on the exact value of [d]; the
    conversion of an infinity or a NaN is undefined and is 0 here. *)
Definition pango_units_from_double (d : spec_float) : Z :=
  match d with
  | S754_finite s m e =>
      let v := if s then Z.neg m else Z.pos m in
      if 0 <=? e then v * 2 ^ e * 1024
      else (v * 2048 + 2 ^ (- e)) / (2 * 2 ^ (- e))
  | _ => 0
  end.

Definition context_hash `{Collaborators} (context : PangoContext) : Z :=
  Z.lxor
    (Z.lxor
       (Z.lxor
          (Z.lxor (to_guint (pango_units_from_double (resolution context)))
                  (to_guint (pango_font_description_hash (font_description context))))
          (to_guint (cairo_font_options_hash (font_options context))))
       (to_guint (language context)))
    (to_guint (fontconfig_timestamp context)).

Definition context_equal (a b : PangoContext) : bool :=
  _vte_double_equal (resolution a) (resolution b)
  && pango_font_description_equal (font_description a) (font_description b)
  && cairo_font_options_equal (font_options a) (font_options b)
  && (language a =? language b)
  && (fontconfig_timestamp a =? fontconfig_timestamp b).

(** ** A [GHashTable] with [context_hash] and [context_equal] *)

(** A node holds [key] when the hashes agree and the equality function
    says so. *)
Definition key_match `{Collaborators} (key : PangoContext) (node : PangoContext * N)
  : bool :=
  (context_hash node.1 =? context_hash key) && context_equal node.1 key.

Definition g_hash_table_lookup `{Collaborators} (table : list (PangoContext * N))
    (key : PangoContext) : option N :=
  snd <$> List.find (key_match key) table.

(** Insertion replaces the value of a node that holds the key and adds a
    node otherwise. *)
Fixpoint g_hash_table_insert `{Collaborators} (table : list (PangoContext * N))
    (key : PangoContext) (value : N) : list (PangoContext * N) :=
  match table with
  | [] => [(key, value)]
  | node :: rest =>
      if key_match key node then (node.1, value) :: rest
      else node :: g_hash_table_insert rest key value
  end.

Fixpoint g_hash_table_remove `{Collaborators} (table : list (PangoContext * N))
    (key : PangoContext) : list (PangoContext * N) :=
  match table with
  | [] => []
  | node :: rest =>
      if key_match key node then rest
      else node :: g_hash_table_remove rest key
  end.

(** ** Registration and the life cycle of a [font_info] *)

Definition font_info_register `{Collaborators} (info : N) (w : world) : option world :=
  fi ← heap w !! info;
  Some (set_table w
          ((fun table => g_hash_table_insert table (layout_context (layout fi)) info)
             <$> font_info_for_context w)).

Definition font_info_unregister `{Collaborators} (info : N) (w : world) : option world :=
  fi ← heap w !! info;
  Some (set_table w
          ((fun table => g_hash_table_remove table (layout_context (layout fi)))
             <$> font_info_for_context w)).

Definition font_info_reference (info : option N) (w : world) : option world :=
  match info with
  | None => Some w
  | Some p =>
      fi ← heap w !! p;
      if ref_count fi <? 0 then Some w
      else
        let '(w, fi) :=
          if negb (destroy_timeout fi =? 0)
          then (g_source_remove (destroy_timeout fi) w, set_lifecycle fi (ref_count fi) 0)
          else (w, fi) in
        Some (set_heap w (<[p := set_lifecycle fi (ref_count fi + 1) (destroy_timeout fi)]>
                            (heap w)))
  end.

(** [font_info_free]: the struct leaves the heap. *)
Definition font_info_free (info : N) (w : world) : option world :=
  _ ← heap w !! info;
  Some (set_heap w (delete info (heap w))).

(** The callback of the timeout. *)
Definition font_info_destroy_delayed `{Collaborators} (info : N) (w : world)
  : option world :=
  fi ← heap w !! info;
  let w := set_heap w (<[info := set_lifecycle fi (ref_count fi) 0]> (heap w)) in
  w ← font_info_unregister info w;
  font_info_free info w.

Definition font_info_destroy (info : option N) (w : world) : option world :=
  match info with
  | None => Some w
  | Some p =>
      fi ← heap w !! p;
      if negb (0 <? ref_count fi) then Some w
      else
        let fi := set_lifecycle fi (ref_count fi - 1) (destroy_timeout fi) in
        let w := set_heap w (<[p := fi]> (heap w)) in
        if negb (ref_count fi =? 0) then Some w
        else
          let '(id, w) := gdk_threads_add_timeout_seconds FONT_CACHE_TIMEOUT p w in
          Some (set_heap w (<[p := set_lifecycle fi (ref_count fi) id]> (heap w)))
  end.

(** The main loop dispatches a timeout that is due: the callback runs and,
    as it answers FALSE, the source is destroyed. *)
Definition dispatch_source `{Collaborators} (w : option world) (s : GSource)
  : option world :=
  w ← w;
  font_info_destroy_delayed (source_data s) (g_source_remove (source_id s) w).

(** Time passes until [t] and the main loop runs every timeout due by
    then. *)
Definition main_loop_run_until `{Collaborators} (t : Z) (w : world) : option world :=
  let w := set_now w (Z.max (now w) t) in
  foldl dispatch_source (Some w)
    (filter (fun s => source_ready_time s <= now w) (sources w)).

Definition font_info_find_for_context `{Collaborators} (context : PangoContext)
    (w : world) : option (N * world) :=
  let table := default [] (font_info_for_context w) in
  let w := set_table w (Some table) in
  match g_hash_table_lookup table context with
  | Some info =>
      w ← font_info_reference (Some info) w;
      Some (info, w)
  | None =>
      let info := next_addr w in
      let fi := font_info_allocate context in
      let fi := set_lifecycle fi 1 (destroy_timeout fi) in
      let w :=
        {| heap := <[info := fi]> (heap w);
           font_info_for_context := font_info_for_context w;
           sources := sources w; next_addr := N.succ (next_addr w);
           next_source_id := next_source_id w; now := now w |} in
      w ← font_info_register info w;
      Some (info, w)
  end.

Definition font_info_create_for_context `{Collaborators} (context : PangoContext)
    (desc : option PangoFontDescription) (language : PangoLanguage)
    (fontconfig_timestamp : Z) (w : world) : option (N * world) :=
  let context :=
    if negb (font_map_is_cairo context) then pango_font_map_create_context_default
    else context in
  let context :=
    {| ctx_addr := ctx_addr context;
       font_map_is_cairo := font_map_is_cairo context;
       base_dir := PANGO_DIRECTION_LTR;
       resolution := resolution context;
       font_description := default (font_description context) desc;
       font_options :=
         match font_options context with
         | None => Some cairo_font_options_create
         | Some o => Some o
         end;
       language := language;
       fontconfig_timestamp := to_guint fontconfig_timestamp |} in
  font_info_find_for_context context w.

(** A screen: the context [gdk_pango_context_get_for_screen] answers for
    it and the setting gtk-fontconfig-timestamp. *)
Record GdkScreen := {
  screen_pango_context : PangoContext;
  gtk_fontconfig_timestamp : Z
}.

Record GtkWidget := {
  widget_screen : GdkScreen;
  widget_pango_language : PangoLanguage
}.

Definition font_info_create_for_screen `{Collaborators} (screen : GdkScreen)
    (desc : option PangoFontDescription) (language : PangoLanguage) (w : world)
  : option (N * world) :=
  font_info_create_for_context (screen_pango_context screen) desc language
    (gtk_fontconfig_timestamp screen) w.

Definition font_info_create_for_widget `{Collaborators} (widget : GtkWidget)
    (desc : option PangoFontDescription) (w : world) : option (N * world) :=
  font_info_create_for_screen (widget_screen widget) desc
    (widget_pango_language widget) w.

(** ** The style set of a [_vte_draw] *)

(** The [GtkBorder] of GTK 3: its four fields are [gint16], and a value
    stored into one of them goes through [to_gint16]. *)
Record GtkBorder := {
  border_left : Z;
  border_right : Z;
  border_top : Z;
  border_bottom : Z
}.

(** [fonts] has the four slots normal, bold, italic, bold italic; [cr] is
    the cairo context, NULL outside of a drawing operation. *)
Record _vte_draw := {
  fonts : list (option N);
  cell_width : Z;
  cell_height : Z;
  char_spacing : GtkBorder;
  cr : option N;
  undercurl_surface : option N
}.

(** [g_slice_new0 (struct _vte_draw)]. *)
Definition _vte_draw_new : _vte_draw :=
  {| fonts := replicate 4 None; cell_width := 0; cell_height := 0;
     char_spacing := {| border_left := 0; border_right := 0;
                        border_top := 0; border_bottom := 0 |};
     cr := None; undercurl_surface := None |}.

Definition set_fonts (draw : _vte_draw) (f : list (option N)) : _vte_draw :=
  {| fonts := f; cell_width := cell_width draw; cell_height := cell_height draw;
     char_spacing := char_spacing draw; cr := cr draw;
     undercurl_surface := undercurl_surface draw |}.

(** [draw->fonts[style]]; a style beyond the array is an invalid read. *)
Definition draw_font (draw : _vte_draw) (style : nat) : option (option N) :=
  fonts draw !! style.

(** One round of the loop "Free all fonts (make sure to destroy every font
    only once)", which [_vte_draw_free] and [_vte_draw_set_text_font] both
    run for [style] from 3 down to 0. *)
Definition free_font (st : option (_vte_draw * world)) (style : nat)
  : option (_vte_draw * world) :=
  '(draw, w) ← st;
  font ← draw_font draw style;
  previous ← (if bool_decide (style = 0%nat) then Some None
              else draw_font draw (style - 1));
  if bool_decide (font ≠ None)
     && (bool_decide (style = 0%nat) || bool_decide (font ≠ previous))
  then
    w ← font_info_destroy font w;
    Some (set_fonts draw (<[style := None]> (fonts draw)), w)
  else Some (draw, w).

Definition free_all_fonts (draw : _vte_draw) (w : world) : option (_vte_draw * world) :=
  foldl free_font (Some (draw, w)) [3; 2; 1; 0]%nat.

(** [_vte_draw_free]: the fonts are released and the struct is freed. *)
Definition _vte_draw_free (draw : _vte_draw) (w : world) : option world :=
  snd <$> free_all_fonts draw w.

(** ** Doubles in the cell metrics *)

Definition int_to_double (i : Z) : spec_float := binary_normalize 53 1024 i 0 false.

(** The conversion of a double to [int] truncates; that of an infinity or
    a NaN is undefined and is 0 here. *)
Definition double_to_int (d : spec_float) : Z :=
  match d with
  | S754_finite s m e =>
      let v := if s then Z.neg m else Z.pos m in
      if 0 <=? e then v * 2 ^ e else Z.quot v (2 ^ (- e))
  | _ => 0
  end.

(** [i * scale] stored into an [int]. *)
Definition int_times_double (i : Z) (scale : spec_float) : Z :=
  double_to_int (SFmul 53 1024 (int_to_double i) scale).

(** The block "Decide if we should keep this bold font face" for the pair
    [normal], [normal | VTE_DRAW_BOLD]; the source has it once for
    [VTE_DRAW_NORMAL] and once for [VTE_DRAW_ITALIC].  The division is that
    of C, which truncates, and a zero divisor is a crash. *)
Definition reject_bold_font (normal : nat) (st : _vte_draw * world)
  : option (_vte_draw * world) :=
  let '(draw, w) := st in
  let bold := Nat.lor normal VTE_DRAW_BOLD in
  font_bold ← draw_font draw bold;
  font_normal ← draw_font draw normal;
  p_bold ← font_bold;
  p_normal ← font_normal;
  fi_bold ← heap w !! p_bold;
  fi_normal ← heap w !! p_normal;
  if info_width fi_normal =? 0 then None
  else
    let ratio := Z.quot (info_width fi_bold * 100) (info_width fi_normal) in
    if 10 <? Z.abs (ratio - 100) then
      w ← font_info_destroy font_bold w;
      Some (set_fonts draw (<[bold := font_normal]> (fonts draw)), w)
    else Some (draw, w).

Definition _vte_draw_set_text_font `{Collaborators} (draw : _vte_draw)
    (widget : GtkWidget) (fontdesc : PangoFontDescription)
    (cell_width_scale cell_height_scale : spec_float) (w : world)
  : option (_vte_draw * world) :=
  '(draw, w) ← free_all_fonts draw w;
  let bolddesc := pango_font_description_set_weight fontdesc PANGO_WEIGHT_BOLD in
  let italicdesc := pango_font_description_set_style fontdesc PANGO_STYLE_ITALIC in
  let bolditalicdesc := pango_font_description_set_style bolddesc PANGO_STYLE_ITALIC in
  '(f_normal, w) ← font_info_create_for_widget widget (Some fontdesc) w;
  let draw := set_fonts draw (<[VTE_DRAW_NORMAL := Some f_normal]> (fonts draw)) in
  '(f_bold, w) ← font_info_create_for_widget widget (Some bolddesc) w;
  let draw := set_fonts draw (<[VTE_DRAW_BOLD := Some f_bold]> (fonts draw)) in
  '(f_italic, w) ← font_info_create_for_widget widget (Some italicdesc) w;
  let draw := set_fonts draw (<[VTE_DRAW_ITALIC := Some f_italic]> (fonts draw)) in
  '(f_bolditalic, w) ← font_info_create_for_widget widget (Some bolditalicdesc) w;
  let draw :=
    set_fonts draw (<[Nat.lor VTE_DRAW_ITALIC VTE_DRAW_BOLD := Some f_bolditalic]>
                      (fonts draw)) in
  '(draw, w) ← reject_bold_font VTE_DRAW_NORMAL (draw, w);
  '(draw, w) ← reject_bold_font VTE_DRAW_ITALIC (draw, w);
  p_normal ← mjoin (draw_font draw VTE_DRAW_NORMAL);
  fi_normal ← heap w !! p_normal;
  let cell_width := int_times_double (info_width fi_normal) cell_width_scale in
  let cell_height := int_times_double (info_height fi_normal) cell_height_scale in
  Some ({| fonts := fonts draw;
           cell_width := cell_width;
           cell_height := cell_height;
           char_spacing :=
             {| border_left :=
                  to_gint16 (Z.quot (cell_width - info_width fi_normal) 2);
                border_right :=
                  to_gint16 (Z.quot (cell_width - info_width fi_normal + 1) 2);
                border_top :=
                  to_gint16 (Z.quot (cell_height - info_height fi_normal + 1) 2);
                border_bottom :=
                  to_gint16 (Z.quot (cell_height - info_height fi_normal) 2) |};
           cr := cr draw;
           undercurl_surface := None |}, w).

(** ** Drawing text *)

(** A [_vte_draw_text_request] (vtedraw.hh). *)
Record _vte_draw_text_request := {
  req_c : vteunistr;
  req_x : Z;
  req_y : Z;
  req_columns : Z;
  req_mirror : bool;
  req_box_mirror : bool
}.

Record cairo_glyph_t := {
  glyph_index_of : Z;
  glyph_x : Z;
  glyph_y : Z
}.

(** The drawing calls of the text path, in the order in which they reach
    the cairo context.  The colour, the alpha and the attributes of a call
    only select the source colour and the look of a graphic and are left
    out.
    - [draw_graphic]: [_vte_draw_terminal_draw_graphic (draw, c, ..., x, y,
      font->width, columns, font->height)];
    - [show_layout_line]: [cairo_move_to] and
      [pango_cairo_show_layout_line];
    - [show_glyph_string]: [cairo_move_to] and
      [pango_cairo_show_glyph_string];
    - [show_glyphs]: [cairo_set_scaled_font] and [cairo_show_glyphs]. *)
Inductive cairo_op :=
| draw_graphic (c : vteunistr) (x y font_width columns font_height : Z)
| show_layout_line (x y : Z) (line : PangoLayoutLine)
| show_glyph_string (x y : Z) (font : option PangoFont)
    (glyph_string : list PangoGlyphInfo)
| show_glyphs (scaled_font : option cairo_scaled_font_t) (glyphs : list cairo_glyph_t).

(** Box drawing and block elements, drawn by VTE itself
    (WITH_UNICODE_NEXT is defined in this file). *)
Definition _vte_draw_unichar_is_local_graphic (c : vteunistr) : bool :=
  (((0x2500 <=? c) && (c <=? 0x259f))
   || ((0x25e2 <=? c) && (c <=? 0x25e5))
   || ((0x1fb00 <=? c) && (c <=? 0x1fbff)))%N.

(** The left and right edges of the glyph of [c], relative to the left edge
    of the cell. *)
Definition _vte_draw_get_char_edges `{Collaborators} (draw : _vte_draw)
    (h : gmap N font_info) (c : vteunistr) (columns : Z) (style : nat)
  : option (Z * Z * gmap N font_info) :=
  if _vte_draw_unichar_is_local_graphic c
  then Some (0, cell_width draw * columns, h)
  else
    font_normal ← draw_font draw VTE_DRAW_NORMAL;
    match font_normal with
    | None => Some (0, 0, h)
    | Some p_normal =>
        p_style ← mjoin (draw_font draw style);
        fi ← h !! p_style;
        let '(uinfo, fi) := font_info_get_unistr_info fi c in
        let h := <[p_style := fi]> h in
        let w := width uinfo in
        fi_normal ← h !! p_normal;
        let normal_width := info_width fi_normal * columns in
        let fits_width := cell_width draw * columns in
        let l :=
          if w <=? normal_width then
            border_left (char_spacing draw)
            + (if columns =? 2 then border_right (char_spacing draw) else 0)
          else if w <=? fits_width then Z.quot (fits_width - w) 2
          else 0 in
        Some (l, l + w, h)
    end.

(** The locals of [_vte_draw_text_internal]: [n_cr_glyphs] is the length of
    [cr_glyphs]; [canvas] collects the drawing calls made so far. *)
Record text_run := {
  last_scaled_font : option cairo_scaled_font_t;
  cr_glyphs : list cairo_glyph_t;
  canvas : list cairo_op;
  run_heap : gmap N font_info
}.

(** [cairo_set_scaled_font (cr, last_scaled_font); cairo_show_glyphs (cr,
    cr_glyphs, n_cr_glyphs); n_cr_glyphs = 0]. *)
Definition show_pending (run : text_run) : text_run :=
  {| last_scaled_font := last_scaled_font run;
     cr_glyphs := [];
     canvas := canvas run ++ [show_glyphs (last_scaled_font run) (cr_glyphs run)];
     run_heap := run_heap run |}.

Definition emit (run : text_run) (op : cairo_op) : text_run :=
  {| last_scaled_font := last_scaled_font run;
     cr_glyphs := cr_glyphs run;
     canvas := canvas run ++ [op];
     run_heap := run_heap run |}.

(** The character a request draws. *)
Definition request_char `{Collaborators} (request : _vte_draw_text_request)
  : vteunistr :=
  if req_mirror request
  then vte_bidi_get_mirror_char (req_c request) (req_box_mirror request)
  else req_c request.

(** The body of the loop of [_vte_draw_text_internal]. *)
Definition draw_request `{Collaborators} (draw : _vte_draw) (style : nat) (font : N)
    (run : option text_run) (request : _vte_draw_text_request) : option text_run :=
  run ← run;
  let c := request_char request in
  if _vte_draw_unichar_is_local_graphic c then
    fi ← run_heap run !! font;
    Some (emit run (draw_graphic c (req_x request) (req_y request)
                      (info_width fi) (req_columns request) (info_height fi)))
  else
    fi ← run_heap run !! font;
    let '(uinfo, fi) := font_info_get_unistr_info fi c in
    let h := <[font := fi]> (run_heap run) in
    '(x, _, h) ← _vte_draw_get_char_edges draw h c (req_columns request) style;
    let x := x + req_x request in
    p_normal ← mjoin (draw_font draw VTE_DRAW_NORMAL);
    fi_normal ← h !! p_normal;
    let y := req_y request + border_top (char_spacing draw) + info_ascent fi_normal in
    let run :=
      {| last_scaled_font := last_scaled_font run; cr_glyphs := cr_glyphs run;
         canvas := canvas run; run_heap := h |} in
    match ufi uinfo with
    | ufi_unknown => None
    | using_pango_layout_line line => Some (emit run (show_layout_line x y line))
    | using_pango_glyph_string font glyph_string =>
        Some (emit run (show_glyph_string x y font glyph_string))
    | using_cairo_glyph scaled_font glyph_index =>
        let run :=
          if bool_decide (last_scaled_font run ≠ Some scaled_font)
             || bool_decide (length (cr_glyphs run) = MAX_RUN_LENGTH)
          then
            let run :=
              if bool_decide (length (cr_glyphs run) ≠ 0%nat) then show_pending run
              else run in
            {| last_scaled_font := Some scaled_font; cr_glyphs := cr_glyphs run;
               canvas := canvas run; run_heap := run_heap run |}
          else run in
        Some {| last_scaled_font := last_scaled_font run;
                cr_glyphs := cr_glyphs run
                             ++ [ {| glyph_index_of := glyph_index;
                                     glyph_x := x; glyph_y := y |} ];
                canvas := canvas run; run_heap := run_heap run |}
    end.

(** [_vte_draw_text_internal]: the drawing calls made and the heap
    afterwards. *)
Definition _vte_draw_text_internal `{Collaborators} (draw : _vte_draw)
    (h : gmap N font_info) (requests : list _vte_draw_text_request) (style : nat)
  : option (list cairo_op * gmap N font_info) :=
  font ← draw_font draw style;
  match font with
  | None => Some ([], h)
  | Some font =>
      _ ← cr draw;
      run ← foldl (draw_request draw style font)
              (Some {| last_scaled_font := None; cr_glyphs := [];
                       canvas := []; run_heap := h |})
              requests;
      let run :=
        if bool_decide (length (cr_glyphs run) ≠ 0%nat) then show_pending run
        else run in
      Some (canvas run, run_heap run)
  end.

Definition _vte_draw_text `{Collaborators} (draw : _vte_draw)
    (h : gmap N font_info) (requests : list _vte_draw_text_request) (style : nat)
  : option (list cairo_op * gmap N font_info) :=
  _ ← cr draw;
  _vte_draw_text_internal draw h requests style.

Definition _vte_draw_has_char `{Collaborators} (draw : _vte_draw)
    (h : gmap N font_info) (c : vteunistr) (style : nat)
  : option (bool * gmap N font_info) :=
  font_normal ← draw_font draw VTE_DRAW_NORMAL;
  match font_normal with
  | None => Some (false, h)
  | Some _ =>
      p_style ← mjoin (draw_font draw style);
      fi ← h !! p_style;
      let '(uinfo, fi) := font_info_get_unistr_info fi c in
      Some (negb (has_unknown_chars uinfo), <[p_style := fi]> h)
  end.

Definition _vte_draw_char `{Collaborators} (draw : _vte_draw)
    (h : gmap N font_info) (request : _vte_draw_text_request) (style : nat)
  : option (bool * list cairo_op * gmap N font_info) :=
  '(has_char, h) ← _vte_draw_has_char draw h (req_c request) style;
  if (has_char : bool) then
    '(ops, h) ← _vte_draw_text draw h [request] style;
    Some (has_char, ops, h)
  else Some (has_char, [], h).

(** ** Definitions for the statements *)

(** The slot of [c] as a value: what [font_info_find_unistr_info] answers,
    without its effect on the table. *)
Definition lookup_unistr_info (info : font_info) (c : vteunistr) : unistr_info :=
  if (c <? 128)%N then default unistr_info_create (ascii_unistr_info info !! N.to_nat c)
  else default unistr_info_create (default ∅ (other_unistr_info info) !! c).

(** What [font_info_get_unistr_info] computes for a character that has no
    coverage yet; it depends on the context of the layout only. *)
Definition shaped_unistr_info `{Collaborators} (context : PangoContext) (c : vteunistr) : unistr_info :=
  let shape := pango_layout_shape context (_vte_unistr_append_to_string c "") in
  let unknown := negb (unknown_glyphs_count shape =? 0) in
  {| has_unknown_chars := unknown;
     width := to_guint16 (PANGO_PIXELS_CEIL (rect_width (logical shape)));
     ufi := choose_coverage shape unknown |}.

(** [font_info_get_unistr_info] by cases: a character that has a coverage
    is answered from its slot; another one is shaped, counted and stored. *)
Definition store_shaped `{Collaborators} (info : font_info) (c : vteunistr) : font_info :=
  let uinfo := shaped_unistr_info (layout_context (layout info)) c in
  let text := _vte_unistr_append_to_string c "" in
  unistr_info_store
    (count_coverage
       (set_layout_text (set_layout_text (set_gstring info text) text) "")
       (coverage uinfo))
    c uinfo.

(** The fields of a [font_info] that looking a character up leaves alone. *)
Definition same_font (a b : font_info) : Prop :=
  ref_count a = ref_count b ∧ destroy_timeout a = destroy_timeout b
  ∧ layout_context (layout a) = layout_context (layout b)
  ∧ info_width a = info_width b ∧ info_height a = info_height b
  ∧ info_ascent a = info_ascent b
  ∧ length (ascii_unistr_info a) = length (ascii_unistr_info b).

(** ** A concrete font system for the examples

    Every character of a text is one glyph of font 1, ten pixels wide
    (twelve in the bold face of the family Wide), except for a text of one
    byte: byte 127 comes from font 0, which has no cairo scaled font; bytes
    128 to 159 need two glyphs; bytes 160 to 191 need two fonts; bytes from
    192 have no glyph. *)

Definition example_glyph_width (context : PangoContext) : Z :=
  if bool_decide (family (font_description context) = "Wide"%string)
     && (weight (font_description context) =? PANGO_WEIGHT_BOLD)
  then 12288 else 10240.

Definition example_glyph (context : PangoContext) (ch : ascii) : PangoGlyphInfo :=
  {| glyph := Z.of_N (N_of_ascii ch);
     geometry_width := example_glyph_width context;
     geometry_x_offset := 0; geometry_y_offset := 0 |}.

Definition example_runs (context : PangoContext) (text : string) : list PangoGlyphItem :=
  match text with
  | String ch EmptyString =>
      let b := N_of_ascii ch in
      if (b =? 127)%N then
        [ {| analysis_font := Some 0%N; glyphs := [example_glyph context ch] |} ]
      else if (b <? 128)%N then
        [ {| analysis_font := Some 1%N; glyphs := [example_glyph context ch] |} ]
      else if (b <? 160)%N then
        [ {| analysis_font := Some 1%N;
             glyphs := [example_glyph context ch; example_glyph context ch] |} ]
      else if (b <? 192)%N then
        [ {| analysis_font := Some 1%N; glyphs := [example_glyph context ch] |};
          {| analysis_font := Some 2%N; glyphs := [example_glyph context ch] |} ]
      else
        [ {| analysis_font := Some 1%N;
             glyphs := [ {| glyph := 268435456 + Z.of_N b;
                            geometry_width := example_glyph_width context;
                            geometry_x_offset := 0; geometry_y_offset := 0 |} ] |} ]
  | EmptyString => []
  | _ =>
      [ {| analysis_font := Some 1%N;
           glyphs := map (example_glyph context) (list_ascii_of_string text) |} ]
  end.

Definition example_shape (context : PangoContext) (text : string) : PangoLayoutShape :=
  {| logical := {| rect_width := example_glyph_width context * Z.of_nat (String.length text);
                   rect_height := 20480 |};
     baseline := 15360;
     line0 := {| runs := example_runs context text |};
     unknown_glyphs_count :=
       match text with
       | String ch EmptyString => if (192 <=? N_of_ascii ch)%N then 1 else 0
       | _ => 0
       end |}.

(** One cluster for each character of the text. *)
Definition example_clusters (item : PangoGlyphItem) (text : string)
  : list PangoGlyphItemIter :=
  map (fun i : nat =>
         {| start_char := Z.of_nat i; end_char := Z.of_nat i + 1;
            start_index := Z.of_nat i; end_index := Z.of_nat i + 1;
            start_glyph := Z.of_nat i; end_glyph := Z.of_nat i + 1 |})
      (seq 0 (String.length text)).

Definition example_context : PangoContext :=
  {| ctx_addr := 1; font_map_is_cairo := true; base_dir := 0;
     resolution := int_to_double 96;
     font_description :=
       {| family := "Monospace"; style := 0; variant := 0; weight := 400;
          stretch := 4; size := 12288 |};
     font_options := None;
     language := 7;
     fontconfig_timestamp := 0 |}.

Global Instance example_collaborators : Collaborators :=
  {| pango_layout_shape := example_shape;
     pango_glyph_item_clusters := example_clusters;
     pango_cairo_font_get_scaled_font :=
       fun font =>
         match font with
         | Some f => if (f =? 0)%N then None else Some (f + 100)%N
         | None => None
         end;
     pango_font_description_hash := fun d => weight d + style d + size d;
     cairo_font_options_hash :=
       fun o => match o with Some o => antialias o + hint_style o | None => 0 end;
     pango_font_map_create_context_default := example_context;
     pango_language_get_default := 7;
     pango_language_includes_latin := fun _ => true;
     g_unichar_get_script := fun c => if (c <? 65)%N then 0 else 25;
     _vte_unistr_append_to_string :=
       fun c s =>
         (s ++ String (ascii_of_N (if (c <? 128) then c else 128 + c mod 128)%N)
                 EmptyString)%string;
     vte_bidi_get_mirror_char :=
       fun c _ => if (c =? 40)%N then 41%N else if (c =? 41)%N then 40%N else c |}.

Definition example_screen : GdkScreen :=
  {| screen_pango_context := example_context; gtk_fontconfig_timestamp := 0 |}.

Definition example_widget : GtkWidget :=
  {| widget_screen := example_screen; widget_pango_language := 7 |}.

(** The state of a process that has not used the cache yet. *)
Definition empty_world : world :=
  {| heap := ∅; font_info_for_context := None; sources := [];
     next_addr := 1; next_source_id := 1; now := 0 |}.

Definition example_fontdesc : PangoFontDescription :=
  font_description example_context.

(** A widget that has set its font once, and its [_vte_draw] with a cairo
    context. *)
Definition example_built : option (_vte_draw * world) :=
  Eval vm_compute in
    _vte_draw_set_text_font _vte_draw_new example_widget example_fontdesc
      (int_to_double 1) (int_to_double 1) empty_world.

Definition example_draw : _vte_draw :=
  match example_built with
  | Some (draw, _) =>
      {| fonts := fonts draw; cell_width := cell_width draw;
         cell_height := cell_height draw; char_spacing := char_spacing draw;
         cr := Some 1%N; undercurl_surface := undercurl_surface draw |}
  | None => _vte_draw_new
  end.

Definition example_heap : gmap N font_info :=
  match example_built with
  | Some (_, w) => heap w
  | None => ∅
  end.

Definition example_request (c : vteunistr) (x : Z) : _vte_draw_text_request :=
  {| req_c := c; req_x := x; req_y := 0; req_columns := 1;
     req_mirror := false; req_box_mirror := false |}.

(** The answer of [font_info_get_unistr_info] for [c], as a value. *)
Definition classification `{Collaborators} (info : font_info) (c : vteunistr)
  : unistr_info :=
  (font_info_get_unistr_info info c).1.

(** The left edge [_vte_draw_get_char_edges] computes for a glyph that is
    [w] wide, in a font whose normal face is [normal_width] wide. *)
Definition glyph_left (draw : _vte_draw) (normal_width w columns : Z) : Z :=
  if w <=? normal_width * columns then
    border_left (char_spacing draw)
    + (if columns =? 2 then border_right (char_spacing draw) else 0)
  else if w <=? cell_width draw * columns then (cell_width draw * columns - w) / 2
  else 0.

(** What a request asks of the canvas: a drawing call of its own, or one
    more glyph for the pending call of [cairo_show_glyphs]. *)
Inductive outcome :=
| immediate (op : cairo_op)
| batched (scaled_font : cairo_scaled_font_t) (g : cairo_glyph_t).

(** The outcome of [request] when [fi] is the font of the style and [fin]
    the normal font, read off the answers of the coverage cache. *)
Definition request_outcome `{Collaborators} (draw : _vte_draw) (fi fin : font_info)
    (request : _vte_draw_text_request) : option outcome :=
  let c := request_char request in
  if _vte_draw_unichar_is_local_graphic c then
    Some (immediate (draw_graphic c (req_x request) (req_y request)
                       (info_width fi) (req_columns request) (info_height fi)))
  else
    let uinfo := classification fi c in
    let x := glyph_left draw (info_width fin) (width uinfo) (req_columns request)
             + req_x request in
    let y := req_y request + border_top (char_spacing draw) + info_ascent fin in
    match ufi uinfo with
    | ufi_unknown => None
    | using_pango_layout_line line => Some (immediate (show_layout_line x y line))
    | using_pango_glyph_string font glyph_string =>
        Some (immediate (show_glyph_string x y font glyph_string))
    | using_cairo_glyph scaled_font glyph_index =>
        Some (batched scaled_font
                {| glyph_index_of := glyph_index; glyph_x := x; glyph_y := y |})
    end.

Definition immediate_op (o : outcome) : option cairo_op :=
  match o with immediate op => Some op | batched _ _ => None end.

Definition batched_glyph (o : outcome) : option cairo_glyph_t :=
  match o with immediate _ => None | batched _ g => Some g end.

(** The glyphs of a call of [cairo_show_glyphs]; no glyph for another call. *)
Definition op_glyphs (op : cairo_op) : list cairo_glyph_t :=
  match op with show_glyphs _ gs => gs | _ => [] end.

Definition is_show_glyphs (op : cairo_op) : bool :=
  match op with show_glyphs _ _ => true | _ => false end.

(** The locals of the drawing loop without the heap, and what one outcome
    does to them. *)
Definition push_outcome
    (st : option cairo_scaled_font_t * list cairo_glyph_t * list cairo_op)
    (o : outcome) : option cairo_scaled_font_t * list cairo_glyph_t * list cairo_op :=
  let '(last, pending, ops) := st in
  match o with
  | immediate op => (last, pending, ops ++ [op])
  | batched scaled_font g =>
      if bool_decide (last ≠ Some scaled_font)
         || bool_decide (length pending = MAX_RUN_LENGTH)
      then
        (Some scaled_font, [g],
         if bool_decide (length pending ≠ 0%nat) then ops ++ [show_glyphs last pending]
         else ops)
      else (last, pending ++ [g], ops)
  end.

(** The heap [h] holds the font [p] of the style and the normal font [p0]
    as [fi0] and [fin0] were, up to the characters looked up since. *)
Definition fonts_as `{Collaborators} (p p0 : N) (fi0 fin0 : font_info)
    (h : gmap N font_info) : Prop :=
  ∃ fi fin,
    h !! p = Some fi ∧ h !! p0 = Some fin
    ∧ same_font fi fi0 ∧ same_font fin fin0
    ∧ length (ascii_unistr_info fi) = 128%nat
    ∧ ∀ c, classification fi c = classification fi0 c.

(** The single drawing call of a request that is drawn alone. *)
Definition outcome_alone (o : outcome) : cairo_op :=
  match o with
  | immediate op => op
  | batched scaled_font g => show_glyphs (Some scaled_font) [g]
  end.

(** The positioned glyph of a request whose character has a cairo glyph. *)
Definition request_glyph `{Collaborators} (draw : _vte_draw) (fi fin : font_info)
    (request : _vte_draw_text_request) : cairo_glyph_t :=
  let uinfo := classification fi (request_char request) in
  {| glyph_index_of :=
       match ufi uinfo with using_cairo_glyph _ glyph_index => glyph_index | _ => 0 end;
     glyph_x := glyph_left draw (info_width fin) (width uinfo) (req_columns request)
                + req_x request;
     glyph_y := req_y request + border_top (char_spacing draw) + info_ascent fin |}.

(** The drawing calls of a canvas that are not calls of
    [cairo_show_glyphs], and the glyphs of those that are. *)
Definition immediate_calls (ops : list cairo_op) : list cairo_op :=
  filter (fun op => is_show_glyphs op = false) ops.

Definition batched_glyphs (ops : list cairo_op) : list cairo_glyph_t :=
  concat (op_glyphs <$> ops).

(** An outcome as [request_outcome] makes them: a call of its own is never
    a call of [cairo_show_glyphs]. *)
Definition outcome_ok (o : outcome) : Prop :=
  match o with
  | immediate op => is_show_glyphs op = false
  | batched _ _ => True
  end.

(** The [font_info] at address [p] of the example heap. *)
Definition example_font (p : N) : font_info :=
  default (font_info_allocate example_context) (example_heap !! p).

(** The value a double stands for in a comparison with [==]: a NaN has
    none, and the two zeros stand for the same one. *)
Definition double_value (d : spec_float) : option spec_float :=
  match d with
  | S754_nan => None
  | S754_zero _ => Some (S754_zero false)
  | _ => Some d
  end.

(** The five fields of a context that [context_equal] compares, when each
    of them is equal to itself: the resolution is no NaN and the font
    options are set. *)
Definition fingerprint (context : PangoContext)
  : option (spec_float * PangoFontDescription * cairo_font_options_t * Z * Z) :=
  r ← double_value (resolution context);
  o ← font_options context;
  Some (r, font_description context, o, language context, fontconfig_timestamp context).

(** The nodes of [font_info_for_context]; none before the table exists. *)
Definition table (w : world) : list (PangoContext * N) :=
  default [] (font_info_for_context w).

(** No two nodes of a table hold equal keys. *)
Definition table_unique (t : list (PangoContext * N)) : Prop :=
  ∀ k1 p1 k2 p2,
    (k1, p1) ∈ t → (k2, p2) ∈ t → context_equal k1 k2 = true → p1 = p2.

(** The invariant of the font cache.  A node whose key is equal to itself
    points to a live [font_info] made for that key; every live [font_info]
    has its node; a pending timeout belongs to a live [font_info] that
    nobody references and that remembers its id. *)
Record world_ok (w : world) : Prop := {
  ok_heap_bound : ∀ p fi, heap w !! p = Some fi → (p < next_addr w)%N;
  ok_table_bound : ∀ k p, (k, p) ∈ table w → (p < next_addr w)%N;
  ok_table_addrs : NoDup (table w).*2;
  ok_table_keys : table_unique (table w);
  ok_table_live :
    ∀ k p, (k, p) ∈ table w → context_equal k k = true →
           ∃ fi, heap w !! p = Some fi ∧ layout_context (layout fi) = k;
  ok_registered :
    ∀ p fi, heap w !! p = Some fi → (layout_context (layout fi), p) ∈ table w;
  ok_ref_count : ∀ p fi, heap w !! p = Some fi → 0 <= ref_count fi;
  ok_next_source : 0 < next_source_id w;
  ok_source_ids : ∀ s, s ∈ sources w → 0 < source_id s < next_source_id w;
  ok_source_nodup : NoDup (source_id <$> sources w);
  ok_source_data :
    ∀ s, s ∈ sources w →
         ∃ fi, heap w !! source_data s = Some fi
               ∧ destroy_timeout fi = source_id s ∧ ref_count fi = 0
}.

(** Reading a field of a world that was written with the setters. *)
Ltac world_fields :=
  cbn [heap font_info_for_context sources next_addr next_source_id now
       set_heap set_table set_sources set_now default from_option id] in *.

(** ** The example font system in the font cache *)

(** The key [font_info_create_for_widget] makes of [example_widget] and
    [example_fontdesc]. *)
Definition example_key : PangoContext :=
  {| ctx_addr := 1; font_map_is_cairo := true; base_dir := PANGO_DIRECTION_LTR;
     resolution := int_to_double 96;
     font_description := example_fontdesc;
     font_options := Some cairo_font_options_create;
     language := 7; fontconfig_timestamp := 0 |}.

(** The world in which [example_key] was looked up once. *)
Definition example_acquired : world :=
  Eval vm_compute in
    match font_info_find_for_context example_key empty_world with
    | Some (_, w) => w
    | None => empty_world
    end.

(** A description whose bold face is a fifth wider than its normal face, a
    bold one and an italic one. *)
Definition example_wide_fontdesc : PangoFontDescription :=
  {| family := "Wide"; style := 0; variant := 0; weight := 400;
     stretch := 4; size := 12288 |}.

Definition example_bold_fontdesc : PangoFontDescription :=
  pango_font_description_set_weight example_fontdesc PANGO_WEIGHT_BOLD.

Definition example_italic_fontdesc : PangoFontDescription :=
  pango_font_description_set_style example_fontdesc PANGO_STYLE_ITALIC.

(** ** Definitions for the statements on the style set *)

(** [abs (ratio - 100) > 10] for a normal and a bold [font_info], with
    [ratio = bold->width * 100 / normal->width]. *)
Definition bold_rejected (normal bold : font_info) : bool :=
  10 <? Z.abs (Z.quot (info_width bold * 100) (info_width normal) - 100).

(** Every [font_info] of the heap has a width above zero, as
    [font_info_measure_font] leaves it. *)
Definition widths_ok (w : world) : Prop :=
  ∀ p fi, heap w !! p = Some fi → 0 < info_width fi.

(** Every [font_info] of [w] is in [w'], with its metrics and its layout. *)
Definition heap_keeps (w w' : world) : Prop :=
  ∀ q f, heap w !! q = Some f →
         ∃ f', heap w' !! q = Some f'
               ∧ info_width f' = info_width f
               ∧ info_height f' = info_height f
               ∧ layout f' = layout f.

(** The key of the bold face of [example_fontdesc]. *)
Definition example_bold_key : PangoContext :=
  {| ctx_addr := 1; font_map_is_cairo := true; base_dir := PANGO_DIRECTION_LTR;
     resolution := int_to_double 96;
     font_description := example_bold_fontdesc;
     font_options := Some cairo_font_options_create;
     language := 7; fontconfig_timestamp := 0 |}.

(** A new [_vte_draw] whose font is set to [fontdesc], in a process that
    has not used the cache yet, and the world after [_vte_draw_free] of
    it. *)
Definition example_set_font (fontdesc : PangoFontDescription)
  : option (_vte_draw * world) :=
  _vte_draw_set_text_font _vte_draw_new example_widget fontdesc
    (int_to_double 1) (int_to_double 1) empty_world.

Definition built_draw (built : option (_vte_draw * world)) : _vte_draw :=
  match built with Some (draw, _) => draw | None => _vte_draw_new end.

Definition built_world (built : option (_vte_draw * world)) : world :=
  match built with Some (_, w) => w | None => empty_world end.

Definition example_built_bold : option (_vte_draw * world) :=
  Eval vm_compute in example_set_font example_bold_fontdesc.

Definition example_freed_bold : world :=
  Eval vm_compute in
    default empty_world
      (_vte_draw_free (built_draw example_built_bold) (built_world example_built_bold)).

Definition example_built_italic : option (_vte_draw * world) :=
  Eval vm_compute in example_set_font example_italic_fontdesc.

Definition example_freed_italic : world :=
  Eval vm_compute in
    default empty_world
      (_vte_draw_free (built_draw example_built_italic)
         (built_world example_built_italic)).

(** The [font_info] at [p], for a [p] that is live. *)
Definition heap_font (w : world) (p : N) : font_info :=
  default (font_info_allocate example_context) (heap w !! p).

Definition example_built_wide : option (_vte_draw * world) :=
  Eval vm_compute in example_set_font example_wide_fontdesc.

(** The [_vte_draw] of [example_built_bold] gets another font. *)
Definition example_rebuilt_bold : option (_vte_draw * world) :=
  Eval vm_compute in
    _vte_draw_set_text_font (built_draw example_built_bold) example_widget
      example_wide_fontdesc (int_to_double 1) (int_to_double 1)
      (built_world example_built_bold).

(** * More of the source *)

(** ** The style of a cell *)

Definition _vte_draw_get_style (bold italic : bool) : nat :=
  let style := 0%nat in
  let style := if bold then Nat.lor style VTE_DRAW_BOLD else style in
  let style := if italic then Nat.lor style VTE_DRAW_ITALIC else style in
  style.

(** ** The cairo context of a [_vte_draw] *)

Definition set_cr (draw : _vte_draw) (c : option N) : _vte_draw :=
  {| fonts := fonts draw; cell_width := cell_width draw;
     cell_height := cell_height draw; char_spacing := char_spacing draw;
     cr := c; undercurl_surface := undercurl_surface draw |}.

(** [_vte_draw_set_cairo]: setting asserts that no context is set, and
    unsetting that one is. *)
Definition _vte_draw_set_cairo (draw : _vte_draw) (c : option N) : option _vte_draw :=
  match c with
  | Some _ => if bool_decide (cr draw = None) then Some (set_cr draw c) else None
  | None => if bool_decide (cr draw ≠ None) then Some (set_cr draw None) else None
  end.

(** ** The metrics of the text *)

(** What [_vte_draw_get_text_metrics] stores through its five pointers,
    when none of them is NULL. *)
Record text_metrics := {
  metrics_cell_width : Z;
  metrics_cell_height : Z;
  metrics_char_ascent : Z;
  metrics_char_descent : Z;
  metrics_char_spacing : GtkBorder
}.

(** [None] inside: [g_return_if_fail] found no normal font and nothing is
    stored. *)
Definition _vte_draw_get_text_metrics (draw : _vte_draw) (h : gmap N font_info)
  : option (option text_metrics) :=
  font_normal ← draw_font draw VTE_DRAW_NORMAL;
  match font_normal with
  | None => Some None
  | Some p_normal =>
      fi_normal ← h !! p_normal;
      Some (Some {| metrics_cell_width := cell_width draw;
                    metrics_cell_height := cell_height draw;
                    metrics_char_ascent := info_ascent fi_normal;
                    metrics_char_descent := info_height fi_normal - info_ascent fi_normal;
                    metrics_char_spacing := char_spacing draw |})
  end.

(** ** Rectangles and lines *)

(** [cairo_rectangle (cr, x, y, width, height); cairo_fill (cr)]. *)
Record cairo_rectangle := {
  fill_x : Z;
  fill_y : Z;
  fill_width : Z;
  fill_height : Z
}.

Definition _vte_draw_fill_rectangle (draw : _vte_draw) (x y width height : Z)
  : option cairo_rectangle :=
  _ ← cr draw;
  Some {| fill_x := x; fill_y := y; fill_width := width; fill_height := height |}.

Definition _vte_draw_draw_line (draw : _vte_draw) (x y xp yp line_width : Z)
  : option cairo_rectangle :=
  _vte_draw_fill_rectangle draw x y
    (Z.max line_width (xp - x + 1)) (Z.max line_width (yp - y + 1)).

(** ** The graphics VTE draws itself *)

Definition _vte_draw_is_separable_mosaic (c : vteunistr) : bool :=
  (((0x1fb00 <=? c) && (c <=? 0x1fb9f))
   || ((0x25e2 <=? c) && (c <=? 0x25e5))
   || ((0x2580 <=? c) && (c <=? 0x259f)))%N.

(** [create_mosaic_separation_pattern]: the rectangles filled with opaque
    pixels on the surface of [width] by [height] transparent pixels, in the
    order of the two loops. *)
Definition create_mosaic_separation_pattern (width height line_thickness : Z)
  : list cairo_rectangle :=
  let pel := line_thickness in
  if (2 * pel <? width) && (3 * pel <? height) then
    let width_half := Z.quot width 2 in
    let height_thirds := Z.quot height 3 in
    let remaining_height := height - 3 * height_thirds in
    let y := [0; height_thirds;
              2 * height_thirds + (if remaining_height =? 0 then 0 else 1); height] in
    let x := [0; width_half; width] in
    yi ← [0; 1; 2]%nat;
    xi ← [0; 1]%nat;
    [ {| fill_x := x !!! xi + pel; fill_y := y !!! yi;
         fill_width := x !!! S xi - x !!! xi - pel;
         fill_height := y !!! S yi - y !!! yi - pel |} ]
  else [].

(** The line widths of [_vte_draw_terminal_draw_graphic]: [light_line_width]
    and [heavy_line_width]. *)
Definition graphic_line_widths (c : vteunistr) (font_width : Z) : Z * Z :=
  let light_line_width := Z.quot font_width 5 in
  let light_line_width := Z.max light_line_width 1 in
  let heavy_line_width :=
    if ((0x2550 <=? c) && (c <=? 0x256c))%N then 3 * light_line_width
    else light_line_width + 2 in
  (light_line_width, heavy_line_width).

(** The body of the macro RECTANGLE once [x1], [y1], [x2] and [y2] are
    computed. *)
Definition rectangle_between (x y x1 y1 x2 y2 : Z) : cairo_rectangle :=
  {| fill_x := x + x1; fill_y := y + y1;
     fill_width := Z.max (x2 - x1) 1; fill_height := Z.max (y2 - y1) 1 |}.

(** The macro RECTANGLE for operands of type [int]. *)
Definition RECTANGLE (x y w h xdenom ydenom xb1 yb1 xb2 yb2 : Z) : cairo_rectangle :=
  let x1 := Z.quot (w * xb1) xdenom in
  let y1 := Z.quot (h * yb1) ydenom in
  let x2 := Z.quot (w * xb2) xdenom in
  let y2 := Z.quot (h * yb2) ydenom in
  rectangle_between x y x1 y1 x2 y2.

(** The case of the box drawing characters that have a bitmap in
    box_drawing.h: the boundaries of the five columns, or rows, of a cell
    of [size] pixels, and the rectangles of the bits of [bitmap] that are
    set, from the lowest bit, which is the last column of the last row. *)
Definition box_drawing_boundaries (size half light_line_width heavy_line_width : Z)
  : list Z :=
  [ 0;
    half - Z.quot heavy_line_width 2;
    half - Z.quot light_line_width 2;
    half - Z.quot light_line_width 2 + light_line_width;
    half - Z.quot heavy_line_width 2 + heavy_line_width;
    size ].

Definition box_drawing_rectangles (bitmap x y : Z) (xboundaries yboundaries : list Z)
  : list cairo_rectangle :=
  (foldl (fun '(bitmap, out) '(yi, xi) =>
            (Z.shiftr bitmap 1,
             if Z.testbit bitmap 0
             then out ++ [ {| fill_x := x + xboundaries !!! xi;
                              fill_y := y + yboundaries !!! yi;
                              fill_width := xboundaries !!! S xi - xboundaries !!! xi;
                              fill_height := yboundaries !!! S yi - yboundaries !!! yi |} ]
             else out))
         (bitmap, [])
         (yi ← [4; 3; 2; 1; 0]%nat; xi ← [4; 3; 2; 1; 0]%nat; [(yi, xi)])).2.

(** The bitmap of a sextant, U+1FB00 to U+1FB3B: bit 0 is the upper left
    cell of three rows of two.  The patterns of the left half and of the
    right half block, which have characters of their own, are skipped. *)
Definition sextant_bitmap (c : vteunistr) : Z :=
  let bitmap := Z.of_N c - 0x1fb00 + 1 in
  let bitmap := if 0x15 <=? bitmap then bitmap + 1 else bitmap in
  let bitmap := if 0x2a <=? bitmap then bitmap + 1 else bitmap in
  bitmap.

Definition sextant_rectangles (bitmap x y width height : Z) : list cairo_rectangle :=
  (foldl (fun '(bitmap, out) '(yi, xi) =>
            (Z.shiftr bitmap 1,
             if Z.testbit bitmap 0
             then out ++ [RECTANGLE x y width height 2 3 xi yi (xi + 1) (yi + 1)]
             else out))
         (bitmap, [])
         (yi ← [0; 1; 2]; xi ← [0; 1]; [(yi, xi)])).2.

(** The cases of the switch of [_vte_draw_terminal_draw_graphic] that fill
    rectangles with the macro RECTANGLE and make no other drawing call:
    the rectangles, in the order of the calls, for a cell of [width] by
    [height] pixels at [x], [y].  The default case and the case of U+1FB93
    fill nothing.  [None] stands for the cases left out here, which draw
    with bitmaps of box_drawing.h, dashes, arcs, diagonals, polygons,
    patterns or another alpha.  Where an operand is a [guint] the product
    is an unsigned one. *)
Definition graphic_rectangles (c : vteunistr) (x y width height : Z)
  : option (list cairo_rectangle) :=
  let R := RECTANGLE x y width height in
  if (c =? 0x2580)%N then Some [R 1 2 0 0 1 1]
  else if ((0x2581 <=? c) && (c <=? 0x2587))%N then
    let v := Z.of_N (0x2588 - c) in
    Some [ rectangle_between x y
             (Z.quot (width * 0) 1) (Z.quot (to_guint (height * v)) 8)
             (Z.quot (width * 1) 1) (Z.quot (height * 8) 8) ]
  else if ((0x2588 <=? c) && (c <=? 0x258f))%N then
    let v := Z.of_N (0x2590 - c) in
    Some [ rectangle_between x y
             (Z.quot (width * 0) 8) (Z.quot (height * 0) 1)
             (Z.quot (to_guint (width * v)) 8) (Z.quot (height * 1) 1) ]
  else if (c =? 0x2590)%N then Some [R 2 1 1 0 2 1]
  else if (c =? 0x2594)%N then Some [R 1 8 0 0 1 1]
  else if (c =? 0x2595)%N then Some [R 8 1 7 0 8 1]
  else if (c =? 0x2596)%N then Some [R 2 2 0 1 1 2]
  else if (c =? 0x2597)%N then Some [R 2 2 1 1 2 2]
  else if (c =? 0x2598)%N then Some [R 2 2 0 0 1 1]
  else if (c =? 0x2599)%N then Some [R 2 2 0 0 1 1; R 2 2 0 1 2 2]
  else if (c =? 0x259a)%N then Some [R 2 2 0 0 1 1; R 2 2 1 1 2 2]
  else if (c =? 0x259b)%N then Some [R 2 2 0 0 2 1; R 2 2 0 1 1 2]
  else if (c =? 0x259c)%N then Some [R 2 2 0 0 2 1; R 2 2 1 1 2 2]
  else if (c =? 0x259d)%N then Some [R 2 2 1 0 2 1]
  else if (c =? 0x259e)%N then Some [R 2 2 1 0 2 1; R 2 2 0 1 1 2]
  else if (c =? 0x259f)%N then Some [R 2 2 1 0 2 1; R 2 2 0 1 2 2]
  else if ((0x1fb00 <=? c) && (c <=? 0x1fb3b))%N then
    Some (sextant_rectangles (sextant_bitmap c) x y width height)
  else if ((0x1fb70 <=? c) && (c <=? 0x1fb75))%N then
    let v := Z.of_N c - 0x1fb70 + 1 in
    Some [R 8 1 v 0 (v + 1) 1]
  else if ((0x1fb76 <=? c) && (c <=? 0x1fb7b))%N then
    let v := Z.of_N c - 0x1fb76 + 1 in
    Some [R 1 8 0 v 1 (v + 1)]
  else if (c =? 0x1fb7c)%N then Some [R 1 8 0 7 1 8; R 8 1 0 0 1 1]
  else if (c =? 0x1fb7d)%N then Some [R 1 8 0 0 1 1; R 8 1 0 0 1 1]
  else if (c =? 0x1fb7e)%N then Some [R 1 8 0 0 1 1; R 8 1 7 0 8 1]
  else if (c =? 0x1fb7f)%N then Some [R 1 8 0 7 1 8; R 8 1 7 0 8 1]
  else if (c =? 0x1fb80)%N then Some [R 1 8 0 0 1 1; R 1 8 0 7 1 8]
  else if (c =? 0x1fb81)%N then
    Some [R 1 8 0 0 1 1; R 1 8 0 2 1 3; R 1 8 0 4 1 5; R 1 8 0 7 1 8]
  else if ((0x1fb82 <=? c) && (c <=? 0x1fb86))%N then
    let v := Z.of_N c - 0x1fb82 + 2 in
    let v := if 4 <=? v then v + 1 else v in
    Some [R 1 8 0 0 1 v]
  else if ((0x1fb87 <=? c) && (c <=? 0x1fb8b))%N then
    let v := Z.of_N c - 0x1fb87 + 2 in
    let v := if 4 <=? v then v + 1 else v in
    Some [R 8 1 (8 - v) 0 8 1]
  else if (c =? 0x1fb93)%N then Some []
  else if (c =? 0x1fb97)%N then Some [R 1 4 0 1 1 2; R 1 4 0 3 1 4]
  else if ((0x2500 <=? c) && (c <=? 0x257f))%N
          || ((0x2591 <=? c) && (c <=? 0x2593))%N
          || ((0x25e2 <=? c) && (c <=? 0x25e5))%N
          || ((0x1fb3c <=? c) && (c <=? 0x1fb6f))%N
          || ((0x1fb8c <=? c) && (c <=? 0x1fb92))%N
          || ((0x1fb94 <=? c) && (c <=? 0x1fb96))%N
          || ((0x1fb98 <=? c) && (c <=? 0x1fbae))%N
  then None
  else Some [].

(** The mask of a separated mosaic: the pattern that
    [_vte_draw_terminal_draw_graphic] masks the drawing of the character
    with when the attribute of the cell asks for it and the character is
    separable. *)
Definition graphic_separation (draw : _vte_draw) (c : vteunistr) (attr_separated : bool)
    (font_width columns : Z) : option (list cairo_rectangle) :=
  let width := cell_width draw * columns in
  let height := cell_height draw in
  if attr_separated && _vte_draw_is_separable_mosaic c
  then Some (create_mosaic_separation_pattern width height
               (graphic_line_widths c font_width).1)
  else None.

(** The rectangles of a [draw_graphic] of the canvas. *)
Definition draw_graphic_rectangles (draw : _vte_draw) (op : cairo_op)
  : option (list cairo_rectangle) :=
  match op with
  | draw_graphic c x y font_width columns font_height =>
      graphic_rectangles c x y (cell_width draw * columns) (cell_height draw)
  | _ => None
  end.

(** ** Definitions for the statements on a new [font_info] *)

(** An element of the direct array as [font_info_cache_ascii] leaves it:
    zeroed, or a cairo glyph. *)
Definition ascii_entry_ok (u : unistr_info) : Prop :=
  u = unistr_info_create
  ∨ ∃ scaled_font glyph_index,
      ufi u = using_cairo_glyph scaled_font glyph_index
      ∧ has_unknown_chars u = false
      ∧ glyph_index <= 65535
      ∧ 0 <= width u < 65536.

(** The profiling counters add up: the first one counts every character
    that got a coverage, the others count them by coverage. *)
Definition coverage_counts_ok (info : font_info) : Prop :=
  ∃ n1 n2 n3,
    coverage_count info = [n1 + n2 + n3; n1; n2; n3]
    ∧ 0 <= n1 ∧ 0 <= n2 ∧ 0 <= n3.

(** What [font_info_cache_ascii] keeps of a [font_info] whose layout holds
    the sample text. *)
Definition ascii_cache_ok (info : font_info) : Prop :=
  length (ascii_unistr_info info) = 128%nat
  ∧ Forall ascii_entry_ok (ascii_unistr_info info)
  ∧ other_unistr_info info = None
  ∧ (∀ i, (i < 32)%nat ∨ i = 127%nat →
          ascii_unistr_info info !! i = Some unistr_info_create)
  ∧ coverage_counts_ok info.

(** ** Definitions for the statements on the canvas *)

(** A call of [cairo_show_glyphs] has a scaled font and at least one and at
    most [MAX_RUN_LENGTH] glyphs, the size of the array [cr_glyphs]. *)
Definition batch_ok (op : cairo_op) : Prop :=
  match op with
  | show_glyphs scaled_font glyphs =>
      is_Some scaled_font ∧ (1 <= length glyphs <= MAX_RUN_LENGTH)%nat
  | _ => True
  end.

(** ** Definitions for the statements on the graphics *)

(** The pixel at [px], [py] is inside the rectangle [r]. *)
Definition inside (r : cairo_rectangle) (px py : Z) : Prop :=
  fill_x r <= px < fill_x r + fill_width r
  ∧ fill_y r <= py < fill_y r + fill_height r.

(** The pixel is inside one of the rectangles that were filled. *)
Definition painted (l : list cairo_rectangle) (px py : Z) : Prop :=
  ∃ r, r ∈ l ∧ inside r px py.

(** [r] has at least one pixel and lies within the cell of [width] by
    [height] pixels at [x], [y]. *)
Definition within_cell (x y width height : Z) (r : cairo_rectangle) : Prop :=
  x <= fill_x r ∧ 1 <= fill_width r ∧ fill_x r + fill_width r <= x + width
  ∧ y <= fill_y r ∧ 1 <= fill_height r ∧ fill_y r + fill_height r <= y + height.

(** The column, of two, and the row, of [rows], of a pixel of the cell at
    [x], [y], where the macro RECTANGLE puts the boundaries. *)
Definition pixel_column (x width px : Z) : Z :=
  if px - x <? Z.quot (width * 1) 2 then 0 else 1.

Definition pixel_row (rows y height py : Z) : Z :=
  if py - y <? Z.quot (height * 1) rows then 0
  else if py - y <? Z.quot (height * 2) rows then 1
  else 2.

(** The quadrants of U+2596 to U+259F, as Unicode names them: bit 0 is the
    upper left quadrant, bit 1 the upper right, bit 2 the lower left and
    bit 3 the lower right one. *)
Definition quadrant_bitmap (c : vteunistr) : Z :=
  if (c =? 0x2596)%N then 4
  else if (c =? 0x2597)%N then 8
  else if (c =? 0x2598)%N then 1
  else if (c =? 0x2599)%N then 13
  else if (c =? 0x259a)%N then 9
  else if (c =? 0x259b)%N then 7
  else if (c =? 0x259c)%N then 11
  else if (c =? 0x259d)%N then 2
  else if (c =? 0x259e)%N then 6
  else if (c =? 0x259f)%N then 14
  else 0.

(** The characters of the upper, lower, left and right [n] eighths of a
    block, for [n] from 1 to 7, as Unicode names them. *)
Definition upper_eighths (n : Z) : vteunistr :=
  if n =? 1 then 0x2594%N
  else if n =? 4 then 0x2580%N
  else if n <? 4 then (0x1fb82 + Z.to_N (n - 2))%N
  else (0x1fb84 + Z.to_N (n - 5))%N.

Definition lower_eighths (n : Z) : vteunistr := (0x2580 + Z.to_N n)%N.

Definition left_eighths (n : Z) : vteunistr := (0x2590 - Z.to_N n)%N.

Definition right_eighths (n : Z) : vteunistr :=
  if n =? 1 then 0x2595%N
  else if n =? 4 then 0x2590%N
  else if n <? 4 then (0x1fb87 + Z.to_N (n - 2))%N
  else (0x1fb89 + Z.to_N (n - 5))%N.

(** * The types of src/vtetypes.hh *)

(** ** [vte::grid]: coordinates and spans of cells *)

Module grid.

(** [coords] is a [std::pair] of a row and a column, both [long]; its
    comparisons are those of [std::pair], by the row and then by the
    column. *)
Record coords := { row : Z; column : Z }.

Definition lt (a b : coords) : bool :=
  (row a <? row b) || (negb (row b <? row a) && (column a <? column b)).

(** [a <= b] is [!(b < a)], and [a >= b] is [!(a < b)]. *)
Definition le (a b : coords) : bool := negb (lt b a).

Definition ge (a b : coords) : bool := negb (lt a b).

(** The end of a [span] is exclusive. *)
Record span := { m_start : coords; m_end : coords }.

Definition start_row (s : span) : Z := row (m_start s).

Definition end_row (s : span) : Z := row (m_end s).

Definition last_row (s : span) : Z :=
  if 0 <? column (m_end s) then row (m_end s) else row (m_end s) - 1.

Definition clear (s : span) : span :=
  {| m_start := {| row := -1; column := -1 |};
     m_end := {| row := -1; column := -1 |} |}.

Definition empty (s : span) : bool := ge (m_start s) (m_end s).

Definition contains (s : span) (p : coords) : bool :=
  le (m_start s) p && lt p (m_end s).

Definition box_contains (s : span) (p : coords) : bool :=
  (row (m_start s) <=? row p) && (row p <=? row (m_end s))
  && (column (m_start s) <=? column p) && (column p <? column (m_end s)).

End grid.

(** ** [vte::util]: [restore_errno] and [smart_fd] *)

Module util.

(** What a process shows of its file descriptors: [errno], and the
    descriptors that were given to [close], in the order of the calls. *)
Record process := { errno : Z; closed : list Z }.

(** The operating system: the [errno] that [close (fd)] leaves, given the
    calls made before and the [errno] before. *)
Class System := {
  close_errno : Z → list Z → Z → Z
}.

Definition close `{System} (fd : Z) (p : process) : process :=
  {| errno := close_errno fd (closed p) (errno p); closed := closed p ++ [fd] |}.

(** A scope that declares a [restore_errno]: the constructor saves [errno]
    and the destructor, at the end of the scope, stores it back. *)
Definition restore_errno (scope : process → process) (p : process) : process :=
  let m_errsv := errno p in
  let p := scope p in
  {| errno := m_errsv; closed := closed p |}.

(** [if (m_fd != -1) { restore_errno errsv; close(m_fd); }] *)
Definition close_if_set `{System} (m_fd : Z) (p : process) : process :=
  if m_fd =? -1 then p else restore_errno (close m_fd) p.

(** The [m_fd] of the [smart_fd] objects, by their addresses, and the
    process. *)
Record state := { objects : gmap N Z; proc : process }.

(** [smart_fd (int fd)], at the address [this]. *)
Definition smart_fd_new (this : N) (fd : Z) (st : state) : state :=
  {| objects := <[this := fd]> (objects st); proc := proc st |}.

(** [~smart_fd ()]. *)
Definition smart_fd_destroy `{System} (this : N) (st : state) : option state :=
  m_fd ← objects st !! this;
  Some {| objects := delete this (objects st);
          proc := close_if_set m_fd (proc st) |}.

(** [operator = (int rhs)]. *)
Definition smart_fd_assign_int `{System} (this : N) (rhs : Z) (st : state)
  : option state :=
  m_fd ← objects st !! this;
  Some {| objects := <[this := rhs]> (objects st);
          proc := close_if_set m_fd (proc st) |}.

(** [operator = (smart_fd& rhs)]. *)
Definition smart_fd_assign `{System} (this rhs : N) (st : state) : option state :=
  m_fd ← objects st !! this;
  rhs_fd ← objects st !! rhs;
  if bool_decide (rhs ≠ this) then
    Some {| objects := <[rhs := -1]> (<[this := rhs_fd]> (objects st));
            proc := close_if_set m_fd (proc st) |}
  else Some st.

(** [operator int ()]. *)
Definition smart_fd_int (this : N) (st : state) : option Z := objects st !! this.

(** [operator int* ()]: asserts that no descriptor is held. *)
Definition smart_fd_int_ptr (this : N) (st : state) : option N :=
  m_fd ← objects st !! this;
  if m_fd =? -1 then Some this else None.

Definition steal (this : N) (st : state) : option (Z * state) :=
  d ← objects st !! this;
  Some (d, {| objects := <[this := -1]> (objects st); proc := proc st |}).

(** The descriptors of a list that [close] is called for. *)
Definition held (fds : list Z) : list Z := filter (fun fd => fd ≠ -1) fds.

End util.

(** ** An example process *)

(** A system whose [close] always leaves EBADF in [errno], and a process
    with two [smart_fd] objects that hold the descriptors 5 and 7. *)
Global Instance example_system : util.System :=
  {| util.close_errno := fun _ _ _ => 9 |}.

Definition example_state : util.state :=
  {| util.objects := {[ 1%N := 5; 2%N := 7 ]};
     util.proc := {| util.errno := 0; util.closed := [] |} |}.


(** * Properties *)

(** ** The coverage cache *)

Section coverage_cache.
Context `{Collaborators}.

Lemma find_unistr_info_fst info c :
  (font_info_find_unistr_info info c).1 = lookup_unistr_info info c.
Proof.
  unfold font_info_find_unistr_info, lookup_unistr_info.
  destruct (c <? 128)%N; [done|].
  by destruct (default ∅ (other_unistr_info info) !! c).
Qed.

Lemma find_unistr_info_lookup info c c' :
  lookup_unistr_info (font_info_find_unistr_info info c').2 c
  = lookup_unistr_info info c.
Proof.
  unfold font_info_find_unistr_info, lookup_unistr_info.
  destruct (c' <? 128)%N; [done|].
  destruct (default ∅ (other_unistr_info info) !! c') eqn:E; simpl; [done|].
  destruct (c <? 128)%N; [done|].
  destruct (decide (c = c')) as [->|Hne].
  - by rewrite lookup_insert_eq, E.
  - by rewrite lookup_insert_ne.
Qed.

Lemma find_unistr_info_context info c :
  layout (font_info_find_unistr_info info c).2 = layout info.
Proof.
  unfold font_info_find_unistr_info.
  destruct (c <? 128)%N; [done|].
  by destruct (default ∅ (other_unistr_info info) !! c).
Qed.

Lemma choose_coverage_known shape unknown :
  choose_coverage shape unknown ≠ ufi_unknown.
Proof.
  unfold choose_coverage.
  destruct (runs (line0 shape)) as [|item [|? ?]]; [done| |done].
  destruct (glyphs item) as [|g [|? ?]]; [done| |done].
  destruct (negb unknown && (glyph g <=? 65535)
            && (Z.lor (geometry_x_offset g) (geometry_y_offset g) =? 0)); [|done].
  by destruct (pango_cairo_font_get_scaled_font (analysis_font item)).
Qed.

Lemma shaped_unistr_info_known context c :
  coverage (shaped_unistr_info context c) ≠ COVERAGE_UNKNOWN.
Proof.
  unfold coverage, shaped_unistr_info; simpl.
  match goal with |- context [choose_coverage ?s ?u] =>
    pose proof (choose_coverage_known s u); destruct (choose_coverage s u) end;
    done.
Qed.

Lemma get_unistr_info_unfold info c :
  font_info_get_unistr_info info c
  = if bool_decide (coverage (lookup_unistr_info info c) = COVERAGE_UNKNOWN)
    then (shaped_unistr_info (layout_context (layout info)) c,
          store_shaped (font_info_find_unistr_info info c).2 c)
    else (lookup_unistr_info info c, (font_info_find_unistr_info info c).2).
Proof.
  unfold font_info_get_unistr_info.
  pose proof (find_unistr_info_fst info c) as Hf.
  pose proof (find_unistr_info_context info c) as Hc.
  destruct (font_info_find_unistr_info info c) as [u i]; simpl in Hf, Hc; subst u.
  change ((lookup_unistr_info info c, i).2) with i.
  destruct (bool_decide (coverage (lookup_unistr_info info c) = COVERAGE_UNKNOWN));
    [|done].
  unfold store_shaped, shaped_unistr_info.
  rewrite <- Hc. reflexivity.
Qed.

(** The value [font_info_get_unistr_info] answers. *)
Lemma get_unistr_info_fst info c :
  (font_info_get_unistr_info info c).1
  = if bool_decide (coverage (lookup_unistr_info info c) = COVERAGE_UNKNOWN)
    then shaped_unistr_info (layout_context (layout info)) c
    else lookup_unistr_info info c.
Proof. rewrite get_unistr_info_unfold. by case_bool_decide. Qed.

Lemma get_unistr_info_known info c :
  coverage (font_info_get_unistr_info info c).1 ≠ COVERAGE_UNKNOWN.
Proof.
  rewrite get_unistr_info_fst. case_bool_decide; [|done].
  apply shaped_unistr_info_known.
Qed.

Lemma lookup_unistr_info_store info c c' u :
  c ≠ c' →
  lookup_unistr_info (unistr_info_store info c' u) c = lookup_unistr_info info c.
Proof.
  intros Hne. unfold unistr_info_store, lookup_unistr_info.
  destruct (c' <? 128)%N eqn:E'; destruct (c <? 128)%N eqn:E; simpl; try done.
  - rewrite list_lookup_insert_ne; [done|]. intros Heq. apply Hne. lia.
  - by rewrite lookup_insert_ne.
Qed.

Lemma lookup_unistr_info_store_eq info c u :
  length (ascii_unistr_info info) = 128%nat →
  lookup_unistr_info (unistr_info_store info c u) c = u.
Proof.
  intros Hlen. unfold unistr_info_store, lookup_unistr_info.
  destruct (c <? 128)%N eqn:E; simpl.
  - rewrite list_lookup_insert_eq; [done|]. apply N.ltb_lt in E. lia.
  - by rewrite lookup_insert_eq.
Qed.

Lemma same_font_refl a : same_font a a.
Proof. by repeat split. Qed.

Lemma same_font_trans a b c : same_font a b → same_font b c → same_font a c.
Proof. unfold same_font. intros; intuition congruence. Qed.

Lemma find_unistr_info_same_font info c :
  same_font (font_info_find_unistr_info info c).2 info.
Proof.
  unfold font_info_find_unistr_info. destruct (c <? 128)%N; [apply same_font_refl|].
  destruct (default ∅ (other_unistr_info info) !! c); by repeat split.
Qed.

Lemma store_shaped_same_font info c : same_font (store_shaped info c) info.
Proof.
  unfold store_shaped, unistr_info_store.
  destruct (c <? 128)%N; repeat split; simpl. by rewrite length_insert.
Qed.

Lemma get_unistr_info_same_font info c :
  same_font (font_info_get_unistr_info info c).2 info.
Proof.
  rewrite get_unistr_info_unfold. case_bool_decide; simpl.
  - eapply same_font_trans; [apply store_shaped_same_font|].
    apply find_unistr_info_same_font.
  - apply find_unistr_info_same_font.
Qed.

(** The slot of [c] after [font_info_get_unistr_info] ran for [c']. *)
Lemma get_unistr_info_lookup_ne info c c' :
  c ≠ c' →
  lookup_unistr_info (font_info_get_unistr_info info c').2 c
  = lookup_unistr_info info c.
Proof.
  intros Hne. rewrite get_unistr_info_unfold. case_bool_decide; simpl.
  - unfold store_shaped. rewrite lookup_unistr_info_store by done.
    unfold lookup_unistr_info; simpl.
    apply (find_unistr_info_lookup info c c').
  - apply find_unistr_info_lookup.
Qed.

Lemma get_unistr_info_lookup_eq info c :
  length (ascii_unistr_info info) = 128%nat →
  lookup_unistr_info (font_info_get_unistr_info info c).2 c
  = (font_info_get_unistr_info info c).1.
Proof.
  intros Hlen. rewrite get_unistr_info_unfold. case_bool_decide; simpl.
  - unfold store_shaped. rewrite lookup_unistr_info_store_eq; [|simpl].
    + by rewrite find_unistr_info_context.
    + destruct (find_unistr_info_same_font info c) as (_&_&_&_&_&_&Hl). congruence.
  - apply find_unistr_info_lookup.
Qed.

Lemma find_unistr_info_table info c :
  (c <? 128)%N = false → is_Some (other_unistr_info (font_info_find_unistr_info info c).2).
Proof.
  intros E. unfold font_info_find_unistr_info. rewrite E.
  destruct (default ∅ (other_unistr_info info) !! c); by eexists.
Qed.

(** A character that has a coverage in a cache whose table exists:
    [font_info_find_unistr_info] changes nothing. *)
Lemma find_unistr_info_hit info c :
  coverage (lookup_unistr_info info c) ≠ COVERAGE_UNKNOWN →
  ((c <? 128)%N = false → is_Some (other_unistr_info info)) →
  (font_info_find_unistr_info info c).2 = info.
Proof.
  intros Hk Ht. unfold font_info_find_unistr_info, lookup_unistr_info in *.
  destruct (c <? 128)%N; [done|].
  destruct Ht as [t Ht]; [done|]. rewrite Ht in *; simpl in *.
  destruct (t !! c); simpl in *; [|done].
  destruct info; simpl in *. by subst.
Qed.

Lemma store_shaped_table info c :
  (c <? 128)%N = false → is_Some (other_unistr_info (store_shaped info c)).
Proof.
  intros E. unfold store_shaped, unistr_info_store. rewrite E. by eexists.
Qed.

Lemma get_unistr_info_table info c :
  (c <? 128)%N = false →
  is_Some (other_unistr_info (font_info_get_unistr_info info c).2).
Proof.
  intros E. rewrite get_unistr_info_unfold. case_bool_decide; simpl.
  - by apply store_shaped_table.
  - by apply find_unistr_info_table.
Qed.

(** Asking twice: the second answer is the first and the cache is left
    as the first call left it. *)
Lemma get_unistr_info_again info c :
  length (ascii_unistr_info info) = 128%nat →
  font_info_get_unistr_info (font_info_get_unistr_info info c).2 c
  = font_info_get_unistr_info info c.
Proof.
  intros Hlen.
  pose proof (get_unistr_info_lookup_eq info c Hlen) as Hl.
  pose proof (get_unistr_info_known info c) as Hk.
  rewrite (get_unistr_info_unfold (font_info_get_unistr_info info c).2).
  rewrite Hl, bool_decide_eq_false_2 by done.
  rewrite find_unistr_info_hit.
  - by destruct (font_info_get_unistr_info info c).
  - by rewrite Hl.
  - apply get_unistr_info_table.
Qed.






Lemma get_unistr_info_length info c :
  length (ascii_unistr_info (font_info_get_unistr_info info c).2)
  = length (ascii_unistr_info info).
Proof. by destruct (get_unistr_info_same_font info c) as (_&_&_&_&_&_&?). Qed.



(** The conditions under which the source takes the fast cairo path for
    the shape of a one-character text. *)
Lemma choose_coverage_cairo shape unknown scaled_font glyph_index :
  choose_coverage shape unknown = using_cairo_glyph scaled_font glyph_index
  ↔ ∃ item g,
      runs (line0 shape) = [item] ∧ glyphs item = [g]
      ∧ unknown = false ∧ glyph g <= 65535
      ∧ geometry_x_offset g = 0 ∧ geometry_y_offset g = 0
      ∧ pango_cairo_font_get_scaled_font (analysis_font item) = Some scaled_font
      ∧ glyph_index = glyph g.
Proof.
  unfold choose_coverage. split.
  - destruct (runs (line0 shape)) as [|item [|? ?]]; [done| |done].
    destruct (glyphs item) as [|g [|? ?]] eqn:Egl; [done| |done].
    destruct unknown; simpl; [done|].
    destruct (glyph g <=? 65535) eqn:Eg; simpl; [|done].
    destruct (Z.lor (geometry_x_offset g) (geometry_y_offset g) =? 0) eqn:Eo; [|done].
    destruct (pango_cairo_font_get_scaled_font (analysis_font item)) eqn:Es; [|done].
    intros [= <- <-]. exists item, g.
    apply Z.leb_le in Eg. apply Z.eqb_eq in Eo.
    apply Z.lor_eq_0_iff in Eo as [Hx Hy]. by repeat split.
  - intros (item & g & -> & -> & -> & Hg & Hx & Hy & -> & ->).
    rewrite Hx, Hy. simpl.
    by rewrite (proj2 (Z.leb_le _ _) Hg).
Qed.

(** C4, as amended.  For a character that has no coverage yet,
    [font_info_get_unistr_info] chooses the cairo glyph exactly when the
    shaped one-character text is a single run of a single glyph, at offset
    zero, with an index of at most 16 bits, and moreover Pango counted no
    unknown glyph and the font of the run has a cairo scaled font; it then
    keeps that scaled font and the index of that glyph.  The flag
    [has_unknown_chars] says whether Pango counted an unknown glyph, and a
    character that has one gets a glyph string or a layout line. *)
Theorem classify_single_glyph (info : font_info) (c : vteunistr) :
  coverage (lookup_unistr_info info c) = COVERAGE_UNKNOWN →
  let shape := pango_layout_shape (layout_context (layout info))
                 (_vte_unistr_append_to_string c "") in
  let uinfo := (font_info_get_unistr_info info c).1 in
  (coverage uinfo = COVERAGE_USE_CAIRO_GLYPH
   ↔ ∃ item g scaled_font,
       runs (line0 shape) = [item] ∧ glyphs item = [g]
       ∧ glyph g <= 65535
       ∧ geometry_x_offset g = 0 ∧ geometry_y_offset g = 0
       ∧ unknown_glyphs_count shape = 0
       ∧ pango_cairo_font_get_scaled_font (analysis_font item) = Some scaled_font)
  ∧ (∀ item g scaled_font,
       runs (line0 shape) = [item] → glyphs item = [g] →
       glyph g <= 65535 →
       geometry_x_offset g = 0 → geometry_y_offset g = 0 →
       unknown_glyphs_count shape = 0 →
       pango_cairo_font_get_scaled_font (analysis_font item) = Some scaled_font →
       ufi uinfo = using_cairo_glyph scaled_font (glyph g))
  ∧ (has_unknown_chars uinfo = true ↔ unknown_glyphs_count shape ≠ 0)
  ∧ (has_unknown_chars uinfo = true →
     coverage uinfo = COVERAGE_USE_PANGO_GLYPH_STRING
     ∨ coverage uinfo = COVERAGE_USE_PANGO_LAYOUT_LINE).
Proof.
  intros Hu shape uinfo.
  assert (uinfo = shaped_unistr_info (layout_context (layout info)) c) as Hv.
  { subst uinfo. by rewrite get_unistr_info_fst, bool_decide_eq_true_2. }
  assert (has_unknown_chars uinfo = negb (unknown_glyphs_count shape =? 0)) as Hflag.
  { by rewrite Hv. }
  assert (ufi uinfo = choose_coverage shape (negb (unknown_glyphs_count shape =? 0)))
    as Hufi.
  { by rewrite Hv. }
  assert (has_unknown_chars uinfo = true ↔ unknown_glyphs_count shape ≠ 0) as Hiff.
  { rewrite Hflag, negb_true_iff, Z.eqb_neq. done. }
  assert (∀ item g scaled_font,
            runs (line0 shape) = [item] → glyphs item = [g] →
            glyph g <= 65535 →
            geometry_x_offset g = 0 → geometry_y_offset g = 0 →
            unknown_glyphs_count shape = 0 →
            pango_cairo_font_get_scaled_font (analysis_font item) = Some scaled_font →
            ufi uinfo = using_cairo_glyph scaled_font (glyph g)) as Hfast.
  { intros item g sf Hruns Hglyphs Hg Hx Hy Hn Hsf. rewrite Hufi.
    apply choose_coverage_cairo. exists item, g.
    split_and!; try done. rewrite Hn. reflexivity. }
  split; [|split; [exact Hfast|split; [done|]]].
  - split.
    + unfold coverage. rewrite Hufi.
      destruct (choose_coverage shape (negb (unknown_glyphs_count shape =? 0)))
        as [| | |sf gi] eqn:E; try done. intros _.
      apply choose_coverage_cairo in E.
      destruct E as (item & g & ? & ? & Hn & ? & ? & ? & ? & ->).
      exists item, g, sf. apply negb_false_iff, Z.eqb_eq in Hn. by repeat split.
    + intros (item & g & sf & Hruns & Hglyphs & Hg & Hx & Hy & Hn & Hsf).
      unfold coverage.
      by rewrite (Hfast item g sf Hruns Hglyphs Hg Hx Hy Hn Hsf).
  - intros Ht. rewrite Hflag in Ht.
    pose proof (choose_coverage_known shape (negb (unknown_glyphs_count shape =? 0))).
    unfold coverage. rewrite Hufi.
    destruct (choose_coverage shape (negb (unknown_glyphs_count shape =? 0)))
      as [| | |sf gi] eqn:E; try done; [by right|by left|].
    apply choose_coverage_cairo in E.
    destruct E as (? & ? & ? & ? & Hn & ?). congruence.
Qed.

Lemma classification_after info c c' :
  length (ascii_unistr_info info) = 128%nat →
  classification (font_info_get_unistr_info info c').2 c = classification info c.
Proof.
  intros Hlen. unfold classification.
  rewrite (get_unistr_info_fst (font_info_get_unistr_info info c').2).
  destruct (get_unistr_info_same_font info c') as (_ & _ & -> & _).
  destruct (decide (c = c')) as [<-|Hne].
  - rewrite get_unistr_info_lookup_eq by done.
    by rewrite bool_decide_eq_false_2 by apply get_unistr_info_known.
  - rewrite get_unistr_info_lookup_ne by done. by rewrite get_unistr_info_fst.
Qed.

Lemma classification_known info c :
  ufi (classification info c) ≠ ufi_unknown.
Proof.
  pose proof (get_unistr_info_known info c) as Hk. unfold coverage in Hk.
  unfold classification. by destruct (ufi (font_info_get_unistr_info info c).1).
Qed.

End coverage_cache.

(** ** Drawing *)

Section drawing.
Context `{Collaborators}.

Lemma glyph_left_quot draw normal_width w columns :
  glyph_left draw normal_width w columns
  = if w <=? normal_width * columns then
      border_left (char_spacing draw)
      + (if columns =? 2 then border_right (char_spacing draw) else 0)
    else if w <=? cell_width draw * columns
         then Z.quot (cell_width draw * columns - w) 2
    else 0.
Proof.
  unfold glyph_left. destruct (w <=? normal_width * columns); [done|].
  destruct (w <=? cell_width draw * columns) eqn:E; [|done].
  apply Z.leb_le in E. rewrite Z.quot_div_nonneg; lia.
Qed.

(** [_vte_draw_get_char_edges] for a character that is drawn with a font. *)
Lemma get_char_edges_font draw h c columns style p p0 fi fin :
  draw_font draw VTE_DRAW_NORMAL = Some (Some p0) →
  draw_font draw style = Some (Some p) →
  h !! p = Some fi → h !! p0 = Some fin →
  _vte_draw_unichar_is_local_graphic c = false →
  let w := width (classification fi c) in
  let l := glyph_left draw (info_width fin) w columns in
  _vte_draw_get_char_edges draw h c columns style
  = Some (l, l + w, <[p := (font_info_get_unistr_info fi c).2]> h).
Proof.
  intros Hn Hs Hp Hp0 Hg w l. unfold _vte_draw_get_char_edges.
  rewrite Hg, Hn, Hs. simpl. rewrite Hp. simpl.
  pose proof (get_unistr_info_same_font fi c) as Hsame.
  subst l w. unfold classification. rewrite glyph_left_quot.
  destruct (font_info_get_unistr_info fi c) as [u fi'] eqn:E. simpl in *.
  assert (∃ fin', <[p := fi']> h !! p0 = Some fin' ∧ info_width fin' = info_width fin)
    as (fin' & -> & Hw).
  { destruct (decide (p = p0)) as [->|Hne].
    - rewrite lookup_insert_eq. eexists; split; [done|].
      destruct Hsame as (_&_&_&Hw&_). congruence.
    - rewrite lookup_insert_ne by done. eauto. }
  simpl. by rewrite Hw.
Qed.

Lemma fonts_as_start p p0 fi fin (h : gmap N font_info) :
  h !! p = Some fi → h !! p0 = Some fin →
  length (ascii_unistr_info fi) = 128%nat →
  fonts_as p p0 fi fin h.
Proof.
  intros. exists fi, fin. split_and!; try done; apply same_font_refl.
Qed.

Lemma fonts_as_lookup p p0 fi0 fin0 h fi c :
  fonts_as p p0 fi0 fin0 h → h !! p = Some fi →
  fonts_as p p0 fi0 fin0 (<[p := (font_info_get_unistr_info fi c).2]> h).
Proof.
  intros (fi' & fin & Hp & Hp0 & Hs & Hsn & Hlen & Hc) Hfi.
  assert (fi' = fi) as -> by congruence.
  pose proof (get_unistr_info_same_font fi c) as Hsame.
  assert (same_font (font_info_get_unistr_info fi c).2 fi0) as Hs'.
  { by eapply same_font_trans. }
  exists (font_info_get_unistr_info fi c).2.
  destruct (decide (p = p0)) as [<-|Hne].
  - exists (font_info_get_unistr_info fi c).2.
    rewrite lookup_insert_eq. split_and!; try done.
    + assert (fin = fi) as -> by congruence.
      exact (same_font_trans _ _ _ Hsame Hsn).
    + by rewrite get_unistr_info_length.
    + intros c'. by rewrite classification_after, Hc.
  - exists fin. rewrite lookup_insert_eq, lookup_insert_ne by done.
    split_and!; try done.
    + by rewrite get_unistr_info_length.
    + intros c'. by rewrite classification_after, Hc.
Qed.

Lemma request_outcome_same draw fi fin fi0 fin0 request :
  same_font fi fi0 → same_font fin fin0 →
  (∀ c, classification fi c = classification fi0 c) →
  request_outcome draw fi fin request = request_outcome draw fi0 fin0 request.
Proof.
  intros (_&_&_&Hw&Hh&_) (_&_&_&Hwn&_&Han&_) Hc.
  unfold request_outcome. by rewrite Hc, Hw, Hh, Hwn, Han.
Qed.

Lemma request_outcome_some draw fi fin request :
  is_Some (request_outcome draw fi fin request).
Proof.
  unfold request_outcome.
  destruct (_vte_draw_unichar_is_local_graphic _); [by eexists|].
  pose proof (classification_known fi (request_char request)).
  simpl. destruct (ufi (classification fi (request_char request))); [done|..];
    eexists; reflexivity.
Qed.

(** One round of the drawing loop. *)
Lemma draw_request_step draw style p p0 fi0 fin0 run request o :
  draw_font draw VTE_DRAW_NORMAL = Some (Some p0) →
  draw_font draw style = Some (Some p) →
  fonts_as p p0 fi0 fin0 (run_heap run) →
  request_outcome draw fi0 fin0 request = Some o →
  ∃ h',
    draw_request draw style p (Some run) request
    = Some (let '(last, pending, ops) :=
              push_outcome (last_scaled_font run, cr_glyphs run, canvas run) o in
            {| last_scaled_font := last; cr_glyphs := pending; canvas := ops;
               run_heap := h' |})
    ∧ fonts_as p p0 fi0 fin0 h'.
Proof.
  intros Hn Hs Hfonts Ho.
  pose proof Hfonts as (fi & fin & Hp & Hp0 & Hsame & Hsamen & Hlen & Hc).
  rewrite <- (request_outcome_same draw fi fin fi0 fin0) in Ho by done.
  unfold draw_request, request_outcome in *. simpl.
  destruct (_vte_draw_unichar_is_local_graphic (request_char request)) eqn:Hg.
  - injection Ho as <-. rewrite Hp. simpl. eexists. split; [|done].
    by destruct run.
  - rewrite Hp. simpl.
    pose proof (get_unistr_info_again fi (request_char request) Hlen) as Hagain.
    pose proof (fonts_as_lookup _ _ _ _ _ fi (request_char request) Hfonts Hp) as Hf1.
    pose proof (get_unistr_info_same_font fi (request_char request)) as Hsame1.
    unfold classification in Ho.
    destruct (font_info_get_unistr_info fi (request_char request)) as [u fi1] eqn:E.
    simpl in *.
    assert (∃ fin1, <[p := fi1]> (run_heap run) !! p0 = Some fin1
                    ∧ info_width fin1 = info_width fin
                    ∧ info_ascent fin1 = info_ascent fin) as (fin1 & Hp01 & Hw1 & Ha1).
    { destruct (decide (p = p0)) as [->|Hne].
      - rewrite lookup_insert_eq. eexists; split; [done|].
        assert (fin = fi) as -> by congruence.
        destruct Hsame1 as (_&_&_&?&_&?&_). done.
      - rewrite lookup_insert_ne by done. eauto. }
    rewrite (get_char_edges_font draw _ _ _ style p p0 fi1 fin1)
      by (done || apply lookup_insert_eq).
    simpl. rewrite Hn. simpl.
    pose proof (fonts_as_lookup _ _ _ _ _ fi1 (request_char request) Hf1
                  (lookup_insert_eq _ _ _)) as Hf2.
    rewrite Hagain in *. simpl in *. rewrite insert_insert_eq in *.
    rewrite Hp01. simpl.
    unfold classification. rewrite Hagain. simpl. rewrite Hw1, Ha1.
    exists (<[p := fi1]> (run_heap run)). split; [|done].
    destruct (ufi u); simplify_eq; simpl; try done.
    destruct (bool_decide (last_scaled_font run ≠ Some scaled_font)
              || bool_decide (length (cr_glyphs run) = MAX_RUN_LENGTH)); [|done].
    case_bool_decide as Hpending; simpl; [done|].
    destruct (cr_glyphs run); [done|]. simpl in Hpending. lia.
Qed.

(** The outcomes of a list of requests, in their order. *)
Lemma outcomes_length draw fi fin requests :
  length (omap (request_outcome draw fi fin) requests) = length requests.
Proof.
  induction requests as [|r rs IH]; [done|]. simpl.
  destruct (request_outcome_some draw fi fin r) as [o ->]. simpl. by f_equal.
Qed.

(** The drawing loop over a list of requests. *)
Lemma draw_requests_fold draw style p p0 fi0 fin0 requests run :
  draw_font draw VTE_DRAW_NORMAL = Some (Some p0) →
  draw_font draw style = Some (Some p) →
  fonts_as p p0 fi0 fin0 (run_heap run) →
  ∃ h',
    foldl (draw_request draw style p) (Some run) requests
    = Some (let '(last, pending, ops) :=
              foldl push_outcome (last_scaled_font run, cr_glyphs run, canvas run)
                (omap (request_outcome draw fi0 fin0) requests) in
            {| last_scaled_font := last; cr_glyphs := pending; canvas := ops;
               run_heap := h' |})
    ∧ fonts_as p p0 fi0 fin0 h'.
Proof.
  intros Hn Hs. revert run.
  induction requests as [|r rs IH]; intros run Hf.
  - exists (run_heap run). split; [|done]. by destruct run.
  - destruct (request_outcome_some draw fi0 fin0 r) as [o Ho].
    assert (omap (request_outcome draw fi0 fin0) (r :: rs)
            = o :: omap (request_outcome draw fi0 fin0) rs) as ->.
    { simpl. by rewrite Ho. }
    change (foldl (draw_request draw style p) (Some run) (r :: rs))
      with (foldl (draw_request draw style p)
              (draw_request draw style p (Some run) r) rs).
    destruct (draw_request_step draw style p p0 fi0 fin0 run r o Hn Hs Hf Ho)
      as (h1 & -> & Hf1).
    cbn [foldl].
    destruct (push_outcome (last_scaled_font run, cr_glyphs run, canvas run) o)
      as [[last pending] ops] eqn:E.
    destruct (IH {| last_scaled_font := last; cr_glyphs := pending; canvas := ops;
                    run_heap := h1 |} Hf1) as (h' & -> & Hf').
    by exists h'.
Qed.

(** [_vte_draw_text_internal] as a fold of [push_outcome] and a last call
    for the glyphs still pending. *)
Lemma draw_text_internal_outcomes draw h requests style p p0 fi fin cairo :
  draw_font draw VTE_DRAW_NORMAL = Some (Some p0) →
  draw_font draw style = Some (Some p) →
  cr draw = Some cairo →
  h !! p = Some fi → h !! p0 = Some fin →
  length (ascii_unistr_info fi) = 128%nat →
  ∃ h',
    _vte_draw_text_internal draw h requests style
    = Some (let '(last, pending, ops) :=
              foldl push_outcome (None, [], [])
                (omap (request_outcome draw fi fin) requests) in
            if bool_decide (length pending ≠ 0%nat)
            then ops ++ [show_glyphs last pending] else ops, h')
    ∧ fonts_as p p0 fi fin h'.
Proof.
  intros Hn Hs Hcr Hp Hp0 Hlen. unfold _vte_draw_text_internal.
  rewrite Hs, Hcr. simpl.
  destruct (draw_requests_fold draw style p p0 fi fin requests
              {| last_scaled_font := None; cr_glyphs := []; canvas := [];
                 run_heap := h |} Hn Hs) as (h' & -> & Hf).
  { by apply fonts_as_start. }
  simpl.
  destruct (foldl push_outcome (None, [], []) _) as [[last pending] ops]. simpl.
  exists h'. split; [|done]. by case_bool_decide.
Qed.

Lemma request_outcome_ok draw fi fin request o :
  request_outcome draw fi fin request = Some o → outcome_ok o.
Proof.
  unfold request_outcome.
  destruct (_vte_draw_unichar_is_local_graphic _); [by intros [= <-]|].
  simpl. destruct (ufi (classification fi (request_char request)));
    [done|by intros [= <-]..].
Qed.

Lemma outcomes_ok draw fi fin (requests : list _vte_draw_text_request) :
  Forall outcome_ok (omap (request_outcome draw fi fin) requests).
Proof.
  induction requests as [|r rs IH]; [constructor|]. simpl.
  destruct (request_outcome draw fi fin r) as [o|] eqn:E; [|done].
  constructor; [|done]. by eapply request_outcome_ok.
Qed.

Lemma omap_bind_outcome {A} draw fi fin (f : outcome → option A)
    (requests : list _vte_draw_text_request) :
  omap (fun r => request_outcome draw fi fin r ≫= f) requests
  = omap f (omap (request_outcome draw fi fin) requests).
Proof.
  induction requests as [|r rs IH]; [done|]. simpl.
  destruct (request_outcome draw fi fin r) as [o|]; simpl; [|done].
  destruct (f o); simpl; by f_equal.
Qed.

Lemma immediate_calls_app ops ops' :
  immediate_calls (ops ++ ops') = immediate_calls ops ++ immediate_calls ops'.
Proof. apply filter_app. Qed.

Lemma batched_glyphs_app ops ops' :
  batched_glyphs (ops ++ ops') = batched_glyphs ops ++ batched_glyphs ops'.
Proof. unfold batched_glyphs. by rewrite fmap_app, concat_app. Qed.

Lemma batched_glyphs_immediate op :
  is_show_glyphs op = false → batched_glyphs [op] = [].
Proof. by destruct op. Qed.

Lemma immediate_calls_immediate op :
  is_show_glyphs op = false → immediate_calls [op] = [op].
Proof.
  intros Hop. unfold immediate_calls. rewrite filter_cons_True by done. done.
Qed.

(** What a fold of [push_outcome] keeps: the calls that are no batches, in
    the order of their requests, and the glyphs, in the order of theirs. *)
Lemma push_outcomes_order outs last pending ops :
  Forall outcome_ok outs →
  let '(last', pending', ops') := foldl push_outcome (last, pending, ops) outs in
  immediate_calls ops' = immediate_calls ops ++ omap immediate_op outs
  ∧ batched_glyphs ops' ++ pending'
    = batched_glyphs ops ++ pending ++ omap batched_glyph outs.
Proof.
  intros Hok. revert last pending ops.
  induction Hok as [|o outs Ho Hok IH]; intros last pending ops.
  - simpl. by rewrite !app_nil_r.
  - cbn [foldl].
    destruct o as [op|sf g]; simpl in Ho.
    + cbn [push_outcome].
      specialize (IH last pending (ops ++ [op])).
      destruct (foldl push_outcome (last, pending, ops ++ [op]) outs)
        as [[last' pending'] ops'].
      destruct IH as [IH1 IH2]. split.
      * rewrite IH1, immediate_calls_app, immediate_calls_immediate by done.
        simpl. by rewrite <- app_assoc.
      * rewrite IH2, batched_glyphs_app, batched_glyphs_immediate by done.
        simpl. by rewrite app_nil_r.
    + cbn [push_outcome].
      destruct (bool_decide (last ≠ Some sf)
                || bool_decide (length pending = MAX_RUN_LENGTH)).
      * case_bool_decide as Hp.
        -- specialize (IH (Some sf) [g] (ops ++ [show_glyphs last pending])).
           destruct (foldl push_outcome _ outs) as [[last' pending'] ops'].
           destruct IH as [IH1 IH2]. split.
           ++ rewrite IH1, immediate_calls_app. simpl.
              unfold immediate_calls at 2. rewrite filter_cons_False by done.
              rewrite filter_nil. by rewrite app_nil_r.
           ++ rewrite IH2, batched_glyphs_app. unfold batched_glyphs at 2. simpl.
              rewrite app_nil_r. by rewrite <- !app_assoc.
        -- specialize (IH (Some sf) [g] ops).
           destruct (foldl push_outcome _ outs) as [[last' pending'] ops'].
           destruct IH as [IH1 IH2]. split; [done|].
           rewrite IH2. destruct pending; [done|]. simpl in Hp. lia.
      * specialize (IH last (pending ++ [g]) ops).
        destruct (foldl push_outcome _ outs) as [[last' pending'] ops'].
        destruct IH as [IH1 IH2]. split; [done|].
        rewrite IH2. simpl. by rewrite <- !app_assoc.
Qed.

(** The fold of [push_outcome] over glyphs of one scaled font: full batches
    have been shown and between 1 and [MAX_RUN_LENGTH] glyphs are pending. *)
Lemma push_batched_invariant scaled_font gs :
  let '(last, pending, ops) :=
    foldl push_outcome (None, [], []) (batched scaled_font <$> gs) in
  ∃ full,
    ops = show_glyphs (Some scaled_font) <$> full
    ∧ Forall (fun b => length b = MAX_RUN_LENGTH) full
    ∧ concat full ++ pending = gs
    ∧ (gs = [] → pending = [])
    ∧ (gs ≠ [] →
       last = Some scaled_font ∧ (1 <= length pending <= MAX_RUN_LENGTH)%nat).
Proof.
  induction gs as [|g gs IH] using rev_ind.
  - simpl. exists []. split_and!; done.
  - rewrite fmap_app, foldl_app. simpl.
    destruct (foldl push_outcome (None, [], []) (batched scaled_font <$> gs))
      as [[last pending] ops].
    destruct IH as (full & -> & Hfull & Hcat & Hnil & Hne).
    cbn [push_outcome].
    destruct (decide (gs = [])) as [->|Hgs].
    + rewrite (Hnil eq_refl) in *.
      assert (full = []) as ->.
      { destruct full as [|b full]; [done|].
        inversion Hfull as [|?? Hb _]; subst.
        destruct b; [simpl in Hb; unfold MAX_RUN_LENGTH in Hb; lia|done]. }
      change (length (@nil cairo_glyph_t)) with 0%nat.
      rewrite (bool_decide_eq_false_2 (0%nat = MAX_RUN_LENGTH))
        by (unfold MAX_RUN_LENGTH; lia).
      rewrite (bool_decide_eq_false_2 (0%nat ≠ 0%nat)) by tauto.
      rewrite orb_false_r.
      case_bool_decide as Hlast; simpl.
      * exists []. split_and!; try done.
        intros _. split; [done|]. unfold MAX_RUN_LENGTH. lia.
      * exists []. split_and!; try done.
        intros _. split; [done|unfold MAX_RUN_LENGTH; lia].
    + destruct (Hne Hgs) as (-> & Hlo & Hhi).
      rewrite (bool_decide_eq_false_2 (Some scaled_font ≠ Some scaled_font)) by tauto.
      simpl. case_bool_decide as Hfullrun.
      * rewrite bool_decide_eq_true_2 by lia.
        exists (full ++ [pending]). split_and!.
        -- by rewrite fmap_app.
        -- apply Forall_app. split; [done|]. by constructor.
        -- rewrite concat_app. simpl. rewrite app_nil_r, <- Hcat. done.
        -- by destruct gs.
        -- intros _. split; [done|]. simpl. unfold MAX_RUN_LENGTH. lia.
      * exists full. split_and!; try done.
        -- rewrite <- Hcat. by rewrite app_assoc.
        -- by destruct gs.
        -- intros _. split; [done|]. rewrite length_app. simpl. lia.
Qed.

(** C10.  For a character of the local graphic ranges
    [_vte_draw_get_char_edges] answers 0 and [cell_width * columns] and
    leaves the heap, hence every coverage cache, as it is, whatever the
    fonts.  For another character drawn with the fonts loaded it answers
    [left] and [left + w], [w] being the width the coverage cache has for
    the character: [left] is the left spacing (plus the right spacing for
    two columns) when [w] is at most the normal width times [columns], half
    of what the cells leave free when [w] is at most [cell_width *
    columns], and 0 otherwise. *)
Theorem char_edges (draw : _vte_draw) (h : gmap N font_info) (c : vteunistr)
    (columns : Z) (style : nat) :
  (_vte_draw_unichar_is_local_graphic c = true →
   _vte_draw_get_char_edges draw h c columns style
   = Some (0, cell_width draw * columns, h))
  ∧ (_vte_draw_unichar_is_local_graphic c = false →
     ∀ p p0 fi fin,
       draw_font draw VTE_DRAW_NORMAL = Some (Some p0) →
       draw_font draw style = Some (Some p) →
       h !! p = Some fi → h !! p0 = Some fin →
       let w := width (font_info_get_unistr_info fi c).1 in
       let left :=
         if w <=? info_width fin * columns then
           border_left (char_spacing draw)
           + (if columns =? 2 then border_right (char_spacing draw) else 0)
         else if w <=? cell_width draw * columns
              then (cell_width draw * columns - w) / 2
         else 0 in
       ∃ h', _vte_draw_get_char_edges draw h c columns style
             = Some (left, left + w, h')).
Proof.
  split.
  - intros Hg. unfold _vte_draw_get_char_edges. by rewrite Hg.
  - intros Hg p p0 fi fin Hn Hs Hp Hp0 w left.
    eexists. by apply (get_char_edges_font draw h c columns style p p0 fi fin).
Qed.

Lemma push_outcome_alone o :
  outcome_ok o →
  (let '(last, pending, ops) := foldl push_outcome (None, [], []) [o] in
   if bool_decide (length pending ≠ 0%nat)
   then ops ++ [show_glyphs last pending] else ops)
  = [outcome_alone o].
Proof. destruct o as [op|sf g]; done. Qed.

(** C9.  With the fonts loaded, [_vte_draw_char] answers whether the
    coverage cache has no unknown glyph for the character of the request;
    when it has none the canvas gets the one drawing call of the request,
    and when it has one the canvas gets nothing.  [_vte_draw_text] makes
    that drawing call whatever the flag says. *)
Theorem draw_char_has_char (draw : _vte_draw) (h : gmap N font_info)
    (request : _vte_draw_text_request) (style : nat) (p p0 : N)
    (fi fin : font_info) (cairo : N) :
  draw_font draw VTE_DRAW_NORMAL = Some (Some p0) →
  draw_font draw style = Some (Some p) →
  cr draw = Some cairo →
  h !! p = Some fi → h !! p0 = Some fin →
  length (ascii_unistr_info fi) = 128%nat →
  let has_char :=
    negb (has_unknown_chars (font_info_get_unistr_info fi (req_c request)).1) in
  ∃ o h1 h2,
    request_outcome draw fi fin request = Some o
    ∧ _vte_draw_char draw h request style
      = Some (has_char, if has_char then [outcome_alone o] else [], h1)
    ∧ _vte_draw_text draw h [request] style = Some ([outcome_alone o], h2).
Proof.
  intros Hn Hs Hcr Hp Hp0 Hlen has_char.
  destruct (request_outcome_some draw fi fin request) as [o Ho].
  pose proof (request_outcome_ok _ _ _ _ _ Ho) as Hok.
  assert (omap (request_outcome draw fi fin) [request] = [o]) as Homap.
  { simpl. by rewrite Ho. }
  destruct (draw_text_internal_outcomes draw h [request] style p p0 fi fin cairo)
    as (h2 & Htext & _); try done.
  rewrite Homap, push_outcome_alone in Htext by done.
  pose proof (fonts_as_lookup p p0 fi fin h fi (req_c request)
                (fonts_as_start _ _ _ _ _ Hp Hp0 Hlen) Hp)
    as (fi1 & fin1 & Hp1 & Hp01 & Hsame & Hsamen & Hlen1 & Hc1).
  destruct (draw_text_internal_outcomes draw
              (<[p := (font_info_get_unistr_info fi (req_c request)).2]> h)
              [request] style p p0 fi1 fin1 cairo)
    as (h1 & Htext1 & _); try done.
  assert (omap (request_outcome draw fi1 fin1) [request] = [o]) as Homap1.
  { simpl. by rewrite (request_outcome_same draw fi1 fin1 fi fin), Ho. }
  rewrite Homap1, push_outcome_alone in Htext1 by done.
  exists o.
  exists (if has_char then h1
          else <[p := (font_info_get_unistr_info fi (req_c request)).2]> h), h2.
  split; [done|]. split.
  - unfold _vte_draw_char, _vte_draw_has_char. rewrite Hn, Hs. simpl.
    rewrite Hp. simpl. subst has_char.
    destruct (font_info_get_unistr_info fi (req_c request)) as [u fi'].
    simpl in *. destruct (has_unknown_chars u); simpl; [done|].
    unfold _vte_draw_text. rewrite Hcr. simpl. by rewrite Htext1.
  - unfold _vte_draw_text. rewrite Hcr. simpl. by rewrite Htext.
Qed.

Lemma cairo_glyph_outcome draw fi fin request scaled_font :
  _vte_draw_unichar_is_local_graphic (request_char request) = false →
  (∃ glyph_index,
     ufi (classification fi (request_char request))
     = using_cairo_glyph scaled_font glyph_index) →
  request_outcome draw fi fin request
  = Some (batched scaled_font (request_glyph draw fi fin request)).
Proof.
  intros Hg [gi Hu]. unfold request_outcome, request_glyph.
  rewrite Hg. simpl. by rewrite Hu.
Qed.

(** C6.  When every request of a list draws a character that has a cairo
    glyph of one and the same scaled font, [_vte_draw_text_internal] makes
    [ceil (n / MAX_RUN_LENGTH)] calls of [cairo_show_glyphs], for [n]
    requests, and no other drawing call; each call has at least one and at
    most [MAX_RUN_LENGTH] glyphs, every call but the last has
    [MAX_RUN_LENGTH] of them, and together they show the glyphs of the
    requests in the order of the requests, each at its own position. *)
Theorem single_glyph_batches (draw : _vte_draw) (h : gmap N font_info)
    (requests : list _vte_draw_text_request) (style : nat) (p p0 : N)
    (fi fin : font_info) (cairo : N) (scaled_font : cairo_scaled_font_t) :
  draw_font draw VTE_DRAW_NORMAL = Some (Some p0) →
  draw_font draw style = Some (Some p) →
  cr draw = Some cairo →
  h !! p = Some fi → h !! p0 = Some fin →
  length (ascii_unistr_info fi) = 128%nat →
  (∀ request, request ∈ requests →
     _vte_draw_unichar_is_local_graphic (request_char request) = false
     ∧ ∃ glyph_index,
         ufi (font_info_get_unistr_info fi (request_char request)).1
         = using_cairo_glyph scaled_font glyph_index) →
  ∃ batches h',
    _vte_draw_text_internal draw h requests style
    = Some (show_glyphs (Some scaled_font) <$> batches, h')
    ∧ concat batches = request_glyph draw fi fin <$> requests
    ∧ length batches
      = ((length requests + (MAX_RUN_LENGTH - 1)) / MAX_RUN_LENGTH)%nat
    ∧ Forall (fun b => (1 <= length b <= MAX_RUN_LENGTH)%nat) batches
    ∧ (∀ i b, batches !! i = Some b → (S i < length batches)%nat →
              length b = MAX_RUN_LENGTH).
Proof.
  intros Hn Hs Hcr Hp Hp0 Hlen Hall.
  destruct (draw_text_internal_outcomes draw h requests style p p0 fi fin cairo)
    as (h' & Htext & _); try done.
  assert (omap (request_outcome draw fi fin) requests
          = batched scaled_font <$> (request_glyph draw fi fin <$> requests)) as Hout.
  { clear Htext. induction requests as [|r rs IH]; [done|]. simpl.
    destruct (Hall r) as [Hg Hu]; [by left|].
    rewrite (cairo_glyph_outcome draw fi fin r scaled_font Hg Hu). simpl.
    f_equal. apply IH. intros r' Hr'. apply Hall. by right. }
  rewrite Hout in Htext.
  pose proof (push_batched_invariant scaled_font (request_glyph draw fi fin <$> requests))
    as Hinv.
  destruct (foldl push_outcome (None, [], []) _) as [[last pending] ops].
  destruct Hinv as (full & -> & Hfull & Hcat & Hnil & Hne).
  assert (length (concat full) = (MAX_RUN_LENGTH * length full)%nat) as Hlenfull.
  { clear -Hfull. induction Hfull as [|b full Hb _ IH]; [done|].
    cbn [concat length]. rewrite length_app, IH, Hb. unfold MAX_RUN_LENGTH. lia. }
  assert (length requests = (MAX_RUN_LENGTH * length full + length pending)%nat)
    as Hcount.
  { rewrite <- Hlenfull, <- length_app, Hcat. by rewrite length_fmap. }
  destruct (decide (requests = [])) as [->|Hreq].
  - rewrite (Hnil eq_refl) in *. simpl in Hcount.
    assert (full = []) as ->.
    { destruct full; [done|]. simpl in Hcount. unfold MAX_RUN_LENGTH in *. lia. }
    exists [], h'. simpl in Htext. split_and!; try done.
  - destruct Hne as (-> & Hlo & Hhi).
    { intros Heq. by destruct requests. }
    rewrite bool_decide_eq_true_2 in Htext by lia.
    exists (full ++ [pending]), h'. split_and!.
    + by rewrite Htext, fmap_app.
    + rewrite concat_app. simpl. by rewrite app_nil_r.
    + rewrite length_app. cbn [length]. rewrite Hcount.
      unfold MAX_RUN_LENGTH in *.
      apply (Nat.div_unique _ 100 _ (length pending - 1)); lia.
    + apply Forall_app. split.
      * eapply Forall_impl; [exact Hfull|]. simpl. intros b ->.
        unfold MAX_RUN_LENGTH. lia.
      * by constructor.
    + intros i b Hb Hi. rewrite length_app in Hi. simpl in Hi.
      rewrite lookup_app_l in Hb by lia.
      by eapply (Forall_lookup_1 _ _ _ _ Hfull).
Qed.

(** C1, as amended.  A request that has a drawing call of its own (a
    layout line, a glyph string, a local graphic) gets it at once, and the
    glyphs pending for [cairo_show_glyphs] stay pending: the loop does not
    show them first.  The pending glyphs are shown in two places only.  A
    request that has a cairo glyph shows them, before its glyph becomes
    the first one pending, when the scaled font of the last glyph is
    another one or when [MAX_RUN_LENGTH] glyphs are pending already;
    otherwise its glyph is added to them and nothing is shown.  And what is
    pending after the last request is shown then.  So the calls that are
    no batches reach the canvas in the order of their requests, and so do
    the batched glyphs, but a batch may follow the call of a later
    request. *)
Theorem pango_paths_keep_pending (draw : _vte_draw) (h : gmap N font_info)
    (requests : list _vte_draw_text_request) (style : nat) (p p0 : N)
    (fi fin : font_info) (cairo : N) :
  draw_font draw VTE_DRAW_NORMAL = Some (Some p0) →
  draw_font draw style = Some (Some p) →
  cr draw = Some cairo →
  h !! p = Some fi → h !! p0 = Some fin →
  length (ascii_unistr_info fi) = 128%nat →
  (∀ run request op,
     fonts_as p p0 fi fin (run_heap run) →
     request_outcome draw fi fin request = Some (immediate op) →
     ∃ h', draw_request draw style p (Some run) request
           = Some {| last_scaled_font := last_scaled_font run;
                     cr_glyphs := cr_glyphs run;
                     canvas := canvas run ++ [op];
                     run_heap := h' |}
           ∧ fonts_as p p0 fi fin h')
  ∧ (∀ run request scaled_font g,
       fonts_as p p0 fi fin (run_heap run) →
       request_outcome draw fi fin request = Some (batched scaled_font g) →
       ∃ h', draw_request draw style p (Some run) request
             = Some (if bool_decide (last_scaled_font run ≠ Some scaled_font)
                        || bool_decide (length (cr_glyphs run) = MAX_RUN_LENGTH)
                     then
                       {| last_scaled_font := Some scaled_font;
                          cr_glyphs := [g];
                          canvas :=
                            if bool_decide (length (cr_glyphs run) ≠ 0%nat)
                            then canvas run
                                 ++ [show_glyphs (last_scaled_font run) (cr_glyphs run)]
                            else canvas run;
                          run_heap := h' |}
                     else
                       {| last_scaled_font := last_scaled_font run;
                          cr_glyphs := cr_glyphs run ++ [g];
                          canvas := canvas run;
                          run_heap := h' |})
             ∧ fonts_as p p0 fi fin h')
  ∧ ∃ ops h' last pending shown,
      _vte_draw_text_internal draw h requests style = Some (ops, h')
      ∧ foldl push_outcome (None, [], []) (omap (request_outcome draw fi fin) requests)
        = (last, pending, shown)
      ∧ ops = (if bool_decide (length pending ≠ 0%nat)
               then shown ++ [show_glyphs last pending] else shown)
      ∧ immediate_calls ops
        = omap (fun r => request_outcome draw fi fin r ≫= immediate_op) requests
      ∧ batched_glyphs ops
        = omap (fun r => request_outcome draw fi fin r ≫= batched_glyph) requests.
Proof.
  intros Hn Hs Hcr Hp Hp0 Hlen. split_and!.
  - intros run request op Hf Ho.
    destruct (draw_request_step draw style p p0 fi fin run request _ Hn Hs Hf Ho)
      as (h' & -> & Hf').
    by exists h'.
  - intros run request scaled_font g Hf Ho.
    destruct (draw_request_step draw style p p0 fi fin run request _ Hn Hs Hf Ho)
      as (h' & -> & Hf').
    exists h'. split; [|done]. cbn [push_outcome].
    by destruct (bool_decide (last_scaled_font run ≠ Some scaled_font)
                 || bool_decide (length (cr_glyphs run) = MAX_RUN_LENGTH)).
  - destruct (draw_text_internal_outcomes draw h requests style p p0 fi fin cairo)
      as (h' & Htext & _); try done.
    pose proof (push_outcomes_order (omap (request_outcome draw fi fin) requests)
                  None [] [] (outcomes_ok draw fi fin requests)) as Hord.
    destruct (foldl push_outcome (None, [], []) _) as [[last pending] ops].
    destruct Hord as [Hi Hb]. simpl in Hi, Hb.
    rewrite !omap_bind_outcome.
    eexists _, h', last, pending, ops.
    split; [exact Htext|]. split; [done|]. split; [done|].
    case_bool_decide as Hpending.
    + split.
      * rewrite immediate_calls_app, Hi.
        assert (immediate_calls [show_glyphs last pending] = []) as ->; [done|].
        by rewrite app_nil_r.
      * rewrite batched_glyphs_app, <- Hb.
        assert (batched_glyphs [show_glyphs last pending] = pending) as ->; [|done].
        unfold batched_glyphs. simpl. by rewrite app_nil_r.
    + split; [done|]. rewrite <- Hb.
      destruct pending; [by rewrite app_nil_r|]. simpl in Hpending. lia.
Qed.

End drawing.

(** ** The statements on the example font system *)


Lemma classify_single_glyph_witness :
  let info := example_font 1 in
  let shape := pango_layout_shape (layout_context (layout info))
                 (_vte_unistr_append_to_string 9%N "") in
  let uinfo := (font_info_get_unistr_info info 9).1 in
  (coverage uinfo = COVERAGE_USE_CAIRO_GLYPH
   ↔ ∃ item g scaled_font,
       runs (line0 shape) = [item] ∧ glyphs item = [g]
       ∧ glyph g <= 65535
       ∧ geometry_x_offset g = 0 ∧ geometry_y_offset g = 0
       ∧ unknown_glyphs_count shape = 0
       ∧ pango_cairo_font_get_scaled_font (analysis_font item) = Some scaled_font)
  ∧ (∀ item g scaled_font,
       runs (line0 shape) = [item] → glyphs item = [g] →
       glyph g <= 65535 →
       geometry_x_offset g = 0 → geometry_y_offset g = 0 →
       unknown_glyphs_count shape = 0 →
       pango_cairo_font_get_scaled_font (analysis_font item) = Some scaled_font →
       ufi uinfo = using_cairo_glyph scaled_font (glyph g))
  ∧ (has_unknown_chars uinfo = true ↔ unknown_glyphs_count shape ≠ 0)
  ∧ (has_unknown_chars uinfo = true →
     coverage uinfo = COVERAGE_USE_PANGO_GLYPH_STRING
     ∨ coverage uinfo = COVERAGE_USE_PANGO_LAYOUT_LINE).
Proof.
  apply (classify_single_glyph (example_font 1) 9).
  vm_compute. reflexivity.
Defined.

(** The character 9 of the example has no coverage in a new [font_info],
    is shaped to a single run of the single glyph 9 of a font with the
    scaled font 101, and gets that cairo glyph; the character U+200C is
    shaped to two glyphs and gets a glyph string. *)
Lemma classify_single_glyph_examples :
  let info := example_font 1 in
  coverage (lookup_unistr_info info 9) = COVERAGE_UNKNOWN
  ∧ ufi (font_info_get_unistr_info info 9).1 = using_cairo_glyph 101%N 9
  ∧ coverage (lookup_unistr_info info 8204) = COVERAGE_UNKNOWN
  ∧ coverage (font_info_get_unistr_info info 8204).1 = COVERAGE_USE_PANGO_GLYPH_STRING.
Proof. split_and!; vm_compute; reflexivity. Qed.

(** C4, as it was stated, fails: the character 127 of the example is shaped
    to a single run of a single glyph, of index 127, at offset zero, and no
    glyph is unknown; its font has no cairo scaled font, and the character
    gets a glyph string. *)
Lemma classify_single_glyph_counterexample :
  let info := example_font 1 in
  let shape := pango_layout_shape (layout_context (layout info))
                 (_vte_unistr_append_to_string 127%N "") in
  coverage (lookup_unistr_info info 127) = COVERAGE_UNKNOWN
  ∧ (∃ g, runs (line0 shape) = [ {| analysis_font := Some 0%N; glyphs := [g] |} ]
          ∧ glyph g = 127
          ∧ geometry_x_offset g = 0 ∧ geometry_y_offset g = 0)
  ∧ unknown_glyphs_count shape = 0
  ∧ coverage (font_info_get_unistr_info info 127).1 = COVERAGE_USE_PANGO_GLYPH_STRING.
Proof.
  split_and!; [vm_compute; reflexivity| |vm_compute; reflexivity..].
  eexists. split_and!; vm_compute; reflexivity.
Qed.

Lemma char_edges_witness :
  _vte_draw_get_char_edges example_draw example_heap 9472 2 0
  = Some (0, cell_width example_draw * 2, example_heap)
  ∧ (let w := width (font_info_get_unistr_info (example_font 1) 65).1 in
     let left :=
       if w <=? info_width (example_font 1) * 1 then
         border_left (char_spacing example_draw)
         + (if 1 =? 2 then border_right (char_spacing example_draw) else 0)
       else if w <=? cell_width example_draw * 1
            then (cell_width example_draw * 1 - w) / 2
       else 0 in
     ∃ h', _vte_draw_get_char_edges example_draw example_heap 65 1 0
           = Some (left, left + w, h')).
Proof.
  split.
  - apply (proj1 (char_edges example_draw example_heap 9472 2 0)). reflexivity.
  - apply (proj2 (char_edges example_draw example_heap 65 1 0) eq_refl
             1%N 1%N (example_font 1) (example_font 1));
      vm_compute; reflexivity.
Defined.

Lemma draw_char_has_char_witness :
  let request := example_request 1114111 20 in
  let has_char :=
    negb (has_unknown_chars
            (font_info_get_unistr_info (example_font 1) (req_c request)).1) in
  ∃ o h1 h2,
    request_outcome example_draw (example_font 1) (example_font 1) request = Some o
    ∧ _vte_draw_char example_draw example_heap request 0
      = Some (has_char, if has_char then [outcome_alone o] else [], h1)
    ∧ _vte_draw_text example_draw example_heap [request] 0
      = Some ([outcome_alone o], h2).
Proof.
  apply (draw_char_has_char example_draw example_heap (example_request 1114111 20)
           0 1 1 (example_font 1) (example_font 1) 1);
    vm_compute; reflexivity.
Defined.

Lemma single_glyph_batches_witness :
  let requests := replicate 150 (example_request 65 0) in
  ∃ batches h',
    _vte_draw_text_internal example_draw example_heap requests 0
    = Some (show_glyphs (Some 101%N) <$> batches, h')
    ∧ concat batches
      = request_glyph example_draw (example_font 1) (example_font 1) <$> requests
    ∧ length batches
      = ((length requests + (MAX_RUN_LENGTH - 1)) / MAX_RUN_LENGTH)%nat
    ∧ Forall (fun b => (1 <= length b <= MAX_RUN_LENGTH)%nat) batches
    ∧ (∀ i b, batches !! i = Some b → (S i < length batches)%nat →
              length b = MAX_RUN_LENGTH).
Proof.
  apply (single_glyph_batches example_draw example_heap
           (replicate 150 (example_request 65 0)) 0 1 1
           (example_font 1) (example_font 1) 1 101);
    [vm_compute; reflexivity..|].
  intros request Hin. apply elem_of_replicate in Hin as [-> _].
  split; [reflexivity|]. exists 65. vm_compute. reflexivity.
Defined.

Lemma pango_paths_keep_pending_witness :
  let requests :=
    [example_request 65 0; example_request 8204 10; example_request 66 20] in
  let fi := example_font 1 in
  (∀ run request op,
     fonts_as 1 1 fi fi (run_heap run) →
     request_outcome example_draw fi fi request = Some (immediate op) →
     ∃ h', draw_request example_draw 0 1 (Some run) request
           = Some {| last_scaled_font := last_scaled_font run;
                     cr_glyphs := cr_glyphs run;
                     canvas := canvas run ++ [op];
                     run_heap := h' |}
           ∧ fonts_as 1 1 fi fi h')
  ∧ (∀ run request scaled_font g,
       fonts_as 1 1 fi fi (run_heap run) →
       request_outcome example_draw fi fi request = Some (batched scaled_font g) →
       ∃ h', draw_request example_draw 0 1 (Some run) request
             = Some (if bool_decide (last_scaled_font run ≠ Some scaled_font)
                        || bool_decide (length (cr_glyphs run) = MAX_RUN_LENGTH)
                     then
                       {| last_scaled_font := Some scaled_font;
                          cr_glyphs := [g];
                          canvas :=
                            if bool_decide (length (cr_glyphs run) ≠ 0%nat)
                            then canvas run
                                 ++ [show_glyphs (last_scaled_font run) (cr_glyphs run)]
                            else canvas run;
                          run_heap := h' |}
                     else
                       {| last_scaled_font := last_scaled_font run;
                          cr_glyphs := cr_glyphs run ++ [g];
                          canvas := canvas run;
                          run_heap := h' |})
             ∧ fonts_as 1 1 fi fi h')
  ∧ ∃ ops h' last pending shown,
      _vte_draw_text_internal example_draw example_heap requests 0 = Some (ops, h')
      ∧ foldl push_outcome (None, [], [])
          (omap (request_outcome example_draw fi fi) requests)
        = (last, pending, shown)
      ∧ ops = (if bool_decide (length pending ≠ 0%nat)
               then shown ++ [show_glyphs last pending] else shown)
      ∧ immediate_calls ops
        = omap (fun r => request_outcome example_draw fi fi r ≫= immediate_op) requests
      ∧ batched_glyphs ops
        = omap (fun r => request_outcome example_draw fi fi r ≫= batched_glyph) requests.
Proof.
  apply (pango_paths_keep_pending example_draw example_heap
           [example_request 65 0; example_request 8204 10; example_request 66 20]
           0 1 1 (example_font 1) (example_font 1) 1);
    vm_compute; reflexivity.
Defined.

(** C1, as it was stated, fails: of the requests A, U+200C, B the first and
    the last have a cairo glyph of one scaled font and the second has a
    glyph string.  The glyph of A is pending when the second request comes,
    and it is not shown then: the glyph string reaches the canvas first,
    and one call of [cairo_show_glyphs] shows A and B after it. *)
Lemma pango_paths_flush_counterexample :
  let fi := example_font 1 in
  coverage (font_info_get_unistr_info fi 65).1 = COVERAGE_USE_CAIRO_GLYPH
  ∧ coverage (font_info_get_unistr_info fi 8204).1 = COVERAGE_USE_PANGO_GLYPH_STRING
  ∧ coverage (font_info_get_unistr_info fi 66).1 = COVERAGE_USE_CAIRO_GLYPH
  ∧ fst <$> _vte_draw_text_internal example_draw example_heap
              [example_request 65 0; example_request 8204 10; example_request 66 20] 0
    = Some [ show_glyph_string 10 15 (Some 1%N)
               [ {| glyph := 140; geometry_width := 10240;
                    geometry_x_offset := 0; geometry_y_offset := 0 |};
                 {| glyph := 140; geometry_width := 10240;
                    geometry_x_offset := 0; geometry_y_offset := 0 |} ];
             show_glyphs (Some 101%N)
               [ {| glyph_index_of := 65; glyph_x := 0; glyph_y := 15 |};
                 {| glyph_index_of := 66; glyph_x := 20; glyph_y := 15 |} ] ].
Proof. split_and!; vm_compute; reflexivity. Qed.

(** The limit of a batch is met when a glyph comes, not when the batch
    gets full: after [MAX_RUN_LENGTH] glyphs of one scaled font the batch is
    full and still pending, a glyph string that follows is drawn before it,
    and one more glyph of that font shows the full batch and is pending
    alone. *)
Lemma pango_paths_full_batch_example :
  let glyphs := (fun _ : nat => {| glyph_index_of := 65; glyph_x := 0; glyph_y := 15 |})
                <$> seq 0 MAX_RUN_LENGTH in
  let string := show_glyph_string 10 15 (Some 1%N)
                  [ {| glyph := 140; geometry_width := 10240;
                       geometry_x_offset := 0; geometry_y_offset := 0 |};
                    {| glyph := 140; geometry_width := 10240;
                       geometry_x_offset := 0; geometry_y_offset := 0 |} ] in
  fst <$> _vte_draw_text_internal example_draw example_heap
            (replicate MAX_RUN_LENGTH (example_request 65 0)
             ++ [example_request 8204 10]) 0
  = Some [string; show_glyphs (Some 101%N) glyphs]
  ∧ fst <$> _vte_draw_text_internal example_draw example_heap
              (replicate MAX_RUN_LENGTH (example_request 65 0)
               ++ [example_request 8204 10; example_request 66 20]) 0
    = Some [ string; show_glyphs (Some 101%N) glyphs;
             show_glyphs (Some 101%N)
               [ {| glyph_index_of := 66; glyph_x := 20; glyph_y := 15 |} ] ].
Proof. split; vm_compute; reflexivity. Qed.

(** ** The key of the font cache *)

Section cache_key.
Context `{Collaborators}.

Lemma double_equal_value a b :
  _vte_double_equal a b = true
  ↔ double_value a = double_value b ∧ is_Some (double_value a).
Proof.
  unfold _vte_double_equal, SFeqb, SFcompare.
  destruct a as [sa|sa| |sa ma ea], b as [sb|sb| |sb mb eb]; simpl.
  all: split; [intros Heq|intros [Heq [v Hs]]].
  all: try discriminate.
  all: try (split; [reflexivity|by eexists]).
  all: try reflexivity.
  all: try (by destruct sa).
  all: try (by destruct sb).
  - destruct sa, sb; try discriminate; (split; [reflexivity|by eexists]).
  - injection Heq as ->. by destruct sb.
  - assert (sa = sb ∧ ea = eb ∧ ma = mb) as (-> & -> & ->).
    { destruct sa, sb; try discriminate;
        destruct (ea ?= eb) eqn:Ee; try discriminate;
        apply Z.compare_eq in Ee;
        change (PosDef.Pos.compare_cont Eq ma mb) with (ma ?= mb)%positive in Heq;
        destruct (ma ?= mb)%positive eqn:Em; try discriminate;
        apply Pos.compare_eq in Em; done. }
    split; [reflexivity|by eexists].
  - injection Heq as -> -> ->.
    change (PosDef.Pos.compare_cont Eq mb mb) with (mb ?= mb)%positive.
    rewrite Z.compare_refl, Pos.compare_refl. by destruct sb.
Qed.

Lemma context_equal_fingerprint a b :
  context_equal a b = true
  ↔ fingerprint a = fingerprint b ∧ is_Some (fingerprint a).
Proof.
  unfold context_equal, fingerprint, pango_font_description_equal,
    cairo_font_options_equal.
  rewrite !andb_true_iff, double_equal_value, !Z.eqb_eq, bool_decide_eq_true.
  destruct (double_value (resolution a)) as [ra|],
    (double_value (resolution b)) as [rb|],
    (font_options a) as [oa|], (font_options b) as [ob|];
    simpl; rewrite ?bool_decide_eq_true.
  all: split; [intros [[[[[Hr Hs] Hd] Ho] Hl] Ht] | intros [Heq Hs]].
  all: try discriminate; try (destruct Hs as [? ?]; discriminate).
  - injection Hr as ->. rewrite Hd, Ho, Hl, Ht. split; [done|by eexists].
  - injection Heq as -> -> -> -> ->. split_and!; done.
Qed.

Lemma context_equal_sym a b : context_equal a b = context_equal b a.
Proof.
  apply eq_true_iff_eq. rewrite !context_equal_fingerprint.
  split; intros [Heq Hs]; (split; [done|congruence]).
Qed.

Lemma context_equal_trans a b c :
  context_equal a b = true → context_equal b c = true → context_equal a c = true.
Proof.
  rewrite !context_equal_fingerprint. intros [-> ?] [-> ?]. done.
Qed.

Lemma context_equal_refl_l a b : context_equal a b = true → context_equal a a = true.
Proof. rewrite !context_equal_fingerprint. by intros [_ ?]. Qed.

Lemma context_equal_refl_r a b : context_equal a b = true → context_equal b b = true.
Proof. rewrite context_equal_sym. apply context_equal_refl_l. Qed.

Lemma pango_units_double_value a b :
  double_value a = double_value b → is_Some (double_value a) →
  pango_units_from_double a = pango_units_from_double b.
Proof.
  destruct a, b; simpl; try done; intros [=]; by subst.
Qed.

(** Equal keys have equal hashes, as a [GHashTable] requires. *)
Lemma context_equal_hash a b :
  context_equal a b = true → context_hash a = context_hash b.
Proof.
  unfold context_equal, context_hash, pango_font_description_equal,
    cairo_font_options_equal.
  rewrite !andb_true_iff, double_equal_value, !Z.eqb_eq, bool_decide_eq_true.
  intros [[[[[Hv Hs] ->] Ho] ->] ->].
  rewrite (pango_units_double_value _ _ Hv Hs).
  destruct (font_options a), (font_options b); try done.
  apply bool_decide_eq_true in Ho. by subst.
Qed.

Lemma key_match_equal key node :
  key_match key node = context_equal node.1 key.
Proof.
  unfold key_match. destruct (context_equal node.1 key) eqn:E; [|apply andb_false_r].
  by rewrite (context_equal_hash _ _ E), Z.eqb_refl.
Qed.

(** Equal keys find the same node. *)
Lemma lookup_equal_keys t a b :
  context_equal a b = true → g_hash_table_lookup t a = g_hash_table_lookup t b.
Proof.
  intros Hab. unfold g_hash_table_lookup. f_equal.
  induction t as [|node t IH]; [done|]. simpl.
  rewrite !key_match_equal, IH.
  destruct (context_equal node.1 a) eqn:Ea, (context_equal node.1 b) eqn:Eb; try done.
  - by rewrite (context_equal_trans _ _ _ Ea Hab) in Eb.
  - rewrite context_equal_sym in Hab. by rewrite (context_equal_trans _ _ _ Eb Hab) in Ea.
Qed.

Lemma lookup_Some t key p :
  g_hash_table_lookup t key = Some p →
  ∃ k, (k, p) ∈ t ∧ context_equal k key = true.
Proof.
  unfold g_hash_table_lookup. induction t as [|[k q] t IH]; [done|]. simpl.
  rewrite key_match_equal. simpl.
  destruct (context_equal k key) eqn:E; simpl.
  - intros [= ->]. exists k. split; [by left|done].
  - intros Ht. destruct (IH Ht) as (k' & Hin & Hk). exists k'. split; [by right|done].
Qed.

Lemma lookup_None t key :
  g_hash_table_lookup t key = None
  ↔ ∀ k p, (k, p) ∈ t → context_equal k key = false.
Proof.
  unfold g_hash_table_lookup. induction t as [|[k q] t IH]; simpl.
  - split; [|done]. intros _ k p Hin. by apply elem_of_nil in Hin.
  - rewrite key_match_equal. simpl. destruct (context_equal k key) eqn:E; simpl.
    + split; [done|]. intros Hall. specialize (Hall k q (list_elem_of_here _ _)).
      congruence.
    + rewrite IH. split.
      * intros Hall k' p' Hin. apply elem_of_cons in Hin as [[= -> ->]|Hin]; eauto.
      * intros Hall k' p' Hin. apply (Hall k' p'). by right.
Qed.

(** In a table without equal keys a node is found by any key equal to
    its own. *)
Lemma lookup_unique t k p key :
  table_unique t → (k, p) ∈ t → context_equal k key = true →
  g_hash_table_lookup t key = Some p.
Proof.
  intros Hu Hin Hk.
  destruct (g_hash_table_lookup t key) as [q|] eqn:E.
  - destruct (lookup_Some _ _ _ E) as (k' & Hin' & Hk').
    f_equal. apply (Hu k' q k p Hin' Hin).
    rewrite (context_equal_sym k key) in Hk.
    by apply (context_equal_trans _ _ _ Hk').
  - rewrite lookup_None in E. by rewrite (E k p Hin) in Hk.
Qed.

Lemma insert_new t key value :
  g_hash_table_lookup t key = None →
  g_hash_table_insert t key value = t ++ [(key, value)].
Proof.
  rewrite lookup_None. induction t as [|[k q] t IH]; intros Hall; [done|].
  simpl. rewrite key_match_equal. simpl.
  rewrite (Hall k q) by by left. f_equal. apply IH.
  intros k' p' Hin. apply (Hall k' p'). by right.
Qed.

Lemma remove_absent t key :
  g_hash_table_lookup t key = None → g_hash_table_remove t key = t.
Proof.
  rewrite lookup_None. induction t as [|[k q] t IH]; intros Hall; [done|].
  simpl. rewrite key_match_equal. simpl.
  rewrite (Hall k q) by by left. f_equal. apply IH.
  intros k' p' Hin. apply (Hall k' p'). by right.
Qed.

(** Removal takes out the first node that holds the key. *)
Lemma remove_present t key p :
  g_hash_table_lookup t key = Some p →
  ∃ t1 k t2,
    t = t1 ++ (k, p) :: t2 ∧ context_equal k key = true
    ∧ g_hash_table_remove t key = t1 ++ t2.
Proof.
  unfold g_hash_table_lookup. induction t as [|[k q] t IH]; [done|]. simpl.
  rewrite key_match_equal. simpl. destruct (context_equal k key) eqn:E; simpl.
  - intros [= ->]. by exists [], k, t.
  - intros Ht. destruct (IH Ht) as (t1 & k' & t2 & -> & Hk & ->).
    by exists ((k, q) :: t1), k', t2.
Qed.

End cache_key.

(** ** The font cache *)

Section font_cache.
Context `{Collaborators}.

Local Arguments font_info_allocate : simpl never.

Lemma store_same_font info c u : same_font (unistr_info_store info c u) info.
Proof.
  unfold unistr_info_store. destruct (c <? 128)%N; repeat split; simpl.
  by rewrite length_insert.
Qed.

Lemma cache_ascii_cluster_same latin text glyph_string scaled_font info iter :
  same_font (cache_ascii_cluster latin text glyph_string scaled_font info iter) info.
Proof.
  unfold cache_ascii_cluster.
  repeat match goal with
         | |- same_font (if ?b then _ else _) _ => destruct b
         | |- same_font (match ?o with Some _ => _ | None => _ end) _ => destruct o
         | |- same_font ?x ?x => apply same_font_refl
         end.
  pose proof (find_unistr_info_same_font info (N_of_ascii a)) as Hf.
  destruct (font_info_find_unistr_info info (N_of_ascii a)) as [u i]. simpl in Hf.
  destruct (negb (bool_decide (coverage u = COVERAGE_UNKNOWN))); [done|].
  eapply same_font_trans; [apply store_same_font|].
  eapply same_font_trans; [|exact Hf]. by repeat split.
Qed.

Lemma font_info_cache_ascii_same info : same_font (font_info_cache_ascii info) info.
Proof.
  unfold font_info_cache_ascii.
  repeat match goal with
         | |- same_font (if ?b then _ else _) _ => destruct b
         | |- same_font (match ?o with Some _ => _ | None => _ end) _ => destruct o
         | |- same_font (match ?l with [] => _ | _ :: _ => _ end) _ => destruct l
         | |- same_font ?x ?x => apply same_font_refl
         end.
  match goal with |- same_font (foldl ?f info ?l) info => generalize l end.
  intros l. generalize info at 1 3.
  induction l as [|iter l IH] using rev_ind; intros i0; [apply same_font_refl|].
  rewrite foldl_app. simpl.
  eapply same_font_trans; [apply cache_ascii_cluster_same|apply IH].
Qed.

(** A [font_info] fresh from [font_info_allocate]: nobody references it,
    no timeout is pending, its layout is on the context it was made for
    and its direct array has its 128 slots. *)
Lemma font_info_allocate_fresh context :
  ref_count (font_info_allocate context) = 0
  ∧ destroy_timeout (font_info_allocate context) = 0
  ∧ layout_context (layout (font_info_allocate context)) = context
  ∧ length (ascii_unistr_info (font_info_allocate context)) = 128%nat.
Proof.
  unfold font_info_allocate, font_info_measure_font.
  match goal with
  | |- context [foldl ?f (1, 1) measured_chars] =>
      destruct (foldl f (1, 1) measured_chars) as [mw mh]
  end.
  match goal with
  | |- context [font_info_cache_ascii ?i] =>
      pose proof (font_info_cache_ascii_same i) as (Hr & Hd & Hl & _ & _ & _ & Hlen);
      destruct (font_info_cache_ascii i) as [rc dt lay asc oth iw ih ia gs cc]
  end.
  simpl in *.
  destruct (ih =? 0); simpl; destruct (_ =? 0); simpl; by rewrite ?Hlen.
Qed.

(** A world changes at one [font_info], in its life cycle only, and in
    its timeouts. *)
Lemma world_ok_lifecycle w w' p fi fi' :
  world_ok w →
  heap w !! p = Some fi →
  heap w' = <[p := fi']> (heap w) →
  font_info_for_context w' = font_info_for_context w →
  next_addr w' = next_addr w →
  layout_context (layout fi') = layout_context (layout fi) →
  0 <= ref_count fi' →
  0 < next_source_id w' →
  (∀ s, s ∈ sources w' → 0 < source_id s < next_source_id w') →
  NoDup (source_id <$> sources w') →
  (∀ s, s ∈ sources w' →
        if decide (source_data s = p)
        then destroy_timeout fi' = source_id s ∧ ref_count fi' = 0
        else s ∈ sources w) →
  world_ok w'.
Proof.
  intros Hok Hp Hheap Htab Haddr Hlay Href Hnext Hids Hnodup Hdata.
  assert (table w' = table w) as Ht by (unfold table; by rewrite Htab).
  split; rewrite ?Hheap, ?Ht, ?Haddr; try (by apply Hok); try done.
  - intros q fq. destruct (decide (q = p)) as [->|Hne].
    + intros _. by eapply ok_heap_bound.
    + rewrite lookup_insert_ne by done. by apply ok_heap_bound.
  - intros k q Hin Hk. destruct (ok_table_live w Hok k q Hin Hk) as (fq & Hq & Hl).
    destruct (decide (q = p)) as [->|Hne].
    + rewrite lookup_insert_eq. exists fi'. split; [done|]. congruence.
    + rewrite lookup_insert_ne by done. eauto.
  - intros q fq. destruct (decide (q = p)) as [->|Hne].
    + rewrite lookup_insert_eq. intros [= <-]. rewrite Hlay.
      by apply ok_registered.
    + rewrite lookup_insert_ne by done. by apply ok_registered.
  - intros q fq. destruct (decide (q = p)) as [->|Hne].
    + rewrite lookup_insert_eq. by intros [= <-].
    + rewrite lookup_insert_ne by done. by apply ok_ref_count.
  - intros s Hs. specialize (Hdata s Hs).
    destruct (decide (source_data s = p)) as [->|Hne].
    + rewrite lookup_insert_eq. by exists fi'.
    + rewrite lookup_insert_ne by done. by apply ok_source_data.
Qed.

Lemma NoDup_fmap_filter {A B} (f : A → B) (P : A → Prop) `{∀ x, Decision (P x)}
    (l : list A) :
  NoDup (f <$> l) → NoDup (f <$> filter P l).
Proof.
  induction l as [|x l IH]; [done|]. rewrite fmap_cons, NoDup_cons.
  intros [Hx Hl]. rewrite filter_cons. destruct (decide (P x)); [|by apply IH].
  rewrite fmap_cons, NoDup_cons. split; [|by apply IH].
  intros Hin. apply Hx. apply list_elem_of_fmap in Hin as (y & -> & Hy).
  apply list_elem_of_fmap. exists y. split; [done|].
  by apply list_elem_of_filter in Hy as [_ ?].
Qed.

Lemma filter_all {A} (P : A → Prop) `{∀ x, Decision (P x)} (l : list A) :
  Forall P l → filter P l = l.
Proof.
  induction 1 as [|x l Hx _ IH]; [done|].
  rewrite filter_cons_True by done. by f_equal.
Qed.

(** [font_info_reference] on a live [font_info]. *)
Lemma reference_ok w p fi :
  world_ok w → heap w !! p = Some fi →
  ∃ w',
    font_info_reference (Some p) w = Some w'
    ∧ world_ok w'
    ∧ heap w' = <[p := set_lifecycle fi (ref_count fi + 1) 0]> (heap w)
    ∧ font_info_for_context w' = font_info_for_context w
    ∧ next_addr w' = next_addr w
    ∧ next_source_id w' = next_source_id w
    ∧ now w' = now w
    ∧ sources w' = filter (fun s => source_id s ≠ destroy_timeout fi) (sources w).
Proof.
  intros Hok Hp. unfold font_info_reference. rewrite Hp. simpl.
  pose proof (ok_ref_count w Hok p fi Hp) as Href.
  rewrite (proj2 (Z.ltb_ge _ _) Href).
  assert (filter (fun s => source_id s ≠ 0) (sources w) = sources w) as Hfilter.
  { apply filter_all. apply Forall_forall. intros s Hs.
    pose proof (ok_source_ids w Hok s Hs). lia. }
  assert (∀ w',
    heap w' = <[p := set_lifecycle fi (ref_count fi + 1) 0]> (heap w) →
    font_info_for_context w' = font_info_for_context w →
    next_addr w' = next_addr w →
    next_source_id w' = next_source_id w →
    sources w' = filter (fun s => source_id s ≠ destroy_timeout fi) (sources w) →
    world_ok w') as Hgen.
  { intros w' Hh Ht Ha Hn Hs.
    apply (world_ok_lifecycle w w' p fi (set_lifecycle fi (ref_count fi + 1) 0));
      try done.
    - simpl. lia.
    - rewrite Hn. by apply ok_next_source.
    - intros s. rewrite Hs, Hn. intros Hin.
      apply list_elem_of_filter in Hin as [_ Hin]. by apply ok_source_ids.
    - rewrite Hs. apply NoDup_fmap_filter. by apply ok_source_nodup.
    - intros s. rewrite Hs. intros Hin.
      apply list_elem_of_filter in Hin as [Hid Hin].
      case_decide as Hd; [|done]. exfalso.
      destruct (ok_source_data w Hok s Hin) as (fs & Hfs & Hdt & _).
      rewrite Hd, Hp in Hfs. injection Hfs as <-. by apply Hid. }
  destruct (destroy_timeout fi =? 0) eqn:E; simpl.
  - apply Z.eqb_eq in E. eexists. split; [reflexivity|]. simpl.
    rewrite E, Hfilter. split_and!; try done.
    apply Hgen; simpl; try done; by rewrite E.
  - eexists. split; [reflexivity|]. simpl. split_and!; try done.
    by apply Hgen.
Qed.

Lemma world_ok_ext w w' :
  world_ok w →
  heap w' = heap w → table w' = table w → sources w' = sources w →
  next_addr w' = next_addr w → next_source_id w' = next_source_id w →
  world_ok w'.
Proof.
  intros Hok Hh Ht Hs Ha Hn.
  split; rewrite ?Hh, ?Ht, ?Hs, ?Ha, ?Hn; by apply Hok.
Qed.

(** [font_info_destroy] on a [font_info] that is referenced: the count
    goes down, and a timeout is added when it reaches zero. *)
Lemma destroy_ok w p fi :
  world_ok w → heap w !! p = Some fi → 0 < ref_count fi →
  ∃ w',
    font_info_destroy (Some p) w = Some w'
    ∧ world_ok w'
    ∧ font_info_for_context w' = font_info_for_context w
    ∧ next_addr w' = next_addr w
    ∧ now w' = now w
    ∧ if decide (ref_count fi = 1)
      then heap w' = <[p := set_lifecycle fi 0 (next_source_id w)]> (heap w)
           ∧ sources w'
             = sources w ++ [ {| source_id := next_source_id w;
                                 source_ready_time := now w + FONT_CACHE_TIMEOUT;
                                 source_data := p |} ]
           ∧ next_source_id w' = next_source_id w + 1
      else heap w'
           = <[p := set_lifecycle fi (ref_count fi - 1) (destroy_timeout fi)]> (heap w)
           ∧ sources w' = sources w
           ∧ next_source_id w' = next_source_id w.
Proof.
  intros Hok Hp Href. unfold font_info_destroy. rewrite Hp. simpl.
  rewrite (proj2 (Z.ltb_lt _ _) Href). simpl.
  assert (∀ s, s ∈ sources w → source_data s ≠ p) as Hnot.
  { intros s Hs Heq. destruct (ok_source_data w Hok s Hs) as (fs & Hfs & _ & Hz).
    rewrite Heq, Hp in Hfs. injection Hfs as <-. lia. }
  destruct (decide (ref_count fi = 1)) as [H1|H1].
  - rewrite H1. simpl. eexists. split; [reflexivity|]. simpl.
    rewrite insert_insert_eq. split_and!; try done.
    eapply (world_ok_lifecycle w _ p fi (set_lifecycle fi 0 (next_source_id w)));
      simpl; try done.
    + pose proof (ok_next_source w Hok). lia.
    + intros s Hs. apply elem_of_app in Hs as [Hs|Hs].
      * pose proof (ok_source_ids w Hok s Hs). lia.
      * apply list_elem_of_singleton in Hs as ->. simpl.
        pose proof (ok_next_source w Hok). lia.
    + rewrite fmap_app. apply NoDup_app. split_and!.
      * by apply ok_source_nodup.
      * intros id Hid Hid'. apply list_elem_of_singleton in Hid'. simpl in Hid'.
        apply list_elem_of_fmap in Hid as (s & -> & Hs).
        pose proof (ok_source_ids w Hok s Hs). lia.
      * apply NoDup_singleton.
    + intros s Hs. apply elem_of_app in Hs as [Hs|Hs].
      * rewrite decide_False by by apply Hnot. done.
      * apply list_elem_of_singleton in Hs as ->. simpl.
        by rewrite decide_True.
  - rewrite (proj2 (Z.eqb_neq _ _)) by lia. simpl.
    eexists. split; [reflexivity|]. simpl. split_and!; try done.
    eapply (world_ok_lifecycle w _ p fi
              (set_lifecycle fi (ref_count fi - 1) (destroy_timeout fi)));
      simpl; try done; try (by apply Hok).
    + lia.
    + intros s Hs. rewrite decide_False by by apply Hnot. done.
Qed.

(** [font_info_destroy] on a [font_info] that nobody references is the
    failed [g_return_if_fail]. *)
Lemma destroy_unreferenced w p fi :
  heap w !! p = Some fi → ref_count fi <= 0 →
  font_info_destroy (Some p) w = Some w.
Proof.
  intros Hp Href. unfold font_info_destroy. rewrite Hp. simpl.
  by rewrite (proj2 (Z.ltb_ge _ _) Href).
Qed.

Lemma table_set_table w :
  table (set_table w (Some (table w))) = table w.
Proof. done. Qed.

(** [font_info_find_for_context] when no node holds the key: a
    [font_info] is constructed at a fresh address and registered. *)
Lemma find_for_context_miss context w :
  world_ok w → g_hash_table_lookup (table w) context = None →
  ∃ w',
    font_info_find_for_context context w = Some (next_addr w, w')
    ∧ world_ok w'
    ∧ heap w' = <[next_addr w := set_lifecycle (font_info_allocate context) 1 0]> (heap w)
    ∧ table w' = table w ++ [(context, next_addr w)]
    ∧ next_addr w' = N.succ (next_addr w)
    ∧ sources w' = sources w
    ∧ next_source_id w' = next_source_id w
    ∧ now w' = now w.
Proof.
  intros Hok Hmiss. unfold font_info_find_for_context. fold (table w).
  rewrite Hmiss. unfold font_info_register.
  destruct (font_info_allocate_fresh context) as (Hrc & Hdt & Hctx & _).
  revert Hrc Hdt Hctx. generalize (font_info_allocate context).
  intros fa Hrc Hdt Hctx. cbn [heap]. rewrite lookup_insert_eq. cbn [mbind option_bind].
  rewrite Hdt. cbn [layout set_lifecycle layout_context]. rewrite Hctx.
  cbn [font_info_for_context set_table fmap option_fmap option_map].
  change (default [] (font_info_for_context w)) with (table w).
  rewrite (insert_new _ _ _ Hmiss).
  eexists. split; [reflexivity|].
  assert (heap w !! next_addr w = None) as Hfresh.
  { destruct (heap w !! next_addr w) as [f|] eqn:E; [|done].
    pose proof (ok_heap_bound w Hok _ _ E). lia. }
  split; [|by split_and!].
  split; unfold table; cbn [heap font_info_for_context sources next_addr
                             next_source_id now set_table default from_option id];
    fold (table w); try (by apply Hok).
  - intros q fq. destruct (decide (q = next_addr w)) as [->|Hne]; [lia|].
    rewrite lookup_insert_ne by done. intros Hq.
    pose proof (ok_heap_bound w Hok _ _ Hq). lia.
  - intros k q Hin. apply elem_of_app in Hin as [Hin|Hin].
    + pose proof (ok_table_bound w Hok _ _ Hin). lia.
    + apply list_elem_of_singleton in Hin as [= -> ->]. lia.
  - rewrite fmap_app. apply NoDup_app. split_and!.
    + by apply ok_table_addrs.
    + intros q Hq Hq'. apply list_elem_of_singleton in Hq'. simpl in Hq'. subst q.
      apply list_elem_of_fmap in Hq as ([k q] & Heq & Hin). simpl in Heq. subst q.
      pose proof (ok_table_bound w Hok _ _ Hin). lia.
    + apply NoDup_singleton.
  - rewrite lookup_None in Hmiss.
    intros k1 p1 k2 p2 H1 H2 Heq.
    apply elem_of_app in H1 as [H1|H1]; apply elem_of_app in H2 as [H2|H2].
    + by apply (ok_table_keys w Hok k1 p1 k2 p2).
    + apply list_elem_of_singleton in H2 as [= -> ->].
      by rewrite (Hmiss k1 p1 H1) in Heq.
    + apply list_elem_of_singleton in H1 as [= -> ->].
      rewrite context_equal_sym in Heq. by rewrite (Hmiss k2 p2 H2) in Heq.
    + apply list_elem_of_singleton in H1 as [= -> ->].
      by apply list_elem_of_singleton in H2 as [= -> ->].
  - intros k q Hin Hk. apply elem_of_app in Hin as [Hin|Hin].
    + destruct (ok_table_live w Hok k q Hin Hk) as (fq & Hq & Hl).
      exists fq. rewrite lookup_insert_ne; [done|].
      intros Heq. by rewrite <- Heq, Hfresh in Hq.
    + apply list_elem_of_singleton in Hin as [= -> ->].
      rewrite lookup_insert_eq. eexists. split; [done|]. done.
  - intros q fq. destruct (decide (q = next_addr w)) as [->|Hne].
    + rewrite lookup_insert_eq. intros [= <-]. cbn [layout set_lifecycle]. rewrite Hctx.
      apply elem_of_app. right. by apply list_elem_of_singleton.
    + rewrite lookup_insert_ne by done. intros Hq.
      apply elem_of_app. left. by apply ok_registered.
  - intros q fq. destruct (decide (q = next_addr w)) as [->|Hne].
    + rewrite lookup_insert_eq. by intros [= <-].
    + rewrite lookup_insert_ne by done. by apply ok_ref_count.
  - intros s Hs. destruct (ok_source_data w Hok s Hs) as (fs & Hfs & Hd).
    exists fs. rewrite lookup_insert_ne; [done|].
    intros Heq. by rewrite <- Heq, Hfresh in Hfs.
Qed.

(** [font_info_find_for_context] when a node holds the key: the
    [font_info] of the node is referenced once more. *)
Lemma find_for_context_hit context w p :
  world_ok w → g_hash_table_lookup (table w) context = Some p →
  ∃ fi w',
    heap w !! p = Some fi
    ∧ context_equal (layout_context (layout fi)) context = true
    ∧ font_info_find_for_context context w = Some (p, w')
    ∧ world_ok w'
    ∧ heap w' = <[p := set_lifecycle fi (ref_count fi + 1) 0]> (heap w)
    ∧ table w' = table w
    ∧ next_addr w' = next_addr w
    ∧ next_source_id w' = next_source_id w
    ∧ now w' = now w
    ∧ sources w' = filter (fun s => source_id s ≠ destroy_timeout fi) (sources w).
Proof.
  intros Hok Hhit. unfold font_info_find_for_context. fold (table w). rewrite Hhit.
  destruct (lookup_Some _ _ _ Hhit) as (k & Hin & Hk).
  destruct (ok_table_live w Hok k p Hin (context_equal_refl_l _ _ Hk))
    as (fi & Hp & Hl).
  destruct (reference_ok (set_table w (Some (table w))) p fi)
    as (w' & Hr & Hok' & Hh & Ht & Ha & Hn & Hnow & Hs); [|done|].
  { by apply (world_ok_ext w). }
  exists fi, w'. rewrite Hr. simpl. rewrite Hl. split_and!; try done.
  unfold table. by rewrite Ht.
Qed.

(** [font_info_find_for_context] always answers in a world that keeps the
    invariant, and the invariant is kept. *)
Lemma find_for_context_ok context w :
  world_ok w →
  ∃ p w', font_info_find_for_context context w = Some (p, w') ∧ world_ok w'.
Proof.
  intros Hok. destruct (g_hash_table_lookup (table w) context) as [p|] eqn:E.
  - destruct (find_for_context_hit context w p Hok E) as (fi & w' & _ & _ & ? & ? & _).
    by exists p, w'.
  - destruct (find_for_context_miss context w Hok E) as (w' & ? & ? & _).
    by exists (next_addr w), w'.
Qed.

Lemma table_entry_unique (t : list (PangoContext * N)) k1 k2 p :
  NoDup t.*2 → (k1, p) ∈ t → (k2, p) ∈ t → k1 = k2.
Proof.
  induction t as [|[k q] t IH]; simpl.
  - intros _ Hin. by apply elem_of_nil in Hin.
  - rewrite NoDup_cons. intros [Hq Hnd] H1 H2.
    apply elem_of_cons in H1 as [[= -> ->]|H1];
      apply elem_of_cons in H2 as [[= ->]|H2]; try done.
    + exfalso. apply Hq. apply list_elem_of_fmap. by exists (k2, q).
    + subst. exfalso. apply Hq. apply list_elem_of_fmap. by exists (k1, q).
    + by apply IH.
Qed.

(** The main loop dispatches one timeout of a world that keeps the
    invariant: the [font_info] of the timeout leaves the heap and the
    table, and nothing else changes. *)
Lemma dispatch_ok w s :
  world_ok w → s ∈ sources w →
  ∃ w',
    dispatch_source (Some w) s = Some w'
    ∧ world_ok w'
    ∧ heap w' = delete (source_data s) (heap w)
    ∧ sources w' = filter (fun s' => source_id s' ≠ source_id s) (sources w)
    ∧ (∀ key, g_hash_table_lookup (table w') key
              = g_hash_table_lookup (table w) key
                ≫= fun q => if decide (q = source_data s) then None else Some q)
    ∧ next_addr w' = next_addr w
    ∧ next_source_id w' = next_source_id w
    ∧ now w' = now w.
Proof.
  intros Hok Hs.
  destruct (ok_source_data w Hok s Hs) as (fi & Hp & Hdt & Hrc).
  set (p := source_data s) in *. set (k := layout_context (layout fi)).
  pose proof (ok_registered w Hok p fi Hp) as Hreg. fold k in Hreg.
  unfold dispatch_source, font_info_destroy_delayed, font_info_unregister,
    font_info_free, g_source_remove.
  cbn [mbind option_bind heap set_sources set_heap set_table font_info_for_context].
  fold p. rewrite Hp. cbn [mbind option_bind]. rewrite !lookup_insert_eq.
  cbn [mbind option_bind layout set_lifecycle]. fold k.
  assert (∃ t', (fun t => g_hash_table_remove t k) <$> font_info_for_context w
                = Some t' ∧ t' = g_hash_table_remove (table w) k) as (t' & Ht' & Hrem).
  { unfold table. destruct (font_info_for_context w) as [t|] eqn:E; simpl.
    - by eexists.
    - unfold table in Hreg. rewrite E in Hreg. by apply elem_of_nil in Hreg. }
  rewrite Ht'. cbn [heap set_table set_heap set_sources].
  rewrite lookup_insert_eq. cbn [mbind option_bind]. rewrite delete_insert_eq.
  eexists. split; [reflexivity|].
  cbn [heap sources next_addr next_source_id now set_table set_heap set_sources].
  assert (t' ⊆ table w ∧ NoDup t'.*2
          ∧ (∀ k2, (k2, p) ∈ t' → context_equal k2 k2 = false)
          ∧ (∀ k2 q, q ≠ p → (k2, q) ∈ table w → (k2, q) ∈ t')) as (Hsub & Hnd & Hgone & Hkept).
  { destruct (g_hash_table_lookup (table w) k) as [q|] eqn:E.
    - destruct (remove_present _ _ _ E) as (t1 & k' & t2 & Ht & Hk' & Hr).
      assert (q = p) as ->.
      { apply (ok_table_keys w Hok k' q k p); [|done|done].
        rewrite Ht. apply elem_of_app. right. by left. }
      pose proof (ok_table_addrs w Hok) as Hnd. rewrite Ht in Hnd.
      rewrite fmap_app, fmap_cons in Hnd. simpl in Hnd.
      apply NoDup_app in Hnd as (Hnd1 & Hdisj & Hnd2).
      apply NoDup_cons in Hnd2 as [Hp2 Hnd2].
      rewrite Hrem, Hr. split_and!.
      + rewrite Ht. intros e He. apply elem_of_app in He as [He|He];
          apply elem_of_app; [by left|right; by right].
      + rewrite fmap_app. apply NoDup_app. split_and!; [done| |done].
        intros x Hx Hx'. apply (Hdisj x Hx). by right.
      + intros k2 Hin. exfalso. apply elem_of_app in Hin as [Hin|Hin].
        * apply (Hdisj p); [|by left]. apply list_elem_of_fmap. by exists (k2, p).
        * apply Hp2. apply list_elem_of_fmap. by exists (k2, p).
      + intros k2 q Hq Hin. rewrite Ht in Hin.
        apply elem_of_app in Hin as [Hin|Hin]; apply elem_of_app; [by left|].
        apply elem_of_cons in Hin as [[= _ ->]|Hin]; [done|by right].
    - rewrite Hrem, (remove_absent _ _ E). split_and!; try done.
      + by apply ok_table_addrs.
      + intros k2 Hin.
        rewrite (table_entry_unique _ k2 k p (ok_table_addrs w Hok) Hin Hreg).
        rewrite lookup_None in E. by apply (E k p). }
  assert (table_unique t') as Huniq.
  { intros k1 p1 k2 p2 H1 H2. apply (ok_table_keys w Hok); by apply Hsub. }
  split; [|split_and!; try done].
  - split; unfold table; world_fields; fold (table w); try (by apply Hok).
    + intros q fq Hq. apply lookup_delete_Some in Hq as [_ Hq].
      by apply (ok_heap_bound w Hok q fq).
    + intros k2 q Hin. apply (ok_table_bound w Hok k2 q). by apply Hsub.
    + done.
    + done.
    + intros k2 q Hin Hk2.
      destruct (ok_table_live w Hok k2 q (Hsub _ Hin) Hk2) as (fq & Hq & Hl).
      exists fq. split; [|done]. rewrite lookup_delete_ne; [done|].
      intros <-. by rewrite (Hgone k2 Hin) in Hk2.
    + intros q fq Hq. apply lookup_delete_Some in Hq as [Hne Hq].
      apply Hkept; [done|]. by apply ok_registered.
    + intros q fq Hq. apply lookup_delete_Some in Hq as [_ Hq].
      by apply (ok_ref_count w Hok q fq).
    + intros s' Hs'. apply list_elem_of_filter in Hs' as [_ Hs'].
      by apply ok_source_ids.
    + apply NoDup_fmap_filter. by apply ok_source_nodup.
    + intros s' Hs'. apply list_elem_of_filter in Hs' as [Hid Hs'].
      destruct (ok_source_data w Hok s' Hs') as (fs & Hfs & Hdts & Hrcs).
      exists fs. split; [|done]. rewrite lookup_delete_ne; [done|].
      intros Heq. apply Hid. rewrite <- Hdts, <- Hdt. fold p in Heq.
      rewrite <- Heq in Hfs. congruence.
  - intros key. unfold table at 1. world_fields. fold (table w).
    destruct (g_hash_table_lookup (table w) key) as [q|] eqn:E; simpl.
    + destruct (lookup_Some _ _ _ E) as (k2 & Hin & Hk2).
      case_decide as Hq.
      * subst q. apply lookup_None. intros k3 q3 Hin3.
        destruct (context_equal k3 key) eqn:E3; [|done]. exfalso.
        assert (q3 = p) as ->.
        { apply (ok_table_keys w Hok k3 q3 k2 p); [by apply Hsub|done|].
          rewrite (context_equal_sym k2 key) in Hk2.
          by apply (context_equal_trans _ _ _ E3). }
        pose proof (Hgone k3 Hin3) as Hirr.
        by rewrite (context_equal_refl_l _ _ E3) in Hirr.
      * apply (lookup_unique _ k2); [done| |done]. by apply Hkept.
    + apply lookup_None. intros k3 q3 Hin3. rewrite lookup_None in E.
      apply (E k3 q3). by apply Hsub.
Qed.

(** The main loop dispatches a list of timeouts. *)
Lemma dispatch_all_ok (l : list GSource) w :
  world_ok w → NoDup (source_id <$> l) → (∀ s, s ∈ l → s ∈ sources w) →
  ∃ w',
    foldl dispatch_source (Some w) l = Some w'
    ∧ world_ok w'
    ∧ (∀ p, heap w' !! p
            = if decide (p ∈ source_data <$> l) then None else heap w !! p)
    ∧ sources w' = filter (fun s => source_id s ∉ source_id <$> l) (sources w)
    ∧ (∀ key, g_hash_table_lookup (table w') key
              = g_hash_table_lookup (table w) key
                ≫= fun q => if decide (q ∈ source_data <$> l) then None else Some q)
    ∧ next_addr w' = next_addr w
    ∧ next_source_id w' = next_source_id w
    ∧ now w' = now w.
Proof.
  revert w. induction l as [|s l IH]; intros w Hok Hnd Hin.
  - exists w. simpl. split_and!; try done.
    + symmetry. apply filter_all. apply Forall_forall. intros s _.
      apply not_elem_of_nil.
    + intros key. by destruct (g_hash_table_lookup (table w) key).
  - rewrite fmap_cons in Hnd. apply NoDup_cons in Hnd as [Hs Hnd].
    destruct (dispatch_ok w s Hok) as (w1 & Hd & Hok1 & Hh1 & Hs1 & Hl1 & Ha1 & Hn1 & Ht1).
    { apply Hin. by left. }
    destruct (IH w1 Hok1 Hnd) as (w' & Hf & Hok' & Hh & Hss & Hl & Ha & Hn & Ht).
    { intros s' Hs'. rewrite Hs1. apply list_elem_of_filter. split.
      - intros Heq. apply Hs. rewrite <- Heq. apply list_elem_of_fmap. by exists s'.
      - apply Hin. by right. }
    exists w'. cbn [foldl]. rewrite Hd. split_and!; try done; try congruence.
    + intros p. rewrite Hh, Hh1, fmap_cons.
      destruct (decide (p ∈ source_data <$> l)) as [Hp|Hp].
      * rewrite decide_True; [done|]. by right.
      * destruct (decide (p = source_data s)) as [->|Hne].
        -- rewrite decide_True by by left. apply lookup_delete_eq.
        -- rewrite decide_False.
           ++ by apply lookup_delete_ne.
           ++ intros Hc. apply elem_of_cons in Hc as [?|?]; done.
    + rewrite Hss, Hs1, list_filter_filter. apply list_filter_iff.
      intros s'. rewrite fmap_cons, not_elem_of_cons. tauto.
    + intros key. rewrite Hl, Hl1, fmap_cons.
      destruct (g_hash_table_lookup (table w) key) as [q|]; simpl; [|done].
      destruct (decide (q = source_data s)) as [->|Hne]; simpl.
      * rewrite decide_True; [done|]. by left.
      * destruct (decide (q ∈ source_data <$> l)) as [Hq|Hq].
        -- rewrite decide_True; [done|]. by right.
        -- rewrite decide_False; [done|].
           intros Hc. apply elem_of_cons in Hc as [?|?]; done.
Qed.

(** Time passes until [t]: every timeout due by then is dispatched. *)
Lemma main_loop_run_until_ok t w :
  world_ok w →
  let due := filter (fun s => source_ready_time s <= Z.max (now w) t) (sources w) in
  ∃ w',
    main_loop_run_until t w = Some w'
    ∧ world_ok w'
    ∧ (∀ p, heap w' !! p
            = if decide (p ∈ source_data <$> due) then None else heap w !! p)
    ∧ sources w' = filter (fun s => source_id s ∉ source_id <$> due) (sources w)
    ∧ (∀ key, g_hash_table_lookup (table w') key
              = g_hash_table_lookup (table w) key
                ≫= fun q => if decide (q ∈ source_data <$> due) then None else Some q)
    ∧ next_addr w' = next_addr w
    ∧ next_source_id w' = next_source_id w
    ∧ now w' = Z.max (now w) t.
Proof.
  intros Hok due. unfold main_loop_run_until.
  cbn [now sources set_now]. fold due.
  destruct (dispatch_all_ok due (set_now w (Z.max (now w) t)))
    as (w' & Hf & Hok' & Hh & Hs & Hl & Ha & Hn & Ht).
  - by apply (world_ok_ext w).
  - apply NoDup_fmap_filter. by apply ok_source_nodup.
  - intros s Hs. by apply list_elem_of_filter in Hs as [_ ?].
  - exists w'. split_and!; done.
Qed.

Lemma NoDup_fmap_same {A B} (f : A → B) (l : list A) x y :
  NoDup (f <$> l) → x ∈ l → y ∈ l → f x = f y → x = y.
Proof.
  induction l as [|z l IH]; [by intros _ ?%elem_of_nil|].
  rewrite fmap_cons, NoDup_cons. intros [Hz Hnd] Hx Hy Hf.
  apply elem_of_cons in Hx as [->|Hx]; apply elem_of_cons in Hy as [->|Hy];
    try done.
  - exfalso. apply Hz. rewrite Hf. apply list_elem_of_fmap. by exists y.
  - exfalso. apply Hz. rewrite <- Hf. apply list_elem_of_fmap. by exists x.
  - by apply IH.
Qed.

(** What [font_info_find_for_context] answers in a world that keeps the
    invariant: a live [font_info] that is referenced, has no timeout
    pending, and whose node holds the key or a key equal to it. *)
Lemma find_for_context_spec a w :
  world_ok w →
  ∃ p w1 fi k,
    font_info_find_for_context a w = Some (p, w1)
    ∧ world_ok w1
    ∧ heap w1 !! p = Some fi
    ∧ (k, p) ∈ table w1
    ∧ (k = a ∨ context_equal k a = true)
    ∧ destroy_timeout fi = 0
    ∧ 0 < ref_count fi.
Proof.
  intros Hok. destruct (g_hash_table_lookup (table w) a) as [p|] eqn:E.
  - destruct (find_for_context_hit a w p Hok E)
      as (fi & w1 & Hp & Hk & Hf & Hok1 & Hh & Ht & _).
    exists p, w1, (set_lifecycle fi (ref_count fi + 1) 0), (layout_context (layout fi)).
    split_and!; try done.
    + rewrite Hh. apply lookup_insert_eq.
    + rewrite Ht. by apply ok_registered.
    + by right.
    + simpl. pose proof (ok_ref_count w Hok p fi Hp). lia.
  - destruct (find_for_context_miss a w Hok E)
      as (w1 & Hf & Hok1 & Hh & Ht & _).
    exists (next_addr w), w1, (set_lifecycle (font_info_allocate a) 1 0), a.
    split_and!; try done.
    + rewrite Hh. apply lookup_insert_eq.
    + rewrite Ht. apply elem_of_app. right. by apply list_elem_of_singleton.
    + by left.
Qed.

Lemma key_equal_via a b k :
  context_equal a b = true → k = a ∨ context_equal k a = true →
  context_equal k b = true.
Proof.
  intros Hab [->|Hk]; [done|]. by apply (context_equal_trans _ _ _ Hk).
Qed.

Lemma destroy_preserves p w w' :
  world_ok w → font_info_destroy p w = Some w' → world_ok w'.
Proof.
  intros Hok. destruct p as [p|]; [|by intros [= <-]].
  destruct (heap w !! p) as [fi|] eqn:Hp.
  - destruct (decide (0 < ref_count fi)) as [Hr|Hr].
    + destruct (destroy_ok w p fi Hok Hp Hr) as (w2 & -> & Hok2 & _).
      by intros [= <-].
    + rewrite (destroy_unreferenced w p fi Hp) by lia. by intros [= <-].
  - unfold font_info_destroy. by rewrite Hp.
Qed.

(** C3.  In a world that keeps the invariant of the font cache, two calls
    of [font_info_find_for_context] with keys that [context_equal] finds
    equal answer the same [font_info], referenced once more by the second
    call, which constructs nothing; with keys it finds different they
    answer different ones.  No two live [font_info] have equal keys, and
    acquiring, releasing and the passing of time keep the invariant.
    [context_hash] and [context_equal] read the resolution, the font
    description, the font options, the language and the fontconfig
    timestamp of a context and nothing else: a context with these five
    fields has the same hash and compares alike. *)
Theorem one_cache_per_key (w : world) (a b : PangoContext) :
  world_ok w →
  (context_equal a b = true →
   ∃ p fi w1 w2,
     font_info_find_for_context a w = Some (p, w1)
     ∧ heap w1 !! p = Some fi
     ∧ font_info_find_for_context b w1 = Some (p, w2)
     ∧ heap w2 !! p = Some (set_lifecycle fi (ref_count fi + 1) 0)
     ∧ next_addr w2 = next_addr w1)
  ∧ (context_equal a b = false →
     ∃ p q w1 w2,
       font_info_find_for_context a w = Some (p, w1)
       ∧ font_info_find_for_context b w1 = Some (q, w2)
       ∧ p ≠ q)
  ∧ (∀ p q fp fq,
       heap w !! p = Some fp → heap w !! q = Some fq →
       context_equal (layout_context (layout fp)) (layout_context (layout fq)) = true →
       p = q)
  ∧ (∀ p w', font_info_find_for_context a w = Some (p, w') → world_ok w')
  ∧ (∀ p w', font_info_destroy p w = Some w' → world_ok w')
  ∧ (∀ t w', main_loop_run_until t w = Some w' → world_ok w')
  ∧ (∀ a',
       resolution a' = resolution a →
       font_description a' = font_description a →
       font_options a' = font_options a →
       language a' = language a →
       fontconfig_timestamp a' = fontconfig_timestamp a →
       context_hash a' = context_hash a
       ∧ ∀ c, context_equal a' c = context_equal a c
              ∧ context_equal c a' = context_equal c a).
Proof.
  intros Hok.
  destruct (find_for_context_spec a w Hok)
    as (p & w1 & fi & k & Hfa & Hok1 & Hp & Hin & Hk & Hdt & Hrc).
  split_and!.
  - intros Hab.
    pose proof (lookup_unique (table w1) k p b (ok_table_keys w1 Hok1) Hin
                  (key_equal_via a b k Hab Hk)) as Hl.
    destruct (find_for_context_hit b w1 p Hok1 Hl)
      as (fi' & w2 & Hp' & _ & Hfb & _ & Hh & _ & Ha & _).
    assert (fi' = fi) as -> by congruence.
    exists p, fi, w1, w2. split_and!; try done.
    rewrite Hh. apply lookup_insert_eq.
  - intros Hab.
    destruct (g_hash_table_lookup (table w1) b) as [q|] eqn:E.
    + destruct (find_for_context_hit b w1 q Hok1 E) as (fq & w2 & _ & _ & Hfb & _).
      exists p, q, w1, w2. split_and!; try done.
      intros <-. destruct (lookup_Some _ _ _ E) as (k' & Hin' & Hk').
      rewrite (table_entry_unique _ k' k p (ok_table_addrs w1 Hok1) Hin' Hin) in Hk'.
      destruct Hk as [->|Hk]; [congruence|].
      rewrite context_equal_sym in Hk.
      by rewrite (context_equal_trans _ _ _ Hk Hk') in Hab.
    + destruct (find_for_context_miss b w1 Hok1 E) as (w2 & Hfb & _).
      exists p, (next_addr w1), w1, w2. split_and!; try done.
      pose proof (ok_heap_bound w1 Hok1 p fi Hp). lia.
  - intros p1 p2 f1 f2 H1 H2 Heq.
    apply (ok_table_keys w Hok _ p1 _ p2 (ok_registered w Hok p1 f1 H1)
             (ok_registered w Hok p2 f2 H2) Heq).
  - intros p' w'. rewrite Hfa. by intros [= _ <-].
  - intros p' w'. by apply destroy_preserves.
  - intros t w'. destruct (main_loop_run_until_ok t w Hok) as (w2 & -> & Hok2 & _).
    by intros [= <-].
  - intros a' Hr Hd Ho Hl Ht. split; [|split].
    + unfold context_hash. by rewrite Hr, Hd, Ho, Hl, Ht.
    + unfold context_equal. by rewrite Hr, Hd, Ho, Hl, Ht.
    + unfold context_equal. by rewrite Hr, Hd, Ho, Hl, Ht.
Qed.

(** C2.  A [font_info] answered by [font_info_find_for_context] and held
    by one reference is released: it stays in the heap and in the table,
    and one timeout, due [FONT_CACHE_TIMEOUT] seconds later, is added for
    it.  When the main loop runs until a time before that, a lookup with
    an equal key answers the same [font_info], as it was before the
    release, constructs nothing, and the timeout is removed.  When the main
    loop runs until that time or later the timeout is gone, the
    [font_info] has left the heap and the table, and a lookup with an equal
    key answers a [font_info] constructed anew at another address. *)
Theorem release_then_reacquire (w w1 : world) (a a' : PangoContext) (p : N)
    (fi : font_info) :
  world_ok w →
  context_equal a a' = true →
  font_info_find_for_context a w = Some (p, w1) →
  heap w1 !! p = Some fi →
  ref_count fi = 1 →
  let timeout :=
    {| source_id := next_source_id w1;
       source_ready_time := now w1 + FONT_CACHE_TIMEOUT;
       source_data := p |} in
  ∃ w2,
    font_info_destroy (Some p) w1 = Some w2
    ∧ heap w2 !! p = Some (set_lifecycle fi 0 (source_id timeout))
    ∧ g_hash_table_lookup (table w2) a' = Some p
    ∧ sources w2 = sources w1 ++ [timeout]
    ∧ (∀ t, t < now w1 + FONT_CACHE_TIMEOUT →
         ∃ w3 w4,
           main_loop_run_until t w2 = Some w3
           ∧ timeout ∈ sources w3
           ∧ font_info_find_for_context a' w3 = Some (p, w4)
           ∧ heap w4 !! p = Some fi
           ∧ next_addr w4 = next_addr w2
           ∧ (∀ s, s ∈ sources w4 → source_id s ≠ source_id timeout))
    ∧ (∀ t, now w1 + FONT_CACHE_TIMEOUT <= t →
         ∃ w3 w4 q,
           main_loop_run_until t w2 = Some w3
           ∧ (∀ s, s ∈ sources w3 → source_id s ≠ source_id timeout)
           ∧ heap w3 !! p = None
           ∧ g_hash_table_lookup (table w3) a' = None
           ∧ font_info_find_for_context a' w3 = Some (q, w4)
           ∧ q ≠ p
           ∧ heap w4 !! q = Some (set_lifecycle (font_info_allocate a') 1 0)
           ∧ next_addr w4 = N.succ (next_addr w2)).
Proof.
  intros Hok Haa Hfa Hp Hrc timeout.
  destruct (find_for_context_spec a w Hok)
    as (p0 & w0 & fi0 & k & Hfa0 & Hok1 & Hp0 & Hin & Hk & Hdt & _).
  rewrite Hfa in Hfa0. injection Hfa0 as <- <-.
  assert (fi0 = fi) as -> by congruence.
  destruct (destroy_ok w1 p fi Hok1 Hp) as (w2 & Hd & Hok2 & Ht2 & Ha2 & Hn2 & Hcase);
    [lia|].
  rewrite decide_True in Hcase by done. destruct Hcase as (Hh2 & Hs2 & Hid2).
  assert (table w2 = table w1) as Htab2 by (unfold table; by rewrite Ht2).
  assert (g_hash_table_lookup (table w2) a' = Some p) as Hl2.
  { rewrite Htab2. apply (lookup_unique _ k); [by apply ok_table_keys|done|].
    by apply (key_equal_via a a'). }
  assert (heap w2 !! p = Some (set_lifecycle fi 0 (next_source_id w1))) as Hp2.
  { rewrite Hh2. apply lookup_insert_eq. }
  assert (timeout ∈ sources w2) as Hsrc.
  { rewrite Hs2. apply elem_of_app. right. by apply list_elem_of_singleton. }
  assert (∀ s, s ∈ sources w2 → source_data s = p → s = timeout) as Honly.
  { intros s Hs Hdata.
    apply (NoDup_fmap_same source_id (sources w2)); try done.
    - by apply ok_source_nodup.
    - destruct (ok_source_data w2 Hok2 s Hs) as (fs & Hfs & Hdts & _).
      rewrite Hdata, Hp2 in Hfs. injection Hfs as <-. simpl in Hdts. done. }
  exists w2. split_and!; try done.
  - intros t Ht.
    destruct (main_loop_run_until_ok t w2 Hok2)
      as (w3 & Hrun & Hok3 & Hh3 & Hs3 & Hl3 & Ha3 & Hn3 & Hnow3).
    assert (p ∉ source_data <$>
              filter (fun s => source_ready_time s <= Z.max (now w2) t) (sources w2))
      as Hnotdue.
    { intros Hdue. apply list_elem_of_fmap in Hdue as (s & Hdata & Hs).
      apply list_elem_of_filter in Hs as [Hready Hs].
      rewrite (Honly s Hs (eq_sym Hdata)) in Hready. simpl in Hready.
      unfold FONT_CACHE_TIMEOUT in *. lia. }
    assert (timeout ∈ sources w3) as Hsrc3.
    { rewrite Hs3. apply list_elem_of_filter. split; [|done].
      intros Hid. apply list_elem_of_fmap in Hid as (s & Hid & Hs).
      apply list_elem_of_filter in Hs as [Hready Hs].
      assert (s = timeout) as ->.
      { apply (NoDup_fmap_same source_id (sources w2)); try done.
        by apply ok_source_nodup. }
      simpl in Hready. unfold FONT_CACHE_TIMEOUT in *. lia. }
    assert (g_hash_table_lookup (table w3) a' = Some p) as Hl3'.
    { rewrite Hl3, Hl2. simpl. by rewrite decide_False. }
    destruct (find_for_context_hit a' w3 p Hok3 Hl3')
      as (fi3 & w4 & Hp3 & _ & Hf4 & _ & Hh4 & _ & Ha4 & _ & _ & Hs4).
    rewrite Hh3, decide_False, Hp2 in Hp3 by done. injection Hp3 as <-.
    exists w3, w4. split_and!; try done.
    + rewrite Hh4, lookup_insert_eq. f_equal.
      destruct fi. simpl in *. by subst.
    + congruence.
    + intros s. rewrite Hs4. intros Hs. by apply list_elem_of_filter in Hs as [? _].
  - intros t Ht.
    destruct (main_loop_run_until_ok t w2 Hok2)
      as (w3 & Hrun & Hok3 & Hh3 & Hs3 & Hl3 & Ha3 & Hn3 & Hnow3).
    assert (timeout ∈ filter (fun s => source_ready_time s <= Z.max (now w2) t)
                        (sources w2)) as Hdue.
    { apply list_elem_of_filter. split; [|done]. simpl. lia. }
    assert (p ∈ source_data <$>
              filter (fun s => source_ready_time s <= Z.max (now w2) t) (sources w2))
      as Hpdue.
    { apply list_elem_of_fmap. by exists timeout. }
    assert (g_hash_table_lookup (table w3) a' = None) as Hl3'.
    { rewrite Hl3, Hl2. simpl. by rewrite decide_True. }
    destruct (find_for_context_miss a' w3 Hok3 Hl3')
      as (w4 & Hf4 & _ & Hh4 & _ & Ha4 & _).
    exists w3, w4, (next_addr w3). split_and!; try done.
    + intros s. rewrite Hs3. intros Hs. apply list_elem_of_filter in Hs as [Hs _].
      intros Heq. apply Hs. rewrite Heq. apply list_elem_of_fmap. by exists timeout.
    + rewrite Hh3. by rewrite decide_True.
    + pose proof (ok_heap_bound w2 Hok2 p _ Hp2). lia.
    + rewrite Hh4. apply lookup_insert_eq.
    + congruence.
Qed.

Lemma context_equal_description a b :
  context_equal a b = true → font_description a = font_description b.
Proof.
  unfold context_equal, pango_font_description_equal. rewrite !andb_true_iff.
  intros [[[[_ Hd] _] _] _]. by apply bool_decide_eq_true in Hd.
Qed.

Lemma empty_world_ok : world_ok empty_world.
Proof.
  split; unfold table; simpl; try done.
  - intros k p Hin. by apply elem_of_nil in Hin.
  - constructor.
  - intros k1 p1 k2 p2 Hin. by apply elem_of_nil in Hin.
  - intros k p Hin. by apply elem_of_nil in Hin.
  - intros s Hin. by apply elem_of_nil in Hin.
  - constructor.
  - intros s Hin. by apply elem_of_nil in Hin.
Qed.

(** ** The style set *)

Lemma measured_width_positive (g h : ascii → Z) (l : list ascii) (mw mh : Z) :
  1 <= mw →
  1 <= (foldl (fun '(mw, mh) c => (Z.max mw (g c), Z.max mh (h c))) (mw, mh) l).1.
Proof.
  revert mw mh. induction l as [|c l IH]; intros mw mh Hmw; [done|].
  simpl. apply IH. lia.
Qed.

Lemma font_info_allocate_width context : 0 < info_width (font_info_allocate context).
Proof.
  unfold font_info_allocate, font_info_measure_font.
  match goal with
  | |- context [foldl ?f (1, 1) measured_chars] =>
      pose proof (measured_width_positive
                    (fun c => PANGO_PIXELS_CEIL
                                (rect_width (logical (pango_layout_shape context
                                                        (String c EmptyString)))))
                    (fun c => PANGO_PIXELS_CEIL
                                (rect_height (logical (pango_layout_shape context
                                                         (String c EmptyString)))))
                    measured_chars 1 1 ltac:(lia)) as Hmw;
      change (1 <= (foldl f (1, 1) measured_chars).1) in Hmw;
      destruct (foldl f (1, 1) measured_chars) as [mw mh]
  end.
  match goal with
  | |- context [font_info_cache_ascii ?i] =>
      pose proof (font_info_cache_ascii_same i) as (_ & _ & _ & Hw & _);
      destruct (font_info_cache_ascii i) as [rc dt lay asc oth iw ih ia gs cc]
  end.
  simpl in *.
  destruct (ih =? 0); simpl; destruct (_ =? 0); simpl; lia.
Qed.

Lemma heap_keeps_refl w : heap_keeps w w.
Proof. intros q f Hq. by exists f. Qed.

Lemma heap_keeps_trans w1 w2 w3 :
  heap_keeps w1 w2 → heap_keeps w2 w3 → heap_keeps w1 w3.
Proof.
  intros H12 H23 q f Hq.
  destruct (H12 q f Hq) as (f2 & Hq2 & Hw2 & Hh2 & Hl2).
  destruct (H23 q f2 Hq2) as (f3 & Hq3 & Hw3 & Hh3 & Hl3).
  exists f3. split_and!; congruence.
Qed.

Lemma lifecycle_keeps w w' p fi rc dt :
  heap w !! p = Some fi →
  heap w' = <[p := set_lifecycle fi rc dt]> (heap w) →
  heap_keeps w w' ∧ (widths_ok w → widths_ok w').
Proof.
  intros Hp Hh. split.
  - intros q f Hq. rewrite Hh. destruct (decide (q = p)) as [->|Hne].
    + rewrite lookup_insert_eq. eexists. split; [done|].
      assert (f = fi) as -> by congruence. done.
    + rewrite lookup_insert_ne by done. by exists f.
  - intros Hw q f. rewrite Hh. destruct (decide (q = p)) as [->|Hne].
    + rewrite lookup_insert_eq. intros [= <-]. simpl. by apply (Hw p).
    + rewrite lookup_insert_ne by done. apply Hw.
Qed.

(** [font_info_destroy] of a live [font_info] touches its life cycle only. *)
Lemma destroy_live w p fi :
  world_ok w → heap w !! p = Some fi →
  ∃ w',
    font_info_destroy (Some p) w = Some w'
    ∧ world_ok w' ∧ heap_keeps w w' ∧ (widths_ok w → widths_ok w').
Proof.
  intros Hok Hp. destruct (decide (0 < ref_count fi)) as [Hr|Hr].
  - destruct (destroy_ok w p fi Hok Hp Hr) as (w' & Hd & Hok' & _ & _ & _ & Hcase).
    exists w'. split; [done|]. split; [done|].
    destruct (decide (ref_count fi = 1)); destruct Hcase as (Hh & _);
      exact (lifecycle_keeps w w' p fi _ _ Hp Hh).
  - exists w. rewrite (destroy_unreferenced w p fi Hp) by lia.
    split_and!; try done. apply heap_keeps_refl.
Qed.

Lemma destroy_widths p w w' :
  world_ok w → widths_ok w → font_info_destroy p w = Some w' → widths_ok w'.
Proof.
  intros Hok Hw. destruct p as [p|]; [|by intros [= <-]].
  destruct (heap w !! p) as [fi|] eqn:Hp.
  - destruct (destroy_live w p fi Hok Hp) as (w2 & -> & _ & _ & Hw2).
    intros [= <-]. by apply Hw2.
  - unfold font_info_destroy. by rewrite Hp.
Qed.

(** What a lookup in the font cache answers and what it leaves as it
    was. *)
Lemma find_for_context_cases a w :
  world_ok w → widths_ok w →
  ∃ p w1 fi,
    font_info_find_for_context a w = Some (p, w1)
    ∧ world_ok w1 ∧ widths_ok w1
    ∧ heap w1 !! p = Some fi
    ∧ font_description (layout_context (layout fi)) = font_description a
    ∧ heap_keeps w w1
    ∧ (heap w !! p = None
       ∨ context_equal (layout_context (layout fi)) (layout_context (layout fi)) = true).
Proof.
  intros Hok Hw. destruct (g_hash_table_lookup (table w) a) as [p|] eqn:E.
  - destruct (find_for_context_hit a w p Hok E)
      as (fi & w1 & Hp & Hk & Hf & Hok1 & Hh & _).
    destruct (lifecycle_keeps w w1 p fi _ _ Hp Hh) as [Hkeep Hw1].
    exists p, w1, (set_lifecycle fi (ref_count fi + 1) 0).
    split_and!; try done.
    + by apply Hw1.
    + rewrite Hh. apply lookup_insert_eq.
    + simpl. by apply context_equal_description.
    + right. simpl. by apply (context_equal_refl_l _ a).
  - destruct (find_for_context_miss a w Hok E) as (w1 & Hf & Hok1 & Hh & _).
    assert (heap w !! next_addr w = None) as Hfresh.
    { destruct (heap w !! next_addr w) as [f|] eqn:Hf'; [|done].
      pose proof (ok_heap_bound w Hok _ _ Hf'). lia. }
    exists (next_addr w), w1, (set_lifecycle (font_info_allocate a) 1 0).
    split_and!; try done.
    + intros q f. rewrite Hh. destruct (decide (q = next_addr w)) as [->|Hne].
      * rewrite lookup_insert_eq. intros [= <-]. simpl.
        apply font_info_allocate_width.
      * rewrite lookup_insert_ne by done. apply Hw.
    + rewrite Hh. apply lookup_insert_eq.
    + simpl. by rewrite (proj1 (proj2 (proj2 (font_info_allocate_fresh a)))).
    + intros q f Hq. rewrite Hh, lookup_insert_ne by congruence. by exists f.
    + by left.
Qed.

Lemma create_for_widget_cases widget desc w :
  world_ok w → widths_ok w →
  ∃ p w1 fi,
    font_info_create_for_widget widget (Some desc) w = Some (p, w1)
    ∧ world_ok w1 ∧ widths_ok w1
    ∧ heap w1 !! p = Some fi
    ∧ font_description (layout_context (layout fi)) = desc
    ∧ heap_keeps w w1
    ∧ (heap w !! p = None
       ∨ context_equal (layout_context (layout fi)) (layout_context (layout fi)) = true).
Proof.
  unfold font_info_create_for_widget, font_info_create_for_screen,
    font_info_create_for_context.
  match goal with
  | |- context [font_info_find_for_context ?a w] =>
      apply (find_for_context_cases a w)
  end.
Qed.

Lemma free_font_ok draw w style draw' w' :
  world_ok w → widths_ok w →
  free_font (Some (draw, w)) style = Some (draw', w') →
  world_ok w' ∧ widths_ok w'
  ∧ length (fonts draw') = length (fonts draw) ∧ cr draw' = cr draw.
Proof.
  intros Hok Hw. unfold free_font. cbn [mbind option_bind].
  destruct (draw_font draw style) as [font|]; [|done]. cbn [mbind option_bind].
  destruct (if bool_decide (style = 0%nat) then Some None
            else draw_font draw (style - 1)) as [previous|]; [|done].
  cbn [mbind option_bind].
  destruct (bool_decide (font ≠ None)
            && (bool_decide (style = 0%nat) || bool_decide (font ≠ previous))).
  - destruct (font_info_destroy font w) as [w2|] eqn:Hd; [|done].
    cbn [mbind option_bind]. intros [= <- <-]. split_and!.
    + by apply (destroy_preserves font w).
    + by apply (destroy_widths font w).
    + simpl. apply length_insert.
    + done.
  - by intros [= <- <-].
Qed.

Lemma free_all_fonts_ok draw w draw' w' :
  world_ok w → widths_ok w →
  free_all_fonts draw w = Some (draw', w') →
  world_ok w' ∧ widths_ok w'
  ∧ length (fonts draw') = length (fonts draw) ∧ cr draw' = cr draw.
Proof.
  intros Hok Hw. unfold free_all_fonts. cbn [foldl].
  destruct (free_font (Some (draw, w)) 3) as [[d3 w3]|] eqn:E3; [|done].
  destruct (free_font_ok _ _ _ _ _ Hok Hw E3) as (Hok3 & Hw3 & Hl3 & Hc3).
  destruct (free_font (Some (d3, w3)) 2) as [[d2 w2]|] eqn:E2; [|done].
  destruct (free_font_ok _ _ _ _ _ Hok3 Hw3 E2) as (Hok2 & Hw2 & Hl2 & Hc2).
  destruct (free_font (Some (d2, w2)) 1) as [[d1 w1]|] eqn:E1; [|done].
  destruct (free_font_ok _ _ _ _ _ Hok2 Hw2 E1) as (Hok1 & Hw1 & Hl1 & Hc1).
  intros E0.
  destruct (free_font_ok _ _ _ _ _ Hok1 Hw1 E0) as (Hok0 & Hw0 & Hl0 & Hc0).
  split_and!; try done; congruence.
Qed.

Lemma bold_rejected_widths fn fb fn' fb' :
  info_width fn' = info_width fn → info_width fb' = info_width fb →
  bold_rejected fn' fb' = bold_rejected fn fb.
Proof. unfold bold_rejected. by intros -> ->. Qed.

(** The block that decides on a bold face, for slots that hold live
    [font_info]. *)
Lemma reject_bold_font_live normal draw w pn pb fn fb :
  world_ok w →
  draw_font draw normal = Some (Some pn) →
  draw_font draw (Nat.lor normal VTE_DRAW_BOLD) = Some (Some pb) →
  heap w !! pn = Some fn → heap w !! pb = Some fb →
  0 < info_width fn →
  ∃ w',
    (if bold_rejected fn fb then font_info_destroy (Some pb) w = Some w' else w' = w)
    ∧ world_ok w' ∧ heap_keeps w w'
    ∧ reject_bold_font normal (draw, w)
      = Some (if bold_rejected fn fb
              then set_fonts draw (<[Nat.lor normal VTE_DRAW_BOLD := Some pn]> (fonts draw))
              else draw, w').
Proof.
  intros Hok Hn Hb Hpn Hpb Hwidth. unfold reject_bold_font.
  rewrite Hb, Hn. cbn [mbind option_bind]. rewrite Hpb, Hpn. cbn [mbind option_bind].
  destruct (info_width fn =? 0) eqn:Hz; [lia|].
  change (10 <? Z.abs (Z.quot (info_width fb * 100) (info_width fn) - 100))
    with (bold_rejected fn fb).
  destruct (bold_rejected fn fb).
  - destruct (destroy_live w pb fb Hok Hpb) as (w' & Hd & Hok' & Hkeep & _).
    exists w'. rewrite Hd. by split_and!.
  - exists w. split_and!; try done. apply heap_keeps_refl.
Qed.

(** C7 (amended).  [_vte_draw_set_text_font], in a world that keeps the
    invariant of the font cache and on a [_vte_draw] of four slots, returns.
    It looks up the normal, bold, italic and bold italic descriptions, in
    this order.  For bold against normal, and then for bold italic against
    italic, when [abs (bold->width * 100 / normal->width - 100) > 10] it
    calls [font_info_destroy] on the bold [font_info] and stores the normal
    one in the bold slot; otherwise the bold slot keeps the [font_info] that
    the lookup of the bold description answered.  That one is another than
    the normal one when the description given is not bold already, and it is
    the normal one exactly when the keys of the two are equal. *)
Theorem bold_rejection (draw draw0 : _vte_draw) (w w0 : world) (widget : GtkWidget)
    (fontdesc : PangoFontDescription)
    (cell_width_scale cell_height_scale : spec_float) :
  world_ok w → widths_ok w → length (fonts draw) = 4%nat →
  free_all_fonts draw w = Some (draw0, w0) →
  let bolddesc := pango_font_description_set_weight fontdesc PANGO_WEIGHT_BOLD in
  let italicdesc := pango_font_description_set_style fontdesc PANGO_STYLE_ITALIC in
  let bolditalicdesc := pango_font_description_set_style bolddesc PANGO_STYLE_ITALIC in
  ∃ p_normal p_bold p_italic p_bolditalic w1 w2 w3 w4
    f_normal f_bold f_italic f_bolditalic w5 w6 draw',
    font_info_create_for_widget widget (Some fontdesc) w0 = Some (p_normal, w1)
    ∧ font_info_create_for_widget widget (Some bolddesc) w1 = Some (p_bold, w2)
    ∧ font_info_create_for_widget widget (Some italicdesc) w2 = Some (p_italic, w3)
    ∧ font_info_create_for_widget widget (Some bolditalicdesc) w3
      = Some (p_bolditalic, w4)
    ∧ heap w4 !! p_normal = Some f_normal
    ∧ heap w4 !! p_bold = Some f_bold
    ∧ heap w4 !! p_italic = Some f_italic
    ∧ heap w4 !! p_bolditalic = Some f_bolditalic
    ∧ (if bold_rejected f_normal f_bold
       then font_info_destroy (Some p_bold) w4 = Some w5 else w5 = w4)
    ∧ (if bold_rejected f_italic f_bolditalic
       then font_info_destroy (Some p_bolditalic) w5 = Some w6 else w6 = w5)
    ∧ _vte_draw_set_text_font draw widget fontdesc cell_width_scale
        cell_height_scale w = Some (draw', w6)
    ∧ fonts draw'
      = [ Some p_normal;
          Some (if bold_rejected f_normal f_bold then p_normal else p_bold);
          Some p_italic;
          Some (if bold_rejected f_italic f_bolditalic then p_italic
                else p_bolditalic) ]
    ∧ (p_bold = p_normal
       ↔ context_equal (layout_context (layout f_normal))
           (layout_context (layout f_bold)) = true)
    ∧ (p_bolditalic = p_italic
       ↔ context_equal (layout_context (layout f_italic))
           (layout_context (layout f_bolditalic)) = true)
    ∧ (weight fontdesc ≠ PANGO_WEIGHT_BOLD →
       p_bold ≠ p_normal ∧ p_bolditalic ≠ p_italic).
Proof.
  intros Hok Hw Hlen Hfree bolddesc italicdesc bolditalicdesc.
  destruct (free_all_fonts_ok _ _ _ _ Hok Hw Hfree) as (Hok0 & Hw0 & Hlen0 & _).
  rewrite Hlen in Hlen0.
  destruct (create_for_widget_cases widget fontdesc w0 Hok0 Hw0)
    as (pn & w1 & fn1 & Hc1 & Hok1 & Hw1 & Hn1 & Hdn & Hk1 & _).
  destruct (create_for_widget_cases widget bolddesc w1 Hok1 Hw1)
    as (pb & w2 & fb2 & Hc2 & Hok2 & Hw2 & Hb2 & Hdb & Hk2 & Hnew2).
  destruct (create_for_widget_cases widget italicdesc w2 Hok2 Hw2)
    as (pi & w3 & fi3 & Hc3 & Hok3 & Hw3 & Hi3 & Hdi & Hk3 & _).
  destruct (create_for_widget_cases widget bolditalicdesc w3 Hok3 Hw3)
    as (pbi & w4 & fbi & Hc4 & Hok4 & Hw4 & Hbi & Hdbi & Hk4 & Hnew4).
  destruct (Hk4 pi fi3 Hi3) as (fi & Hi & Hwi & _ & Hli).
  destruct (Hk3 pb fb2 Hb2) as (fb3 & Hb3 & Hwb3 & _ & Hlb3).
  destruct (Hk4 pb fb3 Hb3) as (fb & Hb & Hwb & _ & Hlb).
  destruct (Hk2 pn fn1 Hn1) as (fn2 & Hn2 & Hwn2 & _ & Hln2).
  destruct (Hk3 pn fn2 Hn2) as (fn3 & Hn3 & Hwn3 & _ & Hln3).
  destruct (Hk4 pn fn3 Hn3) as (fn & Hn & Hwn & _ & Hln).
  assert (layout fn = layout fn1) as Hlayn by congruence.
  assert (layout fb = layout fb2) as Hlayb by congruence.
  assert (pb = pn
          ↔ context_equal (layout_context (layout fn)) (layout_context (layout fb))
            = true) as Hbold.
  { split.
    - intros ->. assert (fb = fn) as -> by congruence.
      destruct Hnew2 as [Hnone|Hrefl]; [congruence|].
      by rewrite Hlayb.
    - intros Heq. symmetry.
      exact (ok_table_keys w4 Hok4 _ pn _ pb (ok_registered w4 Hok4 pn fn Hn)
               (ok_registered w4 Hok4 pb fb Hb) Heq). }
  assert (pbi = pi
          ↔ context_equal (layout_context (layout fi)) (layout_context (layout fbi))
            = true) as Hbolditalic.
  { split.
    - intros ->. assert (fbi = fi) as -> by congruence.
      destruct Hnew4 as [Hnone|Hrefl]; [congruence|done].
    - intros Heq. symmetry.
      exact (ok_table_keys w4 Hok4 _ pi _ pbi (ok_registered w4 Hok4 pi fi Hi)
               (ok_registered w4 Hok4 pbi fbi Hbi) Heq). }
  destruct draw0 as [fs0 cw0 ch0 cs0 cr0 us0]. simpl in Hlen0.
  destruct fs0 as [|s0 [|s1 [|s2 [|s3 [|]]]]]; try discriminate Hlen0.
  set (draw4 := {| fonts := [Some pn; Some pb; Some pi; Some pbi];
                   cell_width := cw0; cell_height := ch0; char_spacing := cs0;
                   cr := cr0; undercurl_surface := us0 |}).
  destruct (reject_bold_font_live VTE_DRAW_NORMAL draw4 w4 pn pb fn fb Hok4
              eq_refl eq_refl Hn Hb (Hw4 pn fn Hn))
    as (w5 & Hd5 & Hok5 & Hk5 & Hr5).
  destruct (Hk5 pi fi Hi) as (fi5 & Hi5 & Hwi5 & _).
  destruct (Hk5 pbi fbi Hbi) as (fbi5 & Hbi5 & Hwbi5 & _).
  destruct (Hk5 pn fn Hn) as (fn5 & Hn5 & Hwn5 & _).
  set (draw5 := if bold_rejected fn fb
                then set_fonts draw4
                       (<[Nat.lor VTE_DRAW_NORMAL VTE_DRAW_BOLD := Some pn]> (fonts draw4))
                else draw4) in Hr5.
  assert (fonts draw5
          = [Some pn; Some (if bold_rejected fn fb then pn else pb); Some pi; Some pbi]
          ∧ cr draw5 = cr0) as [Hf5 Hcr5].
  { unfold draw5. by destruct (bold_rejected fn fb). }
  assert (0 < info_width fi5) as Hpos5.
  { rewrite Hwi5. by apply (Hw4 pi). }
  destruct (reject_bold_font_live VTE_DRAW_ITALIC draw5 w5 pi pbi fi5 fbi5 Hok5)
    as (w6 & Hd6 & Hok6 & Hk6 & Hr6); try done.
  { unfold draw_font. by rewrite Hf5. }
  { unfold draw_font. by rewrite Hf5. }
  rewrite (bold_rejected_widths fi fbi fi5 fbi5 Hwi5 Hwbi5) in Hd6, Hr6.
  set (draw6 := if bold_rejected fi fbi
                then set_fonts draw5
                       (<[Nat.lor VTE_DRAW_ITALIC VTE_DRAW_BOLD := Some pi]> (fonts draw5))
                else draw5) in Hr6.
  assert (fonts draw6
          = [Some pn; Some (if bold_rejected fn fb then pn else pb); Some pi;
             Some (if bold_rejected fi fbi then pi else pbi)]
          ∧ cr draw6 = cr0) as [Hf6 Hcr6].
  { unfold draw6. destruct (bold_rejected fi fbi); [|done].
    simpl. by rewrite Hf5. }
  destruct (Hk6 pn fn5 Hn5) as (fn6 & Hn6 & Hwn6 & Hhn6 & _).
  set (cell_width := int_times_double (info_width fn6) cell_width_scale).
  set (cell_height := int_times_double (info_height fn6) cell_height_scale).
  exists pn, pb, pi, pbi, w1, w2, w3, w4, fn, fb, fi, fbi, w5, w6,
    {| fonts := fonts draw6; cell_width := cell_width; cell_height := cell_height;
       char_spacing :=
         {| border_left := to_gint16 (Z.quot (cell_width - info_width fn6) 2);
            border_right := to_gint16 (Z.quot (cell_width - info_width fn6 + 1) 2);
            border_top := to_gint16 (Z.quot (cell_height - info_height fn6 + 1) 2);
            border_bottom := to_gint16 (Z.quot (cell_height - info_height fn6) 2) |};
       cr := cr draw6; undercurl_surface := None |}.
  split_and!; try done.
  - unfold _vte_draw_set_text_font. rewrite Hfree. cbn [mbind option_bind].
    fold bolddesc. fold bolditalicdesc. fold italicdesc.
    rewrite Hc1. cbn [mbind option_bind fonts set_fonts].
    rewrite Hc2. cbn [mbind option_bind fonts set_fonts].
    rewrite Hc3. cbn [mbind option_bind fonts set_fonts].
    rewrite Hc4. cbn [mbind option_bind fonts set_fonts].
    change (set_fonts _ _) with draw4.
    rewrite Hr5. cbn [mbind option_bind].
    rewrite Hr6. cbn [mbind option_bind].
    unfold draw_font. rewrite Hf6.
    change (mjoin (_ !! VTE_DRAW_NORMAL)) with (Some pn).
    cbn [mbind option_bind]. rewrite Hn6. cbn [mbind option_bind].
    reflexivity.
  - intros Hweight.
    assert (fontdesc ≠ bolddesc) as Hdesc.
    { intros Heq. apply Hweight. by rewrite Heq. }
    split.
    + intros Heq. apply Hbold in Heq. apply context_equal_description in Heq.
      rewrite Hlayn, Hlayb in Heq. congruence.
    + intros Heq. apply Hbolditalic in Heq. apply context_equal_description in Heq.
      rewrite Hli, Hdi, Hdbi in Heq. apply Hweight.
      unfold italicdesc, bolditalicdesc in Heq.
      by injection Heq.
Qed.

Lemma empty_world_widths : widths_ok empty_world.
Proof. intros p fi Hp. done. Qed.

End font_cache.

(** ** The font cache and the style set on the example font system *)

Lemma one_cache_per_key_witness :
  (∃ p fi w1 w2,
     font_info_find_for_context example_key empty_world = Some (p, w1)
     ∧ heap w1 !! p = Some fi
     ∧ font_info_find_for_context example_key w1 = Some (p, w2)
     ∧ heap w2 !! p = Some (set_lifecycle fi (ref_count fi + 1) 0)
     ∧ next_addr w2 = next_addr w1)
  ∧ (∃ p q w1 w2,
       font_info_find_for_context example_key empty_world = Some (p, w1)
       ∧ font_info_find_for_context example_bold_key w1 = Some (q, w2)
       ∧ p ≠ q).
Proof.
  split.
  - apply (proj1 (one_cache_per_key empty_world example_key example_key
                    empty_world_ok)).
    vm_compute. reflexivity.
  - apply (proj1 (proj2 (one_cache_per_key empty_world example_key example_bold_key
                           empty_world_ok))).
    vm_compute. reflexivity.
Defined.

Lemma release_then_reacquire_witness :
  ∃ w2,
    font_info_destroy (Some 1%N) example_acquired = Some w2
    ∧ heap w2 !! 1%N = Some (set_lifecycle (heap_font example_acquired 1) 0 1)
    ∧ g_hash_table_lookup (table w2) example_key = Some 1%N
    ∧ sources w2
      = sources example_acquired
        ++ [ {| source_id := 1; source_ready_time := 30; source_data := 1 |} ]
    ∧ (∀ t, t < now example_acquired + FONT_CACHE_TIMEOUT →
         ∃ w3 w4,
           main_loop_run_until t w2 = Some w3
           ∧ {| source_id := 1; source_ready_time := 30; source_data := 1 |}
               ∈ sources w3
           ∧ font_info_find_for_context example_key w3 = Some (1%N, w4)
           ∧ heap w4 !! 1%N = Some (heap_font example_acquired 1)
           ∧ next_addr w4 = next_addr w2
           ∧ (∀ s, s ∈ sources w4 → source_id s ≠ 1))
    ∧ (∀ t, now example_acquired + FONT_CACHE_TIMEOUT <= t →
         ∃ w3 w4 q,
           main_loop_run_until t w2 = Some w3
           ∧ (∀ s, s ∈ sources w3 → source_id s ≠ 1)
           ∧ heap w3 !! 1%N = None
           ∧ g_hash_table_lookup (table w3) example_key = None
           ∧ font_info_find_for_context example_key w3 = Some (q, w4)
           ∧ q ≠ 1%N
           ∧ heap w4 !! q = Some (set_lifecycle (font_info_allocate example_key) 1 0)
           ∧ next_addr w4 = N.succ (next_addr w2)).
Proof.
  apply (release_then_reacquire empty_world example_acquired example_key example_key
           1 (heap_font example_acquired 1));
    [exact empty_world_ok | vm_compute; reflexivity..].
Defined.

Lemma bold_rejection_witness :
  let fontdesc := example_wide_fontdesc in
  let bolddesc := pango_font_description_set_weight fontdesc PANGO_WEIGHT_BOLD in
  let italicdesc := pango_font_description_set_style fontdesc PANGO_STYLE_ITALIC in
  let bolditalicdesc := pango_font_description_set_style bolddesc PANGO_STYLE_ITALIC in
  ∃ p_normal p_bold p_italic p_bolditalic w1 w2 w3 w4
    f_normal f_bold f_italic f_bolditalic w5 w6 draw',
    font_info_create_for_widget example_widget (Some fontdesc) empty_world
    = Some (p_normal, w1)
    ∧ font_info_create_for_widget example_widget (Some bolddesc) w1 = Some (p_bold, w2)
    ∧ font_info_create_for_widget example_widget (Some italicdesc) w2
      = Some (p_italic, w3)
    ∧ font_info_create_for_widget example_widget (Some bolditalicdesc) w3
      = Some (p_bolditalic, w4)
    ∧ heap w4 !! p_normal = Some f_normal
    ∧ heap w4 !! p_bold = Some f_bold
    ∧ heap w4 !! p_italic = Some f_italic
    ∧ heap w4 !! p_bolditalic = Some f_bolditalic
    ∧ (if bold_rejected f_normal f_bold
       then font_info_destroy (Some p_bold) w4 = Some w5 else w5 = w4)
    ∧ (if bold_rejected f_italic f_bolditalic
       then font_info_destroy (Some p_bolditalic) w5 = Some w6 else w6 = w5)
    ∧ _vte_draw_set_text_font _vte_draw_new example_widget fontdesc
        (int_to_double 1) (int_to_double 1) empty_world = Some (draw', w6)
    ∧ fonts draw'
      = [ Some p_normal;
          Some (if bold_rejected f_normal f_bold then p_normal else p_bold);
          Some p_italic;
          Some (if bold_rejected f_italic f_bolditalic then p_italic
                else p_bolditalic) ]
    ∧ (p_bold = p_normal
       ↔ context_equal (layout_context (layout f_normal))
           (layout_context (layout f_bold)) = true)
    ∧ (p_bolditalic = p_italic
       ↔ context_equal (layout_context (layout f_italic))
           (layout_context (layout f_bolditalic)) = true)
    ∧ (weight fontdesc ≠ PANGO_WEIGHT_BOLD →
       p_bold ≠ p_normal ∧ p_bolditalic ≠ p_italic).
Proof.
  apply (bold_rejection _vte_draw_new _vte_draw_new empty_world empty_world
           example_widget example_wide_fontdesc (int_to_double 1) (int_to_double 1)
           empty_world_ok empty_world_widths);
    vm_compute; reflexivity.
Defined.

(** The bold face of the example family Wide is a fifth wider than the
    normal face: both bold slots get the [font_info] of their normal
    slots, and the bold ones wait for their timeouts. *)
Lemma bold_rejection_wide :
  ∃ draw w,
    example_set_font example_wide_fontdesc = Some (draw, w)
    ∧ fonts draw = [Some 1%N; Some 1%N; Some 3%N; Some 3%N]
    ∧ bold_rejected (heap_font w 1) (heap_font w 2) = true
    ∧ bold_rejected (heap_font w 3) (heap_font w 4) = true
    ∧ ref_count <$> heap w !! 2%N = Some 0
    ∧ ref_count <$> heap w !! 4%N = Some 0
    ∧ source_data <$> sources w = [2%N; 4%N].
Proof.
  exists (built_draw (example_set_font example_wide_fontdesc)),
    (built_world (example_set_font example_wide_fontdesc)).
  split_and!; vm_compute; reflexivity.
Qed.

(** C7, as it was stated, fails: for a description that is bold already
    the lookups of the normal and of the bold description answer one
    [font_info]; the ratio of its width to itself is 100, nothing is
    rejected, and the normal and the bold slot hold the same [font_info],
    as the italic and the bold italic slot do. *)
Lemma bold_slots_shared_counterexample :
  ∃ draw w p f,
    _vte_draw_set_text_font _vte_draw_new example_widget example_bold_fontdesc
      (int_to_double 1) (int_to_double 1) empty_world = Some (draw, w)
    ∧ draw_font draw VTE_DRAW_NORMAL = Some (Some p)
    ∧ draw_font draw VTE_DRAW_BOLD = Some (Some p)
    ∧ heap w !! p = Some f
    ∧ Z.quot (info_width f * 100) (info_width f) = 100
    ∧ bold_rejected f f = false.
Proof.
  exists (built_draw example_built_bold), (built_world example_built_bold), 1%N,
    (heap_font (built_world example_built_bold) 1).
  split_and!; vm_compute; reflexivity.
Qed.

(** C8.  The loop of [_vte_draw_free] and [_vte_draw_set_text_font] skips
    a slot that holds the [font_info] of the slot before it.  For a
    description that is bold already the normal and the bold slot hold one
    [font_info] and the italic and the bold italic slot another, each looked
    up twice and referenced twice.  [_vte_draw_free] calls
    [font_info_destroy] once for each: each keeps one reference that nobody
    holds, no timeout is added, and whatever time passes both stay in the
    heap. *)
Theorem teardown_leaks_shared_font :
  ∃ draw w f_normal f_italic,
    _vte_draw_set_text_font _vte_draw_new example_widget example_bold_fontdesc
      (int_to_double 1) (int_to_double 1) empty_world = Some (draw, w)
    ∧ fonts draw = [Some 1%N; Some 1%N; Some 2%N; Some 2%N]
    ∧ heap w !! 1%N = Some f_normal ∧ ref_count f_normal = 2
    ∧ heap w !! 2%N = Some f_italic ∧ ref_count f_italic = 2
    ∧ sources w = []
    ∧ ∃ w',
        _vte_draw_free draw w = Some w'
        ∧ heap w' !! 1%N = Some (set_lifecycle f_normal 1 0)
        ∧ heap w' !! 2%N = Some (set_lifecycle f_italic 1 0)
        ∧ sources w' = []
        ∧ ∀ t, ∃ w'', main_loop_run_until t w' = Some w'' ∧ heap w'' = heap w'.
Proof.
  exists (built_draw example_built_bold), (built_world example_built_bold),
    (heap_font (built_world example_built_bold) 1),
    (heap_font (built_world example_built_bold) 2).
  split_and!; [vm_compute; reflexivity..|].
  exists example_freed_bold.
  split_and!; [vm_compute; reflexivity..|].
  intros t. exists (set_now example_freed_bold (Z.max (now example_freed_bold) t)).
  split; reflexivity.
Qed.

(** For a description that is italic already the slots hold two
    [font_info] in turn, each referenced twice, and no slot holds the
    [font_info] of the slot before it: [_vte_draw_free] calls
    [font_info_destroy] twice for each, and both wait for their timeouts. *)
Lemma teardown_destroys_shared_font_twice :
  ∃ draw w w',
    _vte_draw_set_text_font _vte_draw_new example_widget example_italic_fontdesc
      (int_to_double 1) (int_to_double 1) empty_world = Some (draw, w)
    ∧ fonts draw = [Some 1%N; Some 2%N; Some 1%N; Some 2%N]
    ∧ ref_count <$> heap w !! 1%N = Some 2
    ∧ ref_count <$> heap w !! 2%N = Some 2
    ∧ _vte_draw_free draw w = Some w'
    ∧ ref_count <$> heap w' !! 1%N = Some 0
    ∧ ref_count <$> heap w' !! 2%N = Some 0
    ∧ source_data <$> sources w' = [2%N; 1%N].
Proof.
  exists (built_draw example_built_italic), (built_world example_built_italic),
    example_freed_italic.
  split_and!; vm_compute; reflexivity.
Qed.

(** The same loop at the head of [_vte_draw_set_text_font]: when the
    [_vte_draw] of the bold description gets another font, the two
    [font_info] it held keep one reference each and no timeout waits for
    them. *)
Lemma replacement_leaks_shared_font :
  ∃ draw w,
    _vte_draw_set_text_font (built_draw example_built_bold) example_widget
      example_wide_fontdesc (int_to_double 1) (int_to_double 1)
      (built_world example_built_bold) = Some (draw, w)
    ∧ fonts draw = [Some 3%N; Some 3%N; Some 5%N; Some 5%N]
    ∧ ref_count <$> heap w !! 1%N = Some 1
    ∧ ref_count <$> heap w !! 2%N = Some 1
    ∧ source_data <$> sources w = [4%N; 6%N].
Proof.
  exists (built_draw example_rebuilt_bold), (built_world example_rebuilt_bold).
  split_and!; vm_compute; reflexivity.
Qed.

(** When the bold slots got the [font_info] of their normal slots by a
    rejection, which released the bold ones, the loop releases what the
    slots hold once, and that is every reference the [_vte_draw] has. *)
Lemma teardown_after_rejection :
  ∃ draw w w',
    _vte_draw_set_text_font _vte_draw_new example_widget example_wide_fontdesc
      (int_to_double 1) (int_to_double 1) empty_world = Some (draw, w)
    ∧ fonts draw = [Some 1%N; Some 1%N; Some 3%N; Some 3%N]
    ∧ ref_count <$> heap w !! 1%N = Some 1
    ∧ ref_count <$> heap w !! 3%N = Some 1
    ∧ _vte_draw_free draw w = Some w'
    ∧ (∀ p, (1 <= p <= 4)%N → ref_count <$> heap w' !! p = Some 0)
    ∧ source_data <$> sources w' = [2%N; 4%N; 3%N; 1%N].
Proof.
  exists (built_draw example_built_wide), (built_world example_built_wide),
    (default empty_world
       (_vte_draw_free (built_draw example_built_wide) (built_world example_built_wide))).
  split_and!; [vm_compute; reflexivity..| |vm_compute; reflexivity].
  intros p Hp.
  assert (p = 1 ∨ p = 2 ∨ p = 3 ∨ p = 4)%N as [->|[->|[->| ->]]] by lia;
    vm_compute; reflexivity.
Qed.

(** * Further properties *)

(** ** The key of the font cache, continued *)

Section cache_key_contract.
Context `{Collaborators}.

(** X1.  Keys that [context_equal] finds equal have the same
    [context_hash], as a [GHashTable] requires of its two functions; the
    resolutions +0 and -0, which are equal as doubles, are hashed alike. *)
Theorem context_hash_respects_equal (a b : PangoContext) :
  context_equal a b = true → context_hash a = context_hash b.
Proof. apply context_equal_hash. Qed.

(** X2.  [context_equal] is symmetric and transitive.  It is reflexive on
    the contexts whose resolution is no NaN and whose font options are set,
    and on no other: [cairo_font_options_equal] answers FALSE for NULL. *)
Theorem context_equal_partial_equivalence :
  (∀ a b, context_equal a b = context_equal b a)
  ∧ (∀ a b c, context_equal a b = true → context_equal b c = true →
              context_equal a c = true)
  ∧ (∀ a, context_equal a a = true
          ↔ resolution a ≠ S754_nan ∧ font_options a ≠ None).
Proof.
  split_and!.
  - apply context_equal_sym.
  - apply context_equal_trans.
  - intros a. rewrite context_equal_fingerprint. unfold fingerprint. split.
    + intros [_ [v Hv]].
      destruct (resolution a); destruct (font_options a); try done.
    + intros [Hr Ho]. split; [done|].
      destruct (resolution a); destruct (font_options a); try done; by eexists.
Qed.

End cache_key_contract.

Lemma context_hash_respects_equal_witness :
  context_hash
    {| ctx_addr := 1; font_map_is_cairo := true; base_dir := 0;
       resolution := S754_zero false; font_description := example_fontdesc;
       font_options := Some cairo_font_options_create;
       language := 7; fontconfig_timestamp := 0 |}
  = context_hash
      {| ctx_addr := 2; font_map_is_cairo := false; base_dir := 1;
         resolution := S754_zero true; font_description := example_fontdesc;
         font_options := Some cairo_font_options_create;
         language := 7; fontconfig_timestamp := 0 |}.
Proof.
  apply context_hash_respects_equal. vm_compute. reflexivity.
Defined.

(** ** The life cycle of a [font_info], continued *)

Section font_cache_safety.
Context `{Collaborators}.

Lemma filter_none {A} (P : A → Prop) `{∀ x, Decision (P x)} (l : list A) :
  Forall (fun x => ¬ P x) l → filter P l = [].
Proof.
  induction 1 as [|x l Hx _ IH]; [done|]. by rewrite filter_cons_False.
Qed.

Lemma find_for_context_twice a b w :
  world_ok w → context_equal a b = true →
  ∃ p w1 w2,
    font_info_find_for_context a w = Some (p, w1)
    ∧ font_info_find_for_context b w1 = Some (p, w2)
    ∧ world_ok w2.
Proof.
  intros Hok Hab.
  destruct (find_for_context_spec a w Hok)
    as (p & w1 & fi & k & Hfa & Hok1 & Hp & Hin & Hk & _).
  pose proof (lookup_unique (table w1) k p b (ok_table_keys w1 Hok1) Hin
                (key_equal_via a b k Hab Hk)) as Hl.
  destruct (find_for_context_hit b w1 p Hok1 Hl)
    as (fi' & w2 & _ & _ & Hfb & Hok2 & _).
  by exists p, w1, w2.
Qed.

(** X3.  [font_info_create_for_context] sets the base direction, the
    description, the language, the fontconfig timestamp and, where they are
    NULL, default font options, before it looks the context up.  So two
    contexts of the cairo font map with equal resolutions get one
    [font_info] for a description, a language and a timestamp, whatever
    their addresses, base directions and own descriptions are, and when
    the font options of one are NULL and those of the other the default
    ones. *)
Theorem create_for_context_shares (w : world) (c1 c2 : PangoContext)
    (desc : PangoFontDescription) (lang : PangoLanguage)
    (timestamp : Z) :
  world_ok w →
  font_map_is_cairo c1 = true → font_map_is_cairo c2 = true →
  _vte_double_equal (resolution c1) (resolution c2) = true →
  default cairo_font_options_create (font_options c1)
  = default cairo_font_options_create (font_options c2) →
  ∃ p w1 w2,
    font_info_create_for_context c1 (Some desc) lang timestamp w
    = Some (p, w1)
    ∧ font_info_create_for_context c2 (Some desc) lang timestamp w1
      = Some (p, w2).
Proof.
  intros Hok Hm1 Hm2 Hr Ho. unfold font_info_create_for_context.
  rewrite Hm1, Hm2. cbn [negb].
  match goal with
  | |- ∃ p w1 w2, font_info_find_for_context ?a w = _
                  ∧ font_info_find_for_context ?b w1 = _ =>
      destruct (find_for_context_twice a b w Hok) as (p & w1 & w2 & H1 & H2 & _)
  end.
  - unfold context_equal, pango_font_description_equal, cairo_font_options_equal.
    cbn [resolution font_description font_options language
         fontconfig_timestamp default from_option id].
    rewrite Hr, !Z.eqb_refl, bool_decide_eq_true_2 by done.
    destruct (font_options c1), (font_options c2); simpl in Ho; subst;
      by rewrite bool_decide_eq_true_2.
  - by exists p, w1, w2.
Qed.

(** X4.  The main loop never frees a [font_info] that is referenced:
    whatever time passes, it stays in the heap as it is, and the invariant
    of the font cache holds afterwards. *)
Theorem referenced_font_survives (w : world) (p : N) (fi : font_info) (t : Z) :
  world_ok w → heap w !! p = Some fi → 0 < ref_count fi →
  ∃ w', main_loop_run_until t w = Some w' ∧ heap w' !! p = Some fi ∧ world_ok w'.
Proof.
  intros Hok Hp Hr.
  destruct (main_loop_run_until_ok t w Hok) as (w' & Hrun & Hok' & Hh & _).
  exists w'. split; [done|]. split; [|done].
  rewrite Hh, decide_False; [done|].
  intros Hin. apply list_elem_of_fmap in Hin as (s & Hdata & Hs).
  apply list_elem_of_filter in Hs as [_ Hs].
  destruct (ok_source_data w Hok s Hs) as (fs & Hfs & _ & Hzero).
  rewrite <- Hdata, Hp in Hfs. injection Hfs as <-. lia.
Qed.

(** X5.  [font_info_reference] followed by [font_info_destroy] is the
    identity on a world in which the [font_info] is referenced and has no
    timeout. *)
Theorem reference_then_destroy (w : world) (p : N) (fi : font_info) :
  heap w !! p = Some fi → 0 < ref_count fi → destroy_timeout fi = 0 →
  font_info_reference (Some p) w ≫= font_info_destroy (Some p) = Some w.
Proof.
  intros Hp Hr Hdt. unfold font_info_reference. rewrite Hp. cbn [mbind option_bind].
  destruct (ref_count fi <? 0) eqn:Hneg; [lia|].
  rewrite Hdt. cbn [Z.eqb negb mbind option_bind].
  unfold font_info_destroy. cbn [heap set_heap]. rewrite lookup_insert_eq.
  cbn [mbind option_bind ref_count set_lifecycle destroy_timeout].
  destruct (0 <? ref_count fi + 1) eqn:Hpos; [|lia]. cbn [negb].
  destruct (ref_count fi + 1 - 1 =? 0) eqn:Hz; [lia|]. cbn [negb].
  f_equal. destruct w as [hp tbl src na ns nw]. unfold set_heap. cbn in *. f_equal.
  rewrite insert_insert_eq. apply insert_id. rewrite Hp. f_equal.
  destruct fi. unfold set_lifecycle. cbn in *. subst. f_equal. lia.
Qed.

(** X6.  A [font_info_destroy] too many does no harm: after the release
    that takes the last reference, another one changes nothing, so that one
    timeout and no more waits for the [font_info]. *)
Theorem release_twice_is_release_once (w : world) (p : N) (fi : font_info) :
  world_ok w → heap w !! p = Some fi → ref_count fi = 1 →
  ∃ w1,
    font_info_destroy (Some p) w = Some w1
    ∧ font_info_destroy (Some p) w1 = Some w1
    ∧ length (filter (fun s => source_data s = p) (sources w1)) = 1%nat.
Proof.
  intros Hok Hp Hr.
  destruct (destroy_ok w p fi Hok Hp) as (w1 & Hd & Hok1 & _ & _ & _ & Hcase); [lia|].
  rewrite decide_True in Hcase by done. destruct Hcase as (Hh & Hs & _).
  exists w1. split_and!; [done| |].
  - apply (destroy_unreferenced w1 p (set_lifecycle fi 0 (next_source_id w))).
    + rewrite Hh. apply lookup_insert_eq.
    + simpl. lia.
  - rewrite Hs, filter_app.
    assert (filter (fun s => source_data s = p) (sources w) = []) as ->.
    { apply filter_none. apply Forall_forall. intros s Hin Hdata.
      destruct (ok_source_data w Hok s Hin) as (fs & Hfs & _ & Hzero).
      rewrite Hdata, Hp in Hfs. injection Hfs as <-. lia. }
    rewrite filter_cons_True by done. done.
Qed.

End font_cache_safety.

(** ** A new [font_info] *)

Section new_font_info.
Context `{Collaborators}.

Local Arguments font_info_allocate : simpl never.

Lemma measured_fold (g h : ascii → Z) (l : list ascii) (mw mh : Z) :
  let r := foldl (fun '(mw, mh) c => (Z.max mw (g c), Z.max mh (h c))) (mw, mh) l in
  mw <= r.1 ∧ mh <= r.2
  ∧ Forall (fun c => g c <= r.1 ∧ h c <= r.2) l
  ∧ (r.1 = mw ∨ ∃ c, c ∈ l ∧ r.1 = g c)
  ∧ (r.2 = mh ∨ ∃ c, c ∈ l ∧ r.2 = h c).
Proof.
  revert mw mh. induction l as [|c l IH]; intros mw mh; simpl.
  - split_and!; try done; by left.
  - destruct (IH (Z.max mw (g c)) (Z.max mh (h c))) as (Hw & Hh & Hall & Haw & Hah).
    split_and!; try lia.
    + constructor; [lia|done].
    + destruct Haw as [->|(c' & Hin & ->)].
      * destruct (Z.max_spec mw (g c)) as [[_ ->]|[_ ->]]; [right|by left].
        exists c. split; [by left|done].
      * right. exists c'. split; [by right|done].
    + destruct Hah as [->|(c' & Hin & ->)].
      * destruct (Z.max_spec mh (h c)) as [[_ ->]|[_ ->]]; [right|by left].
        exists c. split; [by left|done].
      * right. exists c'. split; [by right|done].
Qed.

(** X7.  The cell of a new [font_info] is at least one pixel wide and
    high, and no character from U+0021 to U+007E, shaped alone, is wider or
    higher than it; the width, and the height, is that of one of them unless
    it is 1.  So the width is never the zero that the test of the bold face
    would divide by, and the test for a height of zero never holds. *)
Theorem allocate_metrics (context : PangoContext) :
  let fi := font_info_allocate context in
  let extents c := logical (pango_layout_shape context (String c EmptyString)) in
  1 <= info_width fi ∧ 1 <= info_height fi
  ∧ Forall (fun c => PANGO_PIXELS_CEIL (rect_width (extents c)) <= info_width fi
                     ∧ PANGO_PIXELS_CEIL (rect_height (extents c)) <= info_height fi)
      measured_chars
  ∧ (info_width fi = 1
     ∨ ∃ c, c ∈ measured_chars
            ∧ info_width fi = PANGO_PIXELS_CEIL (rect_width (extents c)))
  ∧ (info_height fi = 1
     ∨ ∃ c, c ∈ measured_chars
            ∧ info_height fi = PANGO_PIXELS_CEIL (rect_height (extents c)))
  ∧ info_ascent fi
    = PANGO_PIXELS_CEIL
        (baseline (pango_layout_shape context VTE_DRAW_SINGLE_WIDE_CHARACTERS)).
Proof.
  intros fi extents. subst fi. unfold font_info_allocate, font_info_measure_font.
  cbn [layout layout_context].
  match goal with
  | |- context [foldl ?f (1, 1) measured_chars] =>
      pose proof (measured_fold
                    (fun c => PANGO_PIXELS_CEIL (rect_width (extents c)))
                    (fun c => PANGO_PIXELS_CEIL (rect_height (extents c)))
                    measured_chars 1 1) as Hfold;
      change (foldl _ (1, 1) measured_chars) with (foldl f (1, 1) measured_chars)
        in Hfold;
      destruct (foldl f (1, 1) measured_chars) as [mw mh]
  end.
  cbn [fst snd] in Hfold. destruct Hfold as (Hw & Hh & Hall & Haw & Hah).
  match goal with
  | |- context [font_info_cache_ascii ?i] =>
      pose proof (font_info_cache_ascii_same i) as (_ & _ & _ & Ew & Eh & Ea & _);
      destruct (font_info_cache_ascii i) as [rc dt lay asc oth iw ih ia gs cc]
  end.
  cbn in Ew, Eh, Ea. subst iw ih ia. cbn [info_height info_width info_ascent set_metrics].
  destruct (mh =? 0) eqn:Hz; [lia|].
  cbn [info_height info_width info_ascent set_metrics].
  match goal with
  | |- context [if ?b then set_metrics _ _ _ _ else _] => destruct b
  end; cbn [info_height info_width info_ascent set_metrics]; by split_and!.
Qed.

Lemma get_in_string (s : string) (n : nat) (ch : ascii) :
  String.get n s = Some ch → ch ∈ list_ascii_of_string s.
Proof.
  revert n. induction s as [|a s IH]; intros n; simpl; [done|].
  destruct n as [|n].
  - intros [= ->]. by left.
  - intros Hg. right. by apply (IH n).
Qed.

Lemma sample_text_printable :
  ∀ ch, ch ∈ list_ascii_of_string VTE_DRAW_SINGLE_WIDE_CHARACTERS →
        (32 <= N_of_ascii ch <= 126)%N.
Proof.
  assert (forallb (fun ch => (32 <=? N_of_ascii ch)%N && (N_of_ascii ch <=? 126)%N)
            (list_ascii_of_string VTE_DRAW_SINGLE_WIDE_CHARACTERS) = true) as Hb
    by (vm_compute; reflexivity).
  intros ch Hin. rewrite forallb_forall in Hb.
  apply list_elem_of_In, Hb in Hin.
  apply andb_true_iff in Hin as [H1 H2]. apply N.leb_le in H1, H2. lia.
Qed.

Lemma count_coverage_ok info cov :
  cov ≠ COVERAGE_UNKNOWN →
  coverage_counts_ok info → coverage_counts_ok (count_coverage info cov).
Proof.
  intros Hcov (n1 & n2 & n3 & Hc & H1 & H2 & H3). unfold coverage_counts_ok.
  cbn [count_coverage coverage_count]. rewrite Hc.
  destruct cov; [done| | |]; cbn.
  - exists (Z.succ n1), n2, n3. split_and!; try lia. f_equal. lia.
  - exists n1, (Z.succ n2), n3. split_and!; try lia. f_equal. lia.
  - exists n1, n2, (Z.succ n3). split_and!; try lia. f_equal. lia.
Qed.

Lemma cache_ascii_cluster_ok latin text glyph_string scaled_font info iter :
  (∀ ch, ch ∈ list_ascii_of_string text → (32 <= N_of_ascii ch <= 126)%N) →
  ascii_cache_ok info →
  ascii_cache_ok (cache_ascii_cluster latin text glyph_string scaled_font info iter).
Proof.
  intros Htext Hok. unfold cache_ascii_cluster.
  destruct (negb _); [done|].
  destruct (String.get _ text) as [ch|] eqn:Hget; [|done].
  destruct (glyph_string !! _) as [g|]; [|done].
  destruct (negb latin && _); [done|].
  destruct (negb (glyph g <=? 65535)) eqn:Hg; [done|].
  destruct (negb (Z.lor _ _ =? 0)); [done|]. cbn [orb].
  pose proof (Htext ch (get_in_string _ _ _ Hget)) as Hch.
  unfold font_info_find_unistr_info.
  destruct (N_of_ascii ch <? 128)%N eqn:Hlt; [|apply N.ltb_ge in Hlt; lia].
  cbv beta iota.
  match goal with |- ascii_cache_ok (if ?b then _ else _) => destruct b end; [done|].
  destruct Hok as (Hlen & Hall & Hoth & Hctl & Hcnt).
  unfold unistr_info_store. rewrite Hlt.
  unfold ascii_cache_ok.
  cbn [set_caches ascii_unistr_info other_unistr_info coverage_count count_coverage].
  split_and!.
  - by rewrite length_insert.
  - apply Forall_insert; [done|]. right. eexists _, _. split_and!; try done.
    + apply negb_false_iff, Z.leb_le in Hg. done.
    + cbn. unfold to_guint16. apply Z.mod_pos_bound. lia.
    + cbn. unfold to_guint16. apply Z.mod_pos_bound. lia.
  - done.
  - intros i Hi. rewrite list_lookup_insert_ne; [by apply Hctl|]. lia.
  - by apply (count_coverage_ok info COVERAGE_USE_CAIRO_GLYPH).
Qed.

Lemma font_info_cache_ascii_ok info :
  layout_text (layout info) = VTE_DRAW_SINGLE_WIDE_CHARACTERS →
  ascii_cache_ok info → ascii_cache_ok (font_info_cache_ascii info).
Proof.
  intros Htext Hok. unfold font_info_cache_ascii. rewrite Htext.
  destruct (negb _); [done|].
  destruct (runs _) as [|glyph_item [|? ?]]; [done| |done].
  destruct (analysis_font glyph_item) as [pango_font|]; [|done].
  destruct (pango_cairo_font_get_scaled_font _) as [scaled_font|]; [|done].
  match goal with |- ascii_cache_ok (foldl ?f info ?l) => generalize l end.
  intros l. induction l as [|iter l IH] using rev_ind; [done|].
  rewrite foldl_app. cbn [foldl].
  apply cache_ascii_cluster_ok; [apply sample_text_printable|done].
Qed.

Lemma font_info_allocate_ok context : ascii_cache_ok (font_info_allocate context).
Proof.
  unfold font_info_allocate, font_info_measure_font.
  match goal with
  | |- context [foldl ?f (1, 1) measured_chars] =>
      destruct (foldl f (1, 1) measured_chars) as [mw mh]
  end.
  match goal with
  | |- context [font_info_cache_ascii ?i] =>
      assert (ascii_cache_ok (font_info_cache_ascii i)) as Hok;
      [|destruct (font_info_cache_ascii i) as [rc dt lay asc oth iw ih ia gs cc]]
  end.
  - apply font_info_cache_ascii_ok; [done|].
    unfold ascii_cache_ok, coverage_counts_ok.
    cbn [ascii_unistr_info other_unistr_info coverage_count set_metrics
         set_layout_text].
    split_and!.
    + apply length_replicate.
    + apply Forall_forall. intros u Hu. left.
      by apply elem_of_replicate in Hu as [-> _].
    + done.
    + intros i Hi. apply lookup_replicate. split; [done|lia].
    + exists 0, 0, 0. by split_and!.
  - cbn [info_height info_ascent info_width set_metrics].
    destruct (ih =? 0); cbn [info_height info_ascent info_width set_metrics];
      destruct (_ =? 0); exact Hok.
Qed.

(** X8.  What [font_info_cache_ascii] leaves in a new [font_info]: the
    direct array keeps its 128 elements, each of them zeroed or a cairo
    glyph of at most 16 bits with no unknown character; the elements of the
    control characters and of DEL, which the sample text has not, are
    zeroed; and the hash table for the other characters does not exist
    yet. *)
Theorem allocate_ascii_cache (context : PangoContext) :
  let fi := font_info_allocate context in
  length (ascii_unistr_info fi) = 128%nat
  ∧ Forall ascii_entry_ok (ascii_unistr_info fi)
  ∧ other_unistr_info fi = None
  ∧ (∀ i, (i < 32)%nat ∨ i = 127%nat →
          ascii_unistr_info fi !! i = Some unistr_info_create).
Proof.
  intros fi. destruct (font_info_allocate_ok context) as (? & ? & ? & ? & _).
  by split_and!.
Qed.

Lemma find_unistr_info_counts info c :
  coverage_count (font_info_find_unistr_info info c).2 = coverage_count info.
Proof.
  unfold font_info_find_unistr_info. destruct (c <? 128)%N; [done|].
  by destruct (default ∅ (other_unistr_info info) !! c).
Qed.

Lemma get_unistr_info_counts_ok info c :
  coverage_counts_ok info →
  coverage_counts_ok (font_info_get_unistr_info info c).2.
Proof.
  intros Hok. rewrite get_unistr_info_unfold.
  assert (coverage_counts_ok (font_info_find_unistr_info info c).2) as Hfind.
  { unfold coverage_counts_ok. by rewrite find_unistr_info_counts. }
  case_bool_decide; [|done]. cbn [snd]. unfold store_shaped.
  match goal with
  | |- coverage_counts_ok (unistr_info_store (count_coverage ?i ?cov) c ?u) =>
      assert (coverage_counts_ok (count_coverage i cov)) as Hcnt
  end.
  { apply count_coverage_ok; [apply shaped_unistr_info_known|].
    destruct Hfind as (n1 & n2 & n3 & Hc & ?).
    exists n1, n2, n3. by split; [exact Hc|]. }
  unfold unistr_info_store. by destruct (c <? 128)%N.
Qed.

(** X9.  The profiling counters of a [font_info] always add up, as the
    message of [font_info_free] prints them: after [font_info_allocate] and
    any number of calls of [font_info_get_unistr_info], the first counter
    is the sum of the counters of the three coverages. *)
Theorem coverage_counts_add_up (context : PangoContext) (later : list vteunistr) :
  let fi := foldl (fun i c => (font_info_get_unistr_info i c).2)
              (font_info_allocate context) later in
  ∃ n1 n2 n3,
    coverage_count fi = [n1 + n2 + n3; n1; n2; n3]
    ∧ 0 <= n1 ∧ 0 <= n2 ∧ 0 <= n3.
Proof.
  cbn zeta.
  assert (coverage_counts_ok (font_info_allocate context)) as Hok.
  { by destruct (font_info_allocate_ok context) as (_ & _ & _ & _ & ?). }
  revert Hok. generalize (font_info_allocate context).
  induction later as [|c later IH]; intros info Hok; [done|].
  cbn [foldl]. apply IH. by apply get_unistr_info_counts_ok.
Qed.

End new_font_info.

(** ** The drawing loop, continued *)

Section drawing_bounds.
Context `{Collaborators}.

Lemma push_outcome_bounds outs last pending ops :
  Forall outcome_ok outs →
  Forall batch_ok ops →
  (length pending <= MAX_RUN_LENGTH)%nat →
  (pending ≠ [] → is_Some last) →
  let '(last', pending', ops') := foldl push_outcome (last, pending, ops) outs in
  Forall batch_ok ops'
  ∧ (length pending' <= MAX_RUN_LENGTH)%nat
  ∧ (pending' ≠ [] → is_Some last').
Proof.
  intros Houts. revert last pending ops.
  induction Houts as [|o outs Ho _ IH]; intros last pending ops Hops Hlen Hlast;
    [done|].
  cbn [foldl]. destruct o as [op|scaled_font g]; cbn [push_outcome].
  - apply IH; try done. apply Forall_app. split; [done|].
    constructor; [|done]. by destruct op.
  - destruct (bool_decide (last ≠ Some scaled_font)
              || bool_decide (length pending = MAX_RUN_LENGTH)) eqn:Hflush.
    + apply IH.
      * destruct (bool_decide (length pending ≠ 0%nat)) eqn:Hpending; [|exact Hops].
        apply bool_decide_eq_true in Hpending.
        apply Forall_app. split; [done|]. constructor; [|done].
        split; [apply Hlast; by intros ->|].
        split; [|done]. destruct pending; [done|]. simpl. lia.
      * unfold MAX_RUN_LENGTH. simpl. lia.
      * by intros _.
    + apply orb_false_iff in Hflush as [Hsame Hfull].
      apply bool_decide_eq_false in Hsame, Hfull.
      apply IH; try done.
      * rewrite length_app. simpl. lia.
      * intros _. destruct (decide (last = Some scaled_font)) as [->|]; done.
Qed.

(** X10.  Whatever the requests are, every call of [cairo_show_glyphs]
    that [_vte_draw_text_internal] makes has a scaled font and between 1
    and [MAX_RUN_LENGTH] glyphs: the array [cr_glyphs] is never
    overrun and never shown empty. *)
Theorem show_glyphs_within_run_length (draw : _vte_draw) (h : gmap N font_info)
    (requests : list _vte_draw_text_request) (style : nat) (p p0 : N)
    (fi fin : font_info) (cairo : N) :
  draw_font draw VTE_DRAW_NORMAL = Some (Some p0) →
  draw_font draw style = Some (Some p) →
  cr draw = Some cairo →
  h !! p = Some fi → h !! p0 = Some fin →
  length (ascii_unistr_info fi) = 128%nat →
  ∃ ops h',
    _vte_draw_text_internal draw h requests style = Some (ops, h')
    ∧ Forall batch_ok ops.
Proof.
  intros Hn Hs Hcr Hp Hp0 Hlen.
  destruct (draw_text_internal_outcomes draw h requests style p p0 fi fin cairo)
    as (h' & Htext & _); try done.
  pose proof (push_outcome_bounds (omap (request_outcome draw fi fin) requests)
                None [] [] (outcomes_ok draw fi fin requests)) as Hb.
  destruct (foldl push_outcome (None, [], []) _) as [[last pending] ops].
  destruct Hb as (Hops & Hlen' & Hlast); [done|simpl; lia|done|].
  eexists _, h'. split; [exact Htext|].
  case_bool_decide as Hpending; [|done].
  apply Forall_app. split; [done|]. constructor; [|done].
  split; [apply Hlast; by intros ->|]. split; [|done].
  destruct pending; [done|]. simpl. lia.
Qed.

Lemma foldl_draw_request_None draw style font requests :
  foldl (draw_request draw style font) None requests = None.
Proof. induction requests as [|r rs IH]; [done|]. exact IH. Qed.

Lemma get_char_edges_other draw h c columns style p l r h' q :
  draw_font draw style = Some (Some p) →
  _vte_draw_get_char_edges draw h c columns style = Some (l, r, h') →
  q ≠ p → h' !! q = h !! q.
Proof.
  intros Hs. unfold _vte_draw_get_char_edges. rewrite Hs.
  destruct (_vte_draw_unichar_is_local_graphic c); [by intros [= _ _ <-]|].
  destruct (draw_font draw VTE_DRAW_NORMAL) as [[p0|]|]; cbn [mbind option_bind mjoin];
    [|by intros [= _ _ <-]|done].
  cbn [mjoin option_join mbind option_bind].
  destruct (h !! p) as [fi|]; cbn [mbind option_bind]; [|done].
  destruct (font_info_get_unistr_info fi c) as [u fi'].
  destruct (<[p := fi']> h !! p0) as [fin|]; cbn [mbind option_bind]; [|done].
  intros [= _ _ <-] Hq. by rewrite lookup_insert_ne.
Qed.

Lemma draw_request_other draw style p run request run' q :
  draw_font draw style = Some (Some p) →
  draw_request draw style p (Some run) request = Some run' →
  q ≠ p → run_heap run' !! q = run_heap run !! q.
Proof.
  intros Hs. unfold draw_request. cbn [mbind option_bind].
  destruct (_vte_draw_unichar_is_local_graphic (request_char request)).
  - destruct (run_heap run !! p); cbn [mbind option_bind]; [|done].
    by intros [= <-].
  - destruct (run_heap run !! p) as [fi|]; cbn [mbind option_bind]; [|done].
    destruct (font_info_get_unistr_info fi (request_char request)) as [u fi'].
    destruct (_vte_draw_get_char_edges draw (<[p := fi']> (run_heap run))
                (request_char request) (req_columns request) style)
      as [[[l r] h2]|] eqn:He; cbn [mbind option_bind]; [|done].
    destruct (mjoin (draw_font draw VTE_DRAW_NORMAL)); cbn [mbind option_bind];
      [|done].
    destruct (h2 !! _); cbn [mbind option_bind]; [|done].
    intros Hrun Hq.
    assert (run_heap run' = h2) as ->.
    { destruct (ufi u); try done; injection Hrun as <-; try done.
      cbn [run_heap]. by destruct (_ || _); [case_bool_decide|]. }
    rewrite (get_char_edges_other _ _ _ _ _ _ _ _ _ q Hs He Hq).
    by rewrite lookup_insert_ne.
Qed.

Lemma draw_requests_other draw style p requests run run' q :
  draw_font draw style = Some (Some p) →
  foldl (draw_request draw style p) (Some run) requests = Some run' →
  q ≠ p → run_heap run' !! q = run_heap run !! q.
Proof.
  intros Hs. revert run. induction requests as [|r rs IH]; intros run.
  - by intros [= <-].
  - cbn [foldl].
    destruct (draw_request draw style p (Some run) r) as [run1|] eqn:E;
      [|by rewrite foldl_draw_request_None].
    intros Hrest Hq. rewrite (IH run1 Hrest Hq).
    by apply (draw_request_other draw style p run r).
Qed.

(** X11.  Drawing text with the font of a style touches no other
    [font_info]: every other one is in the heap as it was, and the font of
    the style keeps its life cycle, its context and its metrics; what
    changes is its cache of characters. *)
Theorem draw_text_frame (draw : _vte_draw) (h : gmap N font_info)
    (requests : list _vte_draw_text_request) (style : nat) (p p0 : N)
    (fi fin : font_info) (cairo : N) :
  draw_font draw VTE_DRAW_NORMAL = Some (Some p0) →
  draw_font draw style = Some (Some p) →
  cr draw = Some cairo →
  h !! p = Some fi → h !! p0 = Some fin →
  length (ascii_unistr_info fi) = 128%nat →
  ∃ ops h' fi',
    _vte_draw_text_internal draw h requests style = Some (ops, h')
    ∧ (∀ q, q ≠ p → h' !! q = h !! q)
    ∧ h' !! p = Some fi'
    ∧ same_font fi' fi.
Proof.
  intros Hn Hs Hcr Hp Hp0 Hlen.
  destruct (draw_text_internal_outcomes draw h requests style p p0 fi fin cairo)
    as (h' & Htext & (fi' & fin' & Hp' & _ & Hsame & _)); try done.
  eexists _, h', fi'. split; [exact Htext|]. split; [|done].
  intros q Hq. clear Hsame Hp'.
  unfold _vte_draw_text_internal in Htext. rewrite Hs, Hcr in Htext.
  cbn [mbind option_bind] in Htext.
  destruct (foldl _ _ requests) as [run'|] eqn:Hfold; cbn [mbind option_bind] in Htext;
    [|done].
  injection Htext as _ <-.
  pose proof (draw_requests_other draw style p requests _ run' q Hs Hfold Hq) as Hrun.
  cbn [run_heap] in Hrun. rewrite <- Hrun. by case_bool_decide.
Qed.

(** X12.  With borders that share out what the cell is wider than the
    normal font, as [_vte_draw_set_text_font] computes them, a glyph that is
    no wider than the cells it is drawn in lies within them:
    [_vte_draw_get_char_edges] answers edges from 0 to [cell_width *
    columns] that are the width of the glyph apart. *)
Theorem char_edges_within_cells (draw : _vte_draw) (h : gmap N font_info)
    (c : vteunistr) (columns : Z) (style : nat) (p p0 : N) (fi fin : font_info) :
  _vte_draw_unichar_is_local_graphic c = false →
  draw_font draw VTE_DRAW_NORMAL = Some (Some p0) →
  draw_font draw style = Some (Some p) →
  h !! p = Some fi → h !! p0 = Some fin →
  1 <= columns →
  0 <= border_left (char_spacing draw) →
  0 <= border_right (char_spacing draw) →
  border_left (char_spacing draw) + border_right (char_spacing draw)
  = cell_width draw - info_width fin →
  0 <= info_width fin →
  let w := width (font_info_get_unistr_info fi c).1 in
  0 <= w <= cell_width draw * columns →
  ∃ left right h',
    _vte_draw_get_char_edges draw h c columns style = Some (left, right, h')
    ∧ 0 <= left ∧ right <= cell_width draw * columns ∧ right - left = w.
Proof.
  intros Hg Hn Hs Hp Hp0 Hcols Hl Hr Hsum Hwidth w Hw.
  rewrite (get_char_edges_font draw h c columns style p p0 fi fin) by done.
  fold (classification fi c) in w. fold w.
  eexists _, _, _. split; [done|]. unfold glyph_left.
  destruct (w <=? info_width fin * columns) eqn:E1.
  - apply Z.leb_le in E1. destruct (columns =? 2) eqn:E2.
    + apply Z.eqb_eq in E2. subst columns. split_and!; lia.
    + split_and!; try lia. nia.
  - destruct (w <=? cell_width draw * columns) eqn:E2; [|lia].
    assert (0 <= (cell_width draw * columns - w) / 2) by (apply Z.div_pos; lia).
    assert (2 * ((cell_width draw * columns - w) / 2) <= cell_width draw * columns - w)
      by (apply Z.mul_div_le; lia).
    split_and!; lia.
Qed.

End drawing_bounds.

(** ** The style set, continued *)

Section style_set_metrics.
Context `{Collaborators}.

Lemma destroy_heap_keeps p w w' :
  font_info_destroy (Some p) w = Some w' → heap_keeps w w'.
Proof.
  unfold font_info_destroy. destruct (heap w !! p) as [fi|] eqn:Hp; [|done].
  cbn [mbind option_bind].
  destruct (negb (0 <? ref_count fi)); [intros [= <-]; apply heap_keeps_refl|].
  cbn [ref_count set_lifecycle].
  destruct (negb (ref_count fi - 1 =? 0)); intros [= <-].
  - apply (lifecycle_keeps w _ p fi (ref_count fi - 1) (destroy_timeout fi) Hp).
    done.
  - unfold gdk_threads_add_timeout_seconds. cbn [set_heap heap].
    rewrite insert_insert_eq.
    apply (lifecycle_keeps w _ p fi (ref_count fi - 1) (next_source_id w) Hp).
    done.
Qed.

(** The block that decides on a bold face, read backwards. *)
Lemma reject_bold_font_inv normal draw w draw' w' :
  reject_bold_font normal (draw, w) = Some (draw', w') →
  let bold := Nat.lor normal VTE_DRAW_BOLD in
  ∃ p_normal p_bold,
    draw_font draw normal = Some (Some p_normal)
    ∧ draw_font draw bold = Some (Some p_bold)
    ∧ is_Some (heap w !! p_normal) ∧ is_Some (heap w !! p_bold)
    ∧ heap_keeps w w'
    ∧ (fonts draw' = fonts draw ∨ fonts draw' = <[bold := Some p_normal]> (fonts draw))
    ∧ cell_width draw' = cell_width draw ∧ cell_height draw' = cell_height draw
    ∧ char_spacing draw' = char_spacing draw ∧ cr draw' = cr draw.
Proof.
  intros Hr. cbv zeta. unfold reject_bold_font in Hr.
  set (bold := Nat.lor normal VTE_DRAW_BOLD) in *.
  destruct (draw_font draw bold) as [[p_bold|]|]; cbn [mbind option_bind] in Hr;
    [| |done].
  2: { by destruct (draw_font draw normal). }
  destruct (draw_font draw normal) as [[p_normal|]|]; cbn [mbind option_bind] in Hr;
    [|done|done].
  destruct (heap w !! p_bold) as [fi_bold|] eqn:Hb; cbn [mbind option_bind] in Hr;
    [|done].
  destruct (heap w !! p_normal) as [fi_normal|] eqn:Hn; cbn [mbind option_bind] in Hr;
    [|done].
  destruct (info_width fi_normal =? 0); [done|].
  exists p_normal, p_bold. split; [done|]. split; [done|].
  split; [by eexists|]. split; [by eexists|].
  destruct (10 <? _).
  - destruct (font_info_destroy (Some p_bold) w) as [w2|] eqn:Hd;
      cbn [mbind option_bind] in Hr; [|done].
    injection Hr as <- <-. split; [by apply (destroy_heap_keeps p_bold)|].
    split; [by right|done].
  - injection Hr as <- <-. split; [apply heap_keeps_refl|]. split; [by left|done].
Qed.

Lemma draw_font_after_reject (l l' : list (option N)) (bold i : nat) (p q : N) :
  (l' = l ∨ l' = <[bold := Some p]> l) →
  l !! i = Some (Some q) →
  ∃ q', l' !! i = Some (Some q') ∧ (i ≠ bold → q' = q) ∧ (q' = q ∨ q' = p).
Proof.
  intros [->| ->] Hi; [by exists q; split_and!; [|..|left]|].
  destruct (decide (i = bold)) as [->|Hne].
  - exists p. rewrite list_lookup_insert_eq by (by eapply lookup_lt_Some).
    split_and!; [done|done|by right].
  - exists q. rewrite list_lookup_insert_ne by done. split_and!; [done|done|by left].
Qed.

(** What a [_vte_draw] is like after [_vte_draw_set_text_font]. *)
Lemma set_text_font_inv draw widget fontdesc cell_width_scale cell_height_scale w
    draw' w' :
  _vte_draw_set_text_font draw widget fontdesc cell_width_scale cell_height_scale w
  = Some (draw', w') →
  ∃ p0 p1 p2 p3 fi,
    fonts draw' !! 0%nat = Some (Some p0) ∧ fonts draw' !! 1%nat = Some (Some p1)
    ∧ fonts draw' !! 2%nat = Some (Some p2) ∧ fonts draw' !! 3%nat = Some (Some p3)
    ∧ is_Some (heap w' !! p1) ∧ is_Some (heap w' !! p2) ∧ is_Some (heap w' !! p3)
    ∧ heap w' !! p0 = Some fi
    ∧ cell_width draw' = int_times_double (info_width fi) cell_width_scale
    ∧ cell_height draw' = int_times_double (info_height fi) cell_height_scale
    ∧ char_spacing draw'
      = {| border_left := to_gint16 (Z.quot (cell_width draw' - info_width fi) 2);
           border_right :=
             to_gint16 (Z.quot (cell_width draw' - info_width fi + 1) 2);
           border_top :=
             to_gint16 (Z.quot (cell_height draw' - info_height fi + 1) 2);
           border_bottom :=
             to_gint16 (Z.quot (cell_height draw' - info_height fi) 2) |}
    ∧ undercurl_surface draw' = None.
Proof.
  unfold _vte_draw_set_text_font. intros Hset.
  destruct (free_all_fonts draw w) as [[draw0 w0]|]; cbn [mbind option_bind] in Hset;
    [|done].
  destruct (font_info_create_for_widget widget _ w0) as [[f_normal w1]|];
    cbn [mbind option_bind] in Hset; [|done].
  destruct (font_info_create_for_widget widget _ w1) as [[f_bold w2]|];
    cbn [mbind option_bind] in Hset; [|done].
  destruct (font_info_create_for_widget widget _ w2) as [[f_italic w3]|];
    cbn [mbind option_bind] in Hset; [|done].
  destruct (font_info_create_for_widget widget _ w3) as [[f_bolditalic w4]|];
    cbn [mbind option_bind] in Hset; [|done].
  destruct (reject_bold_font VTE_DRAW_NORMAL _) as [[draw5 w5]|] eqn:Hr1;
    cbn [mbind option_bind] in Hset; [|done].
  destruct (reject_bold_font VTE_DRAW_ITALIC _) as [[draw6 w6]|] eqn:Hr2;
    cbn [mbind option_bind] in Hset; [|done].
  destruct (mjoin (draw_font draw6 VTE_DRAW_NORMAL)) as [p_normal|] eqn:Hn;
    cbn [mbind option_bind] in Hset; [|done].
  destruct (heap w6 !! p_normal) as [fi_normal|] eqn:Hfn;
    cbn [mbind option_bind] in Hset; [|done].
  injection Hset as <- <-.
  apply reject_bold_font_inv in Hr1
    as (q0 & q1 & H0 & H1 & [f0 Hf0] & [f1 Hf1] & Hk1 & Hfonts1 & _).
  apply reject_bold_font_inv in Hr2
    as (q2 & q3 & H2 & H3 & [f2 Hf2] & [f3 Hf3] & Hk2 & Hfonts2 & _).
  unfold draw_font in *.
  change (Nat.lor VTE_DRAW_NORMAL VTE_DRAW_BOLD) with 1%nat in *.
  change (Nat.lor VTE_DRAW_ITALIC VTE_DRAW_BOLD) with 3%nat in *.
  change VTE_DRAW_NORMAL with 0%nat in *. change VTE_DRAW_ITALIC with 2%nat in *.
  destruct (draw_font_after_reject _ _ 1 0 q0 q0 Hfonts1 H0) as (a0 & Ha0 & Ea0 & _).
  destruct (draw_font_after_reject _ _ 1 1 q0 q1 Hfonts1 H1) as (a1 & Ha1 & _ & Ca1).
  destruct (draw_font_after_reject _ _ 3 0 q2 a0 Hfonts2 Ha0) as (b0 & Hb0 & Eb0 & _).
  destruct (draw_font_after_reject _ _ 3 1 q2 a1 Hfonts2 Ha1) as (b1 & Hb1 & Eb1 & _).
  destruct (draw_font_after_reject _ _ 3 2 q2 q2 Hfonts2 H2) as (b2 & Hb2 & Eb2 & _).
  destruct (draw_font_after_reject _ _ 3 3 q2 q3 Hfonts2 H3) as (b3 & Hb3 & _ & Cb3).
  rewrite Ea0 in * by done. rewrite Eb0, Eb1, Eb2 in * by done.
  rewrite Hb0 in Hn. cbn in Hn. injection Hn as <-.
  assert (∀ q f, heap w4 !! q = Some f → is_Some (heap w6 !! q)) as Hlive.
  { intros q f Hq. destruct (Hk1 q f Hq) as (f' & Hq' & _).
    destruct (Hk2 q f' Hq') as (f'' & Hq'' & _). by eexists. }
  assert (∀ q f, heap w5 !! q = Some f → is_Some (heap w6 !! q)) as Hlive5.
  { intros q f Hq. destruct (Hk2 q f Hq) as (f' & Hq' & _). by eexists. }
  exists q0, a1, q2, b3, fi_normal. cbn [fonts cell_width cell_height char_spacing
                                         undercurl_surface].
  split_and!; try done.
  - destruct Ca1 as [->| ->]; eauto.
  - eauto.
  - destruct Cb3 as [->| ->]; eauto.
Qed.

(** X13.  After [_vte_draw_set_text_font] every style that
    [_vte_draw_get_style] can answer has a font: the style is an index
    below 4, its bit 0 says bold and its bit 1 italic, and the slot holds a
    [font_info] of the heap.  So drawing text never finds a NULL font. *)
Theorem every_style_has_a_font (draw : _vte_draw) (widget : GtkWidget)
    (fontdesc : PangoFontDescription) (cell_width_scale cell_height_scale : spec_float)
    (w : world) (draw' : _vte_draw) (w' : world) (bold italic : bool) :
  _vte_draw_set_text_font draw widget fontdesc cell_width_scale cell_height_scale w
  = Some (draw', w') →
  let style := _vte_draw_get_style bold italic in
  (style < 4)%nat
  ∧ Nat.testbit style 0 = bold ∧ Nat.testbit style 1 = italic
  ∧ ∃ p fi, draw_font draw' style = Some (Some p) ∧ heap w' !! p = Some fi.
Proof.
  intros Hset style.
  destruct (set_text_font_inv _ _ _ _ _ _ _ _ Hset)
    as (p0 & p1 & p2 & p3 & fi & H0 & H1 & H2 & H3 & [f1 Hf1] & [f2 Hf2] & [f3 Hf3]
        & Hf0 & _).
  subst style. unfold draw_font.
  destruct bold, italic; (split; [cbn; lia|]); (split; [done|]); (split; [done|]);
    cbn; eauto.
Qed.

Lemma to_gint16_range v : -32768 <= to_gint16 v <= 32767.
Proof.
  unfold to_gint16. pose proof (Z.mod_pos_bound (v + 32768) 65536 ltac:(lia)). lia.
Qed.

(** The two halves of a difference that the borders have room for. *)
Lemma halves_gint16 d :
  -65537 <= d <= 65534 →
  to_gint16 (Z.quot d 2) = Z.quot d 2
  ∧ to_gint16 (Z.quot (d + 1) 2) = Z.quot (d + 1) 2
  ∧ Z.quot d 2 + Z.quot (d + 1) 2 = (if d <? 0 then d + 1 else d)
  ∧ (0 <= d → 0 <= Z.quot d 2 <= Z.quot (d + 1) 2
              ∧ Z.quot (d + 1) 2 <= Z.quot d 2 + 1).
Proof.
  intros Hd.
  assert (-32768 <= Z.quot d 2 <= 32767 ∧ -32768 <= Z.quot (d + 1) 2 <= 32767
          ∧ Z.quot d 2 + Z.quot (d + 1) 2 = (if d <? 0 then d + 1 else d)
          ∧ (0 <= d → 0 <= Z.quot d 2 <= Z.quot (d + 1) 2
                      ∧ Z.quot (d + 1) 2 <= Z.quot d 2 + 1)) as (H1 & H2 & H3 & H4).
  { destruct (d <? 0) eqn:E; [apply Z.ltb_lt in E|apply Z.ltb_ge in E];
      Z.to_euclidean_division_equations; lia. }
  unfold to_gint16. rewrite !Z.mod_small by lia. split_and!; (done || lia).
Qed.

(** X14.  The borders that [_vte_draw_set_text_font] computes are stored
    in the [gint16] fields of a [GtkBorder], so each of them lies between
    -32768 and 32767.  They share out what the cell is wider, and higher,
    than the normal font as long as the halves fit: when the difference of
    the widths is from 0 to 65534, left and right add up to it, and so do
    top and bottom for the heights, and left and bottom are the smaller
    halves; then the height of the cell that [_vte_draw_get_text_metrics]
    reports is the top border, the ascent, the descent and the bottom
    border together.  When the cell is narrower than the font, by at most
    65537, the division of C rounds both halves toward zero, and left and
    right add up to one more than the difference.  When the difference is
    above 65534 the right border has wrapped around, and left and right
    add up to less than the difference. *)
Theorem text_metrics_add_up (draw : _vte_draw) (widget : GtkWidget)
    (fontdesc : PangoFontDescription) (cell_width_scale cell_height_scale : spec_float)
    (w : world) (draw' : _vte_draw) (w' : world) :
  _vte_draw_set_text_font draw widget fontdesc cell_width_scale cell_height_scale w
  = Some (draw', w') →
  ∃ p fi m,
    draw_font draw' VTE_DRAW_NORMAL = Some (Some p)
    ∧ heap w' !! p = Some fi
    ∧ _vte_draw_get_text_metrics draw' (heap w') = Some (Some m)
    ∧ metrics_cell_width m = int_times_double (info_width fi) cell_width_scale
    ∧ metrics_cell_height m = int_times_double (info_height fi) cell_height_scale
    ∧ metrics_char_ascent m + metrics_char_descent m = info_height fi
    ∧ (let spacing := metrics_char_spacing m in
       let dw := metrics_cell_width m - info_width fi in
       let dh := metrics_cell_height m - info_height fi in
       (-32768 <= border_left spacing <= 32767
        ∧ -32768 <= border_right spacing <= 32767
        ∧ -32768 <= border_top spacing <= 32767
        ∧ -32768 <= border_bottom spacing <= 32767)
       ∧ (0 <= dw <= 65534 →
          border_left spacing + border_right spacing = dw
          ∧ 0 <= border_left spacing <= border_right spacing
          ∧ border_right spacing <= border_left spacing + 1)
       ∧ (-65537 <= dw < 0 →
          border_left spacing + border_right spacing = dw + 1)
       ∧ (0 <= dh <= 65534 →
          0 <= border_bottom spacing <= border_top spacing
          ∧ border_top spacing <= border_bottom spacing + 1
          ∧ metrics_cell_height m
            = border_top spacing + metrics_char_ascent m + metrics_char_descent m
              + border_bottom spacing)
       ∧ (65534 < dw → border_left spacing + border_right spacing < dw)).
Proof.
  intros Hset.
  destruct (set_text_font_inv _ _ _ _ _ _ _ _ Hset)
    as (p0 & p1 & p2 & p3 & fi & H0 & _ & _ & _ & _ & _ & _ & Hf0 & Hcw & Hch & Hsp & _).
  eexists p0, fi, _. split; [done|]. split; [done|].
  unfold _vte_draw_get_text_metrics, draw_font. change VTE_DRAW_NORMAL with 0%nat.
  rewrite H0. cbn [mbind option_bind]. rewrite Hf0. cbn [mbind option_bind].
  split; [done|].
  cbn [metrics_cell_width metrics_cell_height metrics_char_ascent
       metrics_char_descent metrics_char_spacing].
  rewrite Hsp. cbn [border_left border_right border_top border_bottom].
  rewrite <- Hcw, <- Hch.
  remember (cell_width draw' - info_width fi) as dw eqn:Edw.
  remember (cell_height draw' - info_height fi) as dh eqn:Edh.
  split; [done|]. split; [done|]. split; [lia|].
  pose proof (to_gint16_range (Z.quot dw 2)).
  pose proof (to_gint16_range (Z.quot (dw + 1) 2)).
  pose proof (to_gint16_range (Z.quot dh 2)).
  pose proof (to_gint16_range (Z.quot (dh + 1) 2)).
  split_and!; try lia.
  - intros Hdw. destruct (halves_gint16 dw) as (-> & -> & Hsum & Hord); [lia|].
    destruct (dw <? 0) eqn:E; [apply Z.ltb_lt in E|apply Z.ltb_ge in E]; lia.
  - intros Hdw. destruct (halves_gint16 dw) as (-> & -> & Hsum & _); [lia|].
    destruct (dw <? 0) eqn:E; [apply Z.ltb_lt in E|apply Z.ltb_ge in E]; lia.
  - intros Hdh. destruct (halves_gint16 dh) as (-> & -> & Hsum & Hord); [lia|].
    destruct (dh <? 0) eqn:E; [apply Z.ltb_lt in E|apply Z.ltb_ge in E]; lia.
Qed.

End style_set_metrics.

(** ** The cairo context of a [_vte_draw] *)

Section cairo_context.
Context `{Collaborators}.

(** X15.  [_vte_draw_set_cairo] brackets the drawing: a context can be set
    only when none is set, and then it cannot be set again, and unsetting
    it gives the [_vte_draw] back as it was; outside of the bracket
    unsetting fails and [_vte_draw_text] fails at its assertion. *)
Theorem set_cairo_brackets (draw draw1 : _vte_draw) (c : N) :
  _vte_draw_set_cairo draw (Some c) = Some draw1 →
  cr draw = None ∧ cr draw1 = Some c
  ∧ (∀ c', _vte_draw_set_cairo draw1 (Some c') = None)
  ∧ _vte_draw_set_cairo draw1 None = Some draw
  ∧ _vte_draw_set_cairo draw None = None
  ∧ (∀ h requests style, _vte_draw_text draw h requests style = None).
Proof.
  unfold _vte_draw_set_cairo. case_bool_decide as Hcr; [|done].
  intros [= <-]. cbn [cr set_cr]. split_and!; try done.
  - rewrite bool_decide_eq_true_2 by done. f_equal.
    destruct draw. unfold set_cr. cbn in *. by subst.
  - by rewrite bool_decide_eq_false_2 by (by intros ?).
  - intros h requests style. unfold _vte_draw_text. by rewrite Hcr.
Qed.

End cairo_context.

(** ** The further properties on the example font system *)

Lemma example_acquired_ok : world_ok example_acquired.
Proof.
  destruct (find_for_context_spec example_key empty_world empty_world_ok)
    as (p & w1 & fi & k & Hfind & Hok & _).
  assert (font_info_find_for_context example_key empty_world
          = Some (1%N, example_acquired)) as Hrun by (vm_compute; reflexivity).
  rewrite Hrun in Hfind. by injection Hfind as _ <-.
Qed.

Lemma create_for_context_shares_witness :
  ∃ p w1 w2,
    font_info_create_for_context example_context (Some example_bold_fontdesc) 7 0
      empty_world = Some (p, w1)
    ∧ font_info_create_for_context
        {| ctx_addr := 2; font_map_is_cairo := true; base_dir := 1;
           resolution := int_to_double 96;
           font_description := example_wide_fontdesc;
           font_options := Some cairo_font_options_create;
           language := 3; fontconfig_timestamp := 5 |}
        (Some example_bold_fontdesc) 7 0 w1 = Some (p, w2).
Proof.
  apply (create_for_context_shares empty_world example_context
           {| ctx_addr := 2; font_map_is_cairo := true; base_dir := 1;
              resolution := int_to_double 96;
              font_description := example_wide_fontdesc;
              font_options := Some cairo_font_options_create;
              language := 3; fontconfig_timestamp := 5 |}
           example_bold_fontdesc 7 0 empty_world_ok);
    vm_compute; reflexivity.
Defined.

Lemma referenced_font_survives_witness :
  ∃ w', main_loop_run_until 1000 example_acquired = Some w'
        ∧ heap w' !! 1%N = Some (heap_font example_acquired 1)
        ∧ world_ok w'.
Proof.
  apply (referenced_font_survives example_acquired 1 (heap_font example_acquired 1)
           1000 example_acquired_ok);
    vm_compute; reflexivity.
Defined.

Lemma reference_then_destroy_witness :
  font_info_reference (Some 1%N) example_acquired ≫= font_info_destroy (Some 1%N)
  = Some example_acquired.
Proof.
  apply (reference_then_destroy example_acquired 1 (heap_font example_acquired 1));
    vm_compute; reflexivity.
Defined.

Lemma release_twice_is_release_once_witness :
  ∃ w1,
    font_info_destroy (Some 1%N) example_acquired = Some w1
    ∧ font_info_destroy (Some 1%N) w1 = Some w1
    ∧ length (filter (fun s => source_data s = 1%N) (sources w1)) = 1%nat.
Proof.
  apply (release_twice_is_release_once example_acquired 1
           (heap_font example_acquired 1) example_acquired_ok);
    vm_compute; reflexivity.
Defined.

Lemma show_glyphs_within_run_length_witness :
  ∃ ops h',
    _vte_draw_text_internal example_draw example_heap
      (replicate 300 (example_request 65 0) ++ [example_request 8204 10]) 0
    = Some (ops, h')
    ∧ Forall batch_ok ops.
Proof.
  apply (show_glyphs_within_run_length example_draw example_heap
           (replicate 300 (example_request 65 0) ++ [example_request 8204 10])
           0 1 1 (example_font 1) (example_font 1) 1);
    vm_compute; reflexivity.
Defined.

Lemma draw_text_frame_witness :
  ∃ ops h' fi',
    _vte_draw_text_internal example_draw example_heap
      [example_request 65 0; example_request 8204 10] 1
    = Some (ops, h')
    ∧ (∀ q, q ≠ 2%N → h' !! q = example_heap !! q)
    ∧ h' !! 2%N = Some fi'
    ∧ same_font fi' (example_font 2).
Proof.
  apply (draw_text_frame example_draw example_heap
           [example_request 65 0; example_request 8204 10]
           1 2 1 (example_font 2) (example_font 1) 1);
    vm_compute; reflexivity.
Defined.

Lemma char_edges_within_cells_witness :
  ∃ left right h',
    _vte_draw_get_char_edges example_draw example_heap 65 1 0 = Some (left, right, h')
    ∧ 0 <= left ∧ right <= cell_width example_draw * 1
    ∧ right - left = width (font_info_get_unistr_info (example_font 1) 65).1.
Proof.
  apply (char_edges_within_cells example_draw example_heap 65 1 0 1 1
           (example_font 1) (example_font 1));
    vm_compute; repeat split; try reflexivity; intros ?; discriminate.
Defined.

Lemma every_style_has_a_font_witness :
  let style := _vte_draw_get_style true true in
  (style < 4)%nat
  ∧ Nat.testbit style 0 = true ∧ Nat.testbit style 1 = true
  ∧ ∃ p fi, draw_font (built_draw example_built_wide) style = Some (Some p)
            ∧ heap (built_world example_built_wide) !! p = Some fi.
Proof.
  apply (every_style_has_a_font _vte_draw_new example_widget example_wide_fontdesc
           (int_to_double 1) (int_to_double 1) empty_world).
  vm_compute. reflexivity.
Defined.

Lemma text_metrics_add_up_witness :
  let built :=
    _vte_draw_set_text_font _vte_draw_new example_widget example_fontdesc
      (int_to_double 2) (int_to_double 2) empty_world in
  ∃ p fi m,
    draw_font (built_draw built) VTE_DRAW_NORMAL = Some (Some p)
    ∧ heap (built_world built) !! p = Some fi
    ∧ _vte_draw_get_text_metrics (built_draw built) (heap (built_world built))
      = Some (Some m)
    ∧ metrics_cell_width m = int_times_double (info_width fi) (int_to_double 2)
    ∧ metrics_cell_height m = int_times_double (info_height fi) (int_to_double 2)
    ∧ metrics_char_ascent m + metrics_char_descent m = info_height fi
    ∧ (let spacing := metrics_char_spacing m in
       let dw := metrics_cell_width m - info_width fi in
       let dh := metrics_cell_height m - info_height fi in
       (-32768 <= border_left spacing <= 32767
        ∧ -32768 <= border_right spacing <= 32767
        ∧ -32768 <= border_top spacing <= 32767
        ∧ -32768 <= border_bottom spacing <= 32767)
       ∧ (0 <= dw <= 65534 →
          border_left spacing + border_right spacing = dw
          ∧ 0 <= border_left spacing <= border_right spacing
          ∧ border_right spacing <= border_left spacing + 1)
       ∧ (-65537 <= dw < 0 →
          border_left spacing + border_right spacing = dw + 1)
       ∧ (0 <= dh <= 65534 →
          0 <= border_bottom spacing <= border_top spacing
          ∧ border_top spacing <= border_bottom spacing + 1
          ∧ metrics_cell_height m
            = border_top spacing + metrics_char_ascent m + metrics_char_descent m
              + border_bottom spacing)
       ∧ (65534 < dw → border_left spacing + border_right spacing < dw)).
Proof.
  apply (text_metrics_add_up _vte_draw_new example_widget example_fontdesc
           (int_to_double 2) (int_to_double 2) empty_world).
  vm_compute. reflexivity.
Defined.

(** A cell that is ten thousand times as wide as the font, which is 10
    pixels wide: each border should be 49995, and is stored as -15541. *)
Lemma text_metrics_wrap_example :
  ∃ draw w,
    _vte_draw_set_text_font _vte_draw_new example_widget example_fontdesc
      (int_to_double 10000) (int_to_double 1) empty_world = Some (draw, w)
    ∧ cell_width draw = 100000
    ∧ info_width (heap_font w 1) = 10
    ∧ border_left (char_spacing draw) = -15541
    ∧ border_right (char_spacing draw) = -15541.
Proof.
  exists (built_draw (_vte_draw_set_text_font _vte_draw_new example_widget
                        example_fontdesc (int_to_double 10000) (int_to_double 1)
                        empty_world)),
    (built_world (_vte_draw_set_text_font _vte_draw_new example_widget
                    example_fontdesc (int_to_double 10000) (int_to_double 1)
                    empty_world)).
  split_and!; vm_compute; reflexivity.
Qed.

Lemma set_cairo_brackets_witness :
  cr _vte_draw_new = None ∧ cr (set_cr _vte_draw_new (Some 1%N)) = Some 1%N
  ∧ (∀ c', _vte_draw_set_cairo (set_cr _vte_draw_new (Some 1%N)) (Some c') = None)
  ∧ _vte_draw_set_cairo (set_cr _vte_draw_new (Some 1%N)) None = Some _vte_draw_new
  ∧ _vte_draw_set_cairo _vte_draw_new None = None
  ∧ (∀ h requests style, _vte_draw_text _vte_draw_new h requests style = None).
Proof.
  apply (set_cairo_brackets _vte_draw_new (set_cr _vte_draw_new (Some 1%N)) 1).
  reflexivity.
Defined.

(** ** The graphics VTE draws itself *)

Section graphics.

Lemma RECTANGLE_within x y w h xdenom ydenom xb1 yb1 xb2 yb2 :
  1 <= w → 1 <= h →
  0 <= xb1 < xb2 → xb2 <= xdenom →
  0 <= yb1 < yb2 → yb2 <= ydenom →
  within_cell x y w h (RECTANGLE x y w h xdenom ydenom xb1 yb1 xb2 yb2).
Proof.
  intros Hw Hh Hx Hxd Hy Hyd.
  assert (∀ s b1 b2 d, 1 <= s → 0 <= b1 < b2 → b2 <= d →
            0 <= Z.quot (s * b1) d <= Z.quot (s * b2) d
            ∧ Z.quot (s * b2) d <= s ∧ Z.quot (s * b1) d < s) as Hq.
  { intros s b1 b2 d Hs Hb Hd. rewrite !Z.quot_div_nonneg by nia.
    split_and!.
    - apply Z.div_pos; nia.
    - apply Z.div_le_mono; nia.
    - apply Z.div_le_upper_bound; nia.
    - apply Z.div_lt_upper_bound; nia. }
  destruct (Hq w xb1 xb2 xdenom) as (? & ? & ?); [done..|].
  destruct (Hq h yb1 yb2 ydenom) as (? & ? & ?); [done..|].
  unfold within_cell, RECTANGLE, rectangle_between.
  cbn [fill_x fill_y fill_width fill_height]. lia.
Qed.

(** The boundaries [s * b / d] of a grid of [d] parts of [s] pixels, for
    [d <= s]: they start at 0, grow strictly and end at [s]. *)
Lemma quot_grid s d b b' :
  0 < d <= s → 0 <= b → b' = b + 1 →
  Z.quot (s * b) d + 1 <= Z.quot (s * b') d.
Proof.
  intros Hd Hb ->. rewrite !Z.quot_div_nonneg by nia.
  replace (s * (b + 1)) with (s * b + s) by lia.
  transitivity ((s * b + 1 * d) / d).
  - rewrite Z.div_add by lia. lia.
  - apply Z.div_le_mono; lia.
Qed.

Lemma quot_grid_ends s d :
  d ≠ 0 → Z.quot (s * 0) d = 0 ∧ Z.quot (s * d) d = s.
Proof.
  intros Hd. split.
  - by rewrite Z.mul_0_r, Z.quot_0_l.
  - by apply Z.quot_mul.
Qed.

Lemma quot_half s : 0 <= s → Z.quot (s * 1) 2 = Z.quot (s * 4) 8.
Proof. intros Hs. Z.to_euclidean_division_equations. lia. Qed.

Ltac grid_step s d b b' :=
  pose proof (quot_grid s d b b' ltac:(lia) ltac:(lia) eq_refl).

Ltac grid_facts s d :=
  pose proof (quot_grid_ends s d ltac:(lia)) as [? ?];
  grid_step s d 0 1;
  first [grid_step s d 1 2 | idtac];
  first [grid_step s d 2 3 | idtac];
  first [grid_step s d 3 4 | idtac];
  first [grid_step s d 4 5 | idtac];
  first [grid_step s d 5 6 | idtac];
  first [grid_step s d 6 7 | idtac];
  first [grid_step s d 7 8 | idtac].

Lemma foldl_ext_all {A B} (f g : A → B → A) (a : A) (l : list B) :
  (∀ a b, f a b = g a b) → foldl f a l = foldl g a l.
Proof.
  intros Hfg. revert a. induction l as [|b l IH]; intros a; [done|].
  cbn [foldl]. by rewrite Hfg, IH.
Qed.

(** The loops that shift a bitmap through the cells of a grid fill the
    rectangle of a cell when the bit of its position is set. *)
Lemma bitmap_cells_elem {A} (g : A → cairo_rectangle) (cells : list A)
    (bitmap : Z) (out : list cairo_rectangle) (r : cairo_rectangle) :
  r ∈ (foldl (fun st cell =>
                (Z.shiftr st.1 1,
                 if Z.testbit st.1 0 then st.2 ++ [g cell] else st.2))
         (bitmap, out) cells).2
  ↔ r ∈ out
    ∨ ∃ k cell, cells !! k = Some cell
                ∧ Z.testbit bitmap (Z.of_nat k) = true ∧ r = g cell.
Proof.
  revert bitmap out. induction cells as [|c cs IH]; intros bitmap out.
  - cbn [foldl snd]. split; [by left|]. intros [?|(k & cell & Hk & _)]; done.
  - cbn [foldl]. rewrite IH. cbn [fst snd]. split.
    + intros [Hin|(k & cell & Hk & Hbit & ->)].
      * destruct (Z.testbit bitmap 0) eqn:Hb; [|by left].
        apply elem_of_app in Hin as [Hin|Hin]; [by left|].
        apply list_elem_of_singleton in Hin as ->.
        right. by exists 0%nat, c.
      * right. exists (S k), cell. split; [done|]. split; [|done].
        rewrite Z.shiftr_spec in Hbit by lia.
        by replace (Z.of_nat (S k)) with (Z.of_nat k + 1) by lia.
    + intros [Hin|(k & cell & Hk & Hbit & ->)].
      * left. destruct (Z.testbit bitmap 0); [|done].
        apply elem_of_app. by left.
      * destruct k as [|k].
        -- injection Hk as ->. left. change (Z.of_nat 0) with 0 in Hbit. rewrite Hbit.
           apply elem_of_app. right. by apply list_elem_of_singleton.
        -- right. exists k, cell. split; [done|]. split; [|done].
           rewrite Z.shiftr_spec by lia.
           by replace (Z.of_nat k + 1) with (Z.of_nat (S k)) by lia.
Qed.

Lemma sextant_rectangles_elem bitmap x y width height r :
  r ∈ sextant_rectangles bitmap x y width height
  ↔ ∃ xi yi, 0 <= xi < 2 ∧ 0 <= yi < 3
             ∧ Z.testbit bitmap (2 * yi + xi) = true
             ∧ r = RECTANGLE x y width height 2 3 xi yi (xi + 1) (yi + 1).
Proof.
  unfold sextant_rectangles.
  rewrite (foldl_ext_all _
             (fun st cell =>
                (Z.shiftr st.1 1,
                 if Z.testbit st.1 0
                 then st.2 ++ [(fun '(yi, xi) =>
                                  RECTANGLE x y width height 2 3 xi yi (xi + 1) (yi + 1))
                                 cell]
                 else st.2)))
    by (by intros [??] [??]).
  rewrite bitmap_cells_elem. split.
  - intros [Hin|(k & [yi xi] & Hk & Hbit & ->)]; [by apply elem_of_nil in Hin|].
    exists xi, yi.
    do 6 (destruct k as [|k]; [injection Hk as <- <-; split_and!; (lia || done)|]).
    done.
  - intros (xi & yi & Hxi & Hyi & Hbit & ->). right.
    exists (Z.to_nat (2 * yi + xi)), (yi, xi).
    rewrite Z2Nat.id by lia. split; [|done].
    assert (yi = 0 ∨ yi = 1 ∨ yi = 2) as [->|[->| ->]] by lia;
      (assert (xi = 0 ∨ xi = 1) as [->| ->] by lia); reflexivity.
Qed.


Ltac range_hyps :=
  repeat match goal with
  | H : (_ && _) = true |- _ => apply andb_true_iff in H as [? ?]
  | H : (_ <=? _)%N = true |- _ => apply N.leb_le in H
  | H : (_ =? _)%N = true |- _ => apply N.eqb_eq in H
  | H : (_ <=? _) = true |- _ => apply Z.leb_le in H
  | H : (_ <=? _) = false |- _ => apply Z.leb_gt in H
  end.

Ltac rectangles_within :=
  range_hyps;
  repeat first
    [ apply Forall_nil_2
    | apply Forall_cons_2; [apply RECTANGLE_within; lia|] ].

(** X16.  For the characters that [_vte_draw_terminal_draw_graphic] draws
    with the macro RECTANGLE alone, the block elements, the sextants and
    the eighth blocks, every rectangle that is filled lies within the cell
    of the character and has at least one pixel, in a cell of at least one
    pixel each way (and of less than 2^28, so that no product overflows):
    they never paint over a neighbouring cell. *)
Theorem graphic_rectangles_within_cell (c : vteunistr) (x y width height : Z)
    (l : list cairo_rectangle) :
  1 <= width < 2 ^ 28 → 1 <= height < 2 ^ 28 →
  graphic_rectangles c x y width height = Some l →
  Forall (within_cell x y width height) l.
Proof.
  intros Hw Hh. unfold graphic_rectangles. cbv zeta.
  repeat match goal with
  | |- (if ?b then Some _ else _) = Some _ → _ =>
      destruct b eqn:?;
        [intros [= <-];
         first
           [ solve [rectangles_within]
           | solve [range_hyps; constructor; [|done];
                    unfold to_guint; rewrite Z.mod_small by nia;
                    first
                      [ apply (RECTANGLE_within x y width height 1 8
                                 0 (Z.of_N (9608 - c)) 1 8); lia
                      | apply (RECTANGLE_within x y width height 8 1
                                 0 0 (Z.of_N (9616 - c)) 1); lia ]]
           | solve [apply Forall_forall; intros r Hr;
                    apply sextant_rectangles_elem in Hr
                      as (xi & yi & ? & ? & _ & ->);
                    apply RECTANGLE_within; lia]
           | solve [match goal with
                    | |- context [if ?t then _ else _] => destruct t eqn:?
                    end; rectangles_within] ]|]
  end.
  destruct (_ || _); [done|]. intros [= <-]. constructor.
Qed.

(** X17.  The sextants U+1FB00 to U+1FB3B get the sixty bitmaps of six
    cells other than the empty one, the full one and the two that are the
    left and the right half block: each character its own, and every such
    bitmap a character. *)
Theorem sextant_bitmaps :
  (∀ c, (0x1fb00 <= c <= 0x1fb3b)%N →
        1 <= sextant_bitmap c <= 62
        ∧ sextant_bitmap c ≠ 0x15 ∧ sextant_bitmap c ≠ 0x2a)
  ∧ (∀ c c', (0x1fb00 <= c <= 0x1fb3b)%N → (0x1fb00 <= c' <= 0x1fb3b)%N →
             sextant_bitmap c = sextant_bitmap c' → c = c')
  ∧ (∀ b, 1 <= b <= 62 → b ≠ 0x15 → b ≠ 0x2a →
          ∃ c, (0x1fb00 <= c <= 0x1fb3b)%N ∧ sextant_bitmap c = b).
Proof.
  assert (∀ c, sextant_bitmap c
               = let b := Z.of_N c - 0x1fb00 + 1 in
                 if b <? 0x15 then b else if b <? 0x29 then b + 1 else b + 2) as Hb.
  { intros c. unfold sextant_bitmap. cbv zeta.
    repeat match goal with
           | |- context [?a <=? ?b] => destruct (Z.leb_spec a b)
           | |- context [?a <? ?b] => destruct (Z.ltb_spec a b)
           end; lia. }
  split_and!.
  - intros c Hc. rewrite Hb. cbv zeta.
    repeat match goal with
           | |- context [?a <? ?b] => destruct (Z.ltb_spec a b)
           end; lia.
  - intros c c' Hc Hc'. rewrite !Hb. cbv zeta.
    repeat match goal with
           | |- context [?a <? ?b] => destruct (Z.ltb_spec a b)
           end; lia.
  - intros b Hb1 Hb2 Hb3.
    exists (Z.to_N (0x1fb00 + (if b <? 0x15 then b - 1
                               else if b <? 0x2a then b - 2 else b - 3))).
    rewrite Hb. cbv zeta.
    repeat match goal with
           | |- context [?a <? ?b] => destruct (Z.ltb_spec a b)
           end; lia.
Qed.

Lemma painted_nil px py : ¬ painted [] px py.
Proof. intros (r & Hin & _). by apply elem_of_nil in Hin. Qed.

Lemma painted_cons r l px py :
  painted (r :: l) px py ↔ inside r px py ∨ painted l px py.
Proof.
  unfold painted. split.
  - intros (r' & Hin & Hr). apply elem_of_cons in Hin as [->|Hin]; [by left|].
    right. by exists r'.
  - intros [Hr|(r' & Hin & Hr)].
    + exists r. split; [apply elem_of_cons; by left|done].
    + exists r'. split; [apply elem_of_cons; by right|done].
Qed.

Lemma painted_singleton r px py : painted [r] px py ↔ inside r px py.
Proof. rewrite painted_cons. pose proof (painted_nil px py). tauto. Qed.

Lemma graphic_rectangles_sextant c x y width height :
  (0x1fb00 <= c <= 0x1fb3b)%N →
  graphic_rectangles c x y width height
  = Some (sextant_rectangles (sextant_bitmap c) x y width height).
Proof.
  intros Hc. unfold graphic_rectangles. cbv zeta.
  repeat match goal with
  | |- (if ?b then _ else _) = _ =>
      let E := fresh in
      destruct b eqn:E; [first [reflexivity | exfalso; range_hyps; lia]|]
  end.
  exfalso.
  match goal with
  | E : ((0x1fb00 <=? c) && (c <=? 0x1fb3b))%N = false |- _ =>
      apply andb_false_iff in E as [E|E]; apply N.leb_gt in E; lia
  end.
Qed.

Lemma and_iff_both (A B C D : Prop) : (A ↔ B) → (C ↔ D) → (A ∧ C ↔ B ∧ D).
Proof. tauto. Qed.

(** The cell of a grid of two columns and [rows] rows that the macro
    RECTANGLE fills holds the pixels of its column and its row. *)
Lemma RECTANGLE_inside_cell rows x y width height xi yi px py :
  rows = 2 ∨ rows = 3 →
  2 <= width → rows <= height →
  0 <= xi < 2 → 0 <= yi < rows →
  x <= px < x + width → y <= py < y + height →
  inside (RECTANGLE x y width height 2 rows xi yi (xi + 1) (yi + 1)) px py
  ↔ pixel_column x width px = xi ∧ pixel_row rows y height py = yi.
Proof.
  intros Hrows Hw Hh Hxi Hyi Hpx Hpy.
  unfold inside, RECTANGLE, rectangle_between, pixel_column, pixel_row.
  cbn [fill_x fill_y fill_width fill_height].
  apply and_iff_both.
  - grid_facts width 2.
    destruct (px - x <? Z.quot (width * 1) 2) eqn:Ex;
      [apply Z.ltb_lt in Ex|apply Z.ltb_ge in Ex];
      (assert (xi = 0 ∨ xi = 1) as [->| ->] by lia);
      change (0 + 1) with 1; change (1 + 1) with 2; lia.
  - destruct Hrows as [->| ->];
      [grid_facts height 2|grid_facts height 3];
      (destruct (py - y <? Z.quot (height * 1) _) eqn:Ey1;
       [apply Z.ltb_lt in Ey1
       |apply Z.ltb_ge in Ey1;
        destruct (py - y <? Z.quot (height * 2) _) eqn:Ey2;
        [apply Z.ltb_lt in Ey2|apply Z.ltb_ge in Ey2]]);
      (assert (yi = 0 ∨ yi = 1 ∨ yi = 2) as [->|[->| ->]] by lia);
      change (0 + 1) with 1; change (1 + 1) with 2; change (2 + 1) with 3; lia.
Qed.

(** X18.  A sextant paints the pixels of the cells whose bits are set in
    its bitmap, and no other pixel of the cell of the character: the cell
    is cut in two columns at [width / 2] and in three rows at [height / 3]
    and [height * 2 / 3], and bit [2 * row + column] stands for the cell of
    that row and column. *)
Theorem sextant_cells (c : vteunistr) (x y width height px py : Z) :
  (0x1fb00 <= c <= 0x1fb3b)%N →
  2 <= width → 3 <= height →
  x <= px < x + width → y <= py < y + height →
  ∃ l, graphic_rectangles c x y width height = Some l
       ∧ (painted l px py
          ↔ Z.testbit (sextant_bitmap c)
              (2 * pixel_row 3 y height py + pixel_column x width px) = true).
Proof.
  intros Hc Hw Hh Hpx Hpy. eexists. split; [by apply graphic_rectangles_sextant|].
  split.
  - intros (r & Hin & Hr).
    apply sextant_rectangles_elem in Hin as (xi & yi & Hxi & Hyi & Hbit & ->).
    apply (RECTANGLE_inside_cell 3) in Hr as [-> ->]; try done; lia.
  - intros Hbit.
    assert (0 <= pixel_column x width px < 2) as Hcol
      by (unfold pixel_column; destruct (_ <? _); lia).
    assert (0 <= pixel_row 3 y height py < 3) as Hrow
      by (unfold pixel_row; repeat destruct (_ <? _); lia).
    eexists. split.
    + apply sextant_rectangles_elem. by eexists _, _.
    + apply (RECTANGLE_inside_cell 3); try done; lia.
Qed.


Lemma painted_two r1 r2 px py :
  painted [r1; r2] px py ↔ inside r1 px py ∨ inside r2 px py.
Proof. by rewrite painted_cons, painted_singleton. Qed.

Ltac pixel_cases :=
  repeat match goal with
         | |- context [if ?a <? ?b then _ else _] =>
             let E := fresh "E" in
             destruct (a <? b) eqn:E; [apply Z.ltb_lt in E|apply Z.ltb_ge in E]
         end.

Ltac pixel_arith :=
  match goal with
  | |- _ ↔ true = true => split; [done|intros _; lia]
  | |- _ ↔ false = true => split; [intros ?; exfalso; lia|done]
  | |- _ ↔ _ => lia
  end.

(** X19.  In a cell of at least 2 pixels each way the quadrant
    characters U+2596 to U+259F paint the quadrants that their Unicode
    names say, and no other pixel of the cell: the cell is cut at
    [width / 2] and at [height / 2]. *)
Theorem quadrant_cells (c : vteunistr) (x y width height px py : Z) :
  (0x2596 <= c <= 0x259f)%N →
  2 <= width → 2 <= height →
  x <= px < x + width → y <= py < y + height →
  ∃ l, graphic_rectangles c x y width height = Some l
       ∧ (painted l px py
          ↔ Z.testbit (quadrant_bitmap c)
              (2 * pixel_row 2 y height py + pixel_column x width px) = true).
Proof.
  intros Hc Hw Hh Hpx Hpy.
  assert (c = 0x2596 ∨ c = 0x2597 ∨ c = 0x2598 ∨ c = 0x2599 ∨ c = 0x259a
          ∨ c = 0x259b ∨ c = 0x259c ∨ c = 0x259d ∨ c = 0x259e ∨ c = 0x259f)%N
    as Hcases by lia.
  unfold pixel_row, pixel_column.
  grid_facts width 2. grid_facts height 2.
  repeat (destruct Hcases as [->|Hcases]); [..|subst c];
    (eexists; split; [reflexivity|]);
    rewrite ?painted_two, ?painted_singleton;
    unfold inside, RECTANGLE, rectangle_between;
    cbn [fill_x fill_y fill_width fill_height];
    pixel_cases;
    match goal with
    | |- context [Z.testbit ?a ?b] =>
        let t := constr:(Z.testbit a b) in
        let v := eval vm_compute in t in
        change t with v
    end;
    pixel_arith.
Qed.

(** X20.  In a cell of at least 8 pixels each way (and of less than 2^28)
    the eighth blocks of Unicode cut the cell at the same lines from both
    sides: for [n] from 1 to 7 the upper [n] eighths and the lower [8 - n]
    eighths paint each pixel of the cell exactly once between them, the
    first above and the second from [height * n / 8], and so do the left
    [n] eighths and the right [8 - n] eighths at [width * n / 8].  In a
    smaller cell the macro RECTANGLE makes an eighth that would be empty
    one pixel wide, and the two blocks can overlap. *)
Theorem eighth_blocks_partition (n x y width height px py : Z) :
  1 <= n <= 7 →
  8 <= width < 2 ^ 28 → 8 <= height < 2 ^ 28 →
  x <= px < x + width → y <= py < y + height →
  ∃ upper lower left right,
    graphic_rectangles (upper_eighths n) x y width height = Some upper
    ∧ graphic_rectangles (lower_eighths (8 - n)) x y width height = Some lower
    ∧ graphic_rectangles (left_eighths n) x y width height = Some left
    ∧ graphic_rectangles (right_eighths (8 - n)) x y width height = Some right
    ∧ (painted upper px py ↔ py - y < Z.quot (height * n) 8)
    ∧ (painted lower px py ↔ Z.quot (height * n) 8 <= py - y)
    ∧ (painted left px py ↔ px - x < Z.quot (width * n) 8)
    ∧ (painted right px py ↔ Z.quot (width * n) 8 <= px - x).
Proof.
  intros Hn Hw Hh Hpx Hpy.
  assert (n = 1 ∨ n = 2 ∨ n = 3 ∨ n = 4 ∨ n = 5 ∨ n = 6 ∨ n = 7) as Hcases by lia.
  grid_facts width 8. grid_facts height 8.
  grid_facts width 2. grid_facts height 2.
  pose proof (quot_grid_ends width 1 ltac:(lia)) as [? ?].
  pose proof (quot_grid_ends height 1 ltac:(lia)) as [? ?].
  pose proof (quot_half width ltac:(lia)) as Hwhalf.
  pose proof (quot_half height ltac:(lia)) as Hhhalf.
  repeat (destruct Hcases as [->|Hcases]); [..|subst n];
    (eexists _, _, _, _; do 4 (split; [reflexivity|]));
    rewrite !painted_singleton;
    unfold inside, RECTANGLE, rectangle_between, to_guint;
    cbn [fill_x fill_y fill_width fill_height];
    repeat match goal with
           | |- context [Z.of_N ?a] =>
               let t := constr:(Z.of_N a) in
               let v := eval vm_compute in t in
               change t with v
           end;
    repeat match goal with
           | |- context [Z.quot (?s * ?k) ?d] =>
               lazymatch k with
               | Zpos _ => fail
               | Z0 => fail
               | _ => let v := eval vm_compute in k in change k with v
               end
           end;
    rewrite ?Z.mod_small by lia;
    split_and!; pixel_arith.
Qed.


Lemma graphic_rectangles_blank c x y width height :
  (0x1fbaf <= c <= 0x1fbff)%N ∨ c = 0x1fb93%N →
  graphic_rectangles c x y width height = Some [].
Proof.
  intros [Hc| ->]; [|reflexivity].
  unfold graphic_rectangles. cbv zeta.
  repeat match goal with
  | |- (if ?b then Some _ else _) = _ =>
      let E := fresh in
      destruct b eqn:E; [exfalso; range_hyps; lia|]
  end.
  destruct (_ || _) eqn:E; [|reflexivity].
  exfalso. repeat (apply orb_true_iff in E as [E|E]); range_hyps; lia.
Qed.

(** The thirds of [create_mosaic_separation_pattern] against those of the
    macro RECTANGLE. *)
Lemma quot_thirds h :
  0 <= h →
  Z.quot (h * 1) 3 = Z.quot h 3
  ∧ Z.quot (h * 2) 3 = 2 * Z.quot h 3 + (if Z.rem h 3 =? 2 then 1 else 0)
  ∧ Z.rem h 3 = h - 3 * Z.quot h 3
  ∧ 0 <= Z.rem h 3 < 3.
Proof.
  intros Hh. rewrite Z.mul_1_r.
  destruct (Z.rem h 3 =? 2) eqn:E;
    [apply Z.eqb_eq in E|apply Z.eqb_neq in E];
    Z.to_euclidean_division_equations; lia.
Qed.

(** X21.  The mask of a separated mosaic.  Its line thickness is at least
    one pixel.  In a cell that is not wider than two lines or not higher
    than three the mask is empty, and nothing of the character is shown.
    Otherwise the mask has six blocks, one in each cell of the grid of the
    sextants: a block leaves the columns of a line blank at the left of its
    cell and the rows of a line at the bottom.  When the height is 1 more
    than a multiple of 3 the mask puts the boundary of the middle and the
    bottom row one pixel lower than the sextants do: the middle block
    leaves one row less, and the bottom block starts one row below the top
    of its cell. *)
Theorem separated_mosaic_blocks (draw : _vte_draw) (c : vteunistr)
    (font_width columns : Z) :
  _vte_draw_is_separable_mosaic c = true →
  let width := cell_width draw * columns in
  let height := cell_height draw in
  let pel := (graphic_line_widths c font_width).1 in
  let low := if Z.rem height 3 =? 1 then 1 else 0 in
  ∃ mask,
    graphic_separation draw c true font_width columns = Some mask
    ∧ 1 <= pel
    ∧ (width <= 2 * pel ∨ height <= 3 * pel → mask = [])
    ∧ (2 * pel < width → 3 * pel < height →
       length mask = 6%nat
       ∧ ∀ xi yi, 0 <= xi < 2 → 0 <= yi < 3 →
           ∃ m, mask !! Z.to_nat (2 * yi + xi) = Some m
                ∧ let s := RECTANGLE 0 0 width height 2 3 xi yi (xi + 1) (yi + 1) in
                  fill_x m = fill_x s + pel
                  ∧ fill_x m + fill_width m = fill_x s + fill_width s
                  ∧ fill_y m = fill_y s + (if yi =? 2 then low else 0)
                  ∧ fill_y m + fill_height m
                    = fill_y s + fill_height s - pel + (if yi =? 1 then low else 0)).
Proof.
  intros Hsep width height pel low.
  unfold graphic_separation. rewrite Hsep. cbn [andb]. fold width height pel.
  eexists. split; [reflexivity|].
  assert (1 <= pel) as Hpel by (unfold pel, graphic_line_widths; cbn [fst]; lia).
  split; [done|]. clearbody width height pel.
  unfold create_mosaic_separation_pattern. cbv zeta. split.
  - intros Hsmall.
    destruct (2 * pel <? width) eqn:E1; [|done].
    destruct (3 * pel <? height) eqn:E2; [|done]. lia.
  - intros Hw Hh.
    destruct (2 * pel <? width) eqn:E1; [|lia].
    destruct (3 * pel <? height) eqn:E2; [|lia].
    cbn [andb]. split; [reflexivity|].
    intros xi yi Hxi Hyi.
    destruct (quot_thirds height) as (Ht1 & Ht2 & Hrem & Hrange); [lia|].
    grid_facts width 2. grid_facts height 3.
    assert (Z.quot (width * 1) 2 = Z.quot width 2) as Hhalf by (by rewrite Z.mul_1_r).
    unfold low.
    assert (yi = 0 ∨ yi = 1 ∨ yi = 2) as [->|[->| ->]] by lia;
      (assert (xi = 0 ∨ xi = 1) as [->| ->] by lia);
      (eexists; split; [reflexivity|]);
      unfold RECTANGLE, rectangle_between;
      cbn [fill_x fill_y fill_width fill_height Z.eqb Pos.eqb
           lookup_total list_lookup_total];
      change (0 + 1) with 1; change (1 + 1) with 2; change (2 + 1) with 3;
      (destruct (Z.rem height 3 =? 2) eqn:R2;
       [apply Z.eqb_eq in R2|apply Z.eqb_neq in R2]);
      (destruct (Z.rem height 3 =? 1) eqn:R1;
       [apply Z.eqb_eq in R1|apply Z.eqb_neq in R1]);
      (destruct (height - 3 * Z.quot height 3 =? 0) eqn:R0;
       [apply Z.eqb_eq in R0|apply Z.eqb_neq in R0]);
      lia.
Qed.

(** The boundaries of the five columns of a box drawing character are in
    order, the three in the middle apart, when the cell has room for the
    heavy line. *)
Lemma box_drawing_boundaries_order c font_width size :
  let light := (graphic_line_widths c font_width).1 in
  let heavy := (graphic_line_widths c font_width).2 in
  heavy <= size →
  1 <= light ∧ light + 2 <= heavy
  ∧ ∃ b1 b2 b3 b4,
      box_drawing_boundaries size (Z.quot size 2) light heavy
      = [0; b1; b2; b3; b4; size]
      ∧ 0 <= b1 ∧ b1 < b2 ∧ b2 < b3 ∧ b3 < b4 ∧ b4 <= size
      ∧ b3 - b2 = light ∧ b4 - b1 = heavy
      ∧ b2 <= Z.quot size 2 < b3.
Proof.
  intros light heavy Hsize.
  assert (1 <= light ∧ light + 2 <= heavy) as [Hl Hh].
  { unfold light, heavy, graphic_line_widths. cbn [fst snd].
    destruct (_ && _); lia. }
  clearbody light heavy. split; [done|]. split; [done|].
  eexists _, _, _, _. split; [reflexivity|].
  Z.to_euclidean_division_equations. lia.
Qed.

Lemma box_drawing_rectangles_elem bitmap x y xb yb r :
  r ∈ box_drawing_rectangles bitmap x y xb yb
  ↔ ∃ xi yi : nat,
      (xi < 5)%nat ∧ (yi < 5)%nat
      ∧ Z.testbit bitmap (Z.of_nat (5 * (4 - yi) + (4 - xi))) = true
      ∧ r = {| fill_x := x + xb !!! xi; fill_y := y + yb !!! yi;
               fill_width := xb !!! S xi - xb !!! xi;
               fill_height := yb !!! S yi - yb !!! yi |}.
Proof.
  unfold box_drawing_rectangles.
  rewrite (foldl_ext_all _
             (fun st cell =>
                (Z.shiftr st.1 1,
                 if Z.testbit st.1 0
                 then st.2 ++ [(fun '(yi, xi) =>
                                  {| fill_x := x + xb !!! xi; fill_y := y + yb !!! yi;
                                     fill_width := xb !!! S xi - xb !!! xi;
                                     fill_height := yb !!! S yi - yb !!! yi |})
                                 cell]
                 else st.2)))
    by (by intros [??] [??]).
  rewrite bitmap_cells_elem. split.
  - intros [Hin|(k & [yi xi] & Hk & Hbit & ->)]; [by apply elem_of_nil in Hin|].
    exists xi, yi.
    do 25 (destruct k as [|k]; [injection Hk as <- <-; split_and!; (lia || done)|]).
    done.
  - intros (xi & yi & Hxi & Hyi & Hbit & ->). right.
    exists (5 * (4 - yi) + (4 - xi))%nat, (yi, xi). split; [|done].
    do 5 (destruct yi as [|yi]; [do 5 (destruct xi as [|xi]; [reflexivity|]); lia|]).
    lia.
Qed.

(** X22.  The box drawing characters that have a bitmap are drawn on a
    grid of five columns and five rows.  The bits of the bitmap are taken
    from the lowest, which stands for the last column of the last row, and
    a cell of the grid is filled when its bit is set.  When the cell of the
    character has room for the heavy line every rectangle lies within it;
    the middle column is as wide as the light line and holds the centre,
    and the three in the middle together are as wide as the heavy line. *)
Theorem box_drawing_grid (c : vteunistr) (font_width bitmap x y width height : Z) :
  let light := (graphic_line_widths c font_width).1 in
  let heavy := (graphic_line_widths c font_width).2 in
  let xb := box_drawing_boundaries width (Z.quot width 2) light heavy in
  let yb := box_drawing_boundaries height (Z.quot height 2) light heavy in
  let cell (xi yi : nat) :=
    {| fill_x := x + xb !!! xi; fill_y := y + yb !!! yi;
       fill_width := xb !!! S xi - xb !!! xi;
       fill_height := yb !!! S yi - yb !!! yi |} in
  heavy <= width → heavy <= height →
  (∀ r, r ∈ box_drawing_rectangles bitmap x y xb yb
        ↔ ∃ xi yi : nat,
            (xi < 5)%nat ∧ (yi < 5)%nat
            ∧ Z.testbit bitmap (Z.of_nat (5 * (4 - yi) + (4 - xi))) = true
            ∧ r = cell xi yi)
  ∧ (∀ xi yi : nat, (xi < 5)%nat → (yi < 5)%nat →
       x <= fill_x (cell xi yi) ∧ 0 <= fill_width (cell xi yi)
       ∧ fill_x (cell xi yi) + fill_width (cell xi yi) <= x + width
       ∧ y <= fill_y (cell xi yi) ∧ 0 <= fill_height (cell xi yi)
       ∧ fill_y (cell xi yi) + fill_height (cell xi yi) <= y + height)
  ∧ fill_width (cell 2%nat 2%nat) = light ∧ fill_height (cell 2%nat 2%nat) = light
  ∧ inside (cell 2%nat 2%nat) (x + Z.quot width 2) (y + Z.quot height 2)
  ∧ fill_width (cell 1%nat 2%nat) + fill_width (cell 2%nat 2%nat) + fill_width (cell 3%nat 2%nat) = heavy
  ∧ fill_height (cell 2%nat 1%nat) + fill_height (cell 2%nat 2%nat) + fill_height (cell 2%nat 3%nat) = heavy.
Proof.
  intros light heavy xb yb cell Hw Hh.
  split; [intros r; apply box_drawing_rectangles_elem|].
  destruct (box_drawing_boundaries_order c font_width width Hw)
    as (Hl & Hlh & a1 & a2 & a3 & a4 & Hxb & Ha).
  destruct (box_drawing_boundaries_order c font_width height Hh)
    as (_ & _ & b1 & b2 & b3 & b4 & Hyb & Hb).
  fold light heavy in Hxb, Hyb, Hl, Hlh, Ha, Hb. fold xb in Hxb. fold yb in Hyb.
  subst cell. cbv beta. unfold inside. cbn [fill_x fill_y fill_width fill_height].
  rewrite Hxb, Hyb. clearbody light heavy. clear xb yb Hxb Hyb.
  split_and!; try (cbn; lia).
  intros xi yi Hxi Hyi.
  do 5 (destruct xi as [|xi]; [do 5 (destruct yi as [|yi]; [cbn; lia|]); lia|]).
  lia.
Qed.

(** X23.  [_vte_draw_draw_line] fills the rectangle that starts at the
    first point and is at least [line_width] wide and high.  It holds the
    second point when that is not to the left of the first one or above it,
    and only then: a line given from its right or lower end is a square of
    the line width at that end.  Without a cairo context the call fails at
    the assertion of [_vte_draw_fill_rectangle]. *)
Theorem draw_line_covers (draw : _vte_draw) (x y xp yp line_width : Z) :
  match _vte_draw_draw_line draw x y xp yp line_width with
  | Some r =>
      cr draw ≠ None
      ∧ fill_x r = x ∧ fill_y r = y
      ∧ line_width <= fill_width r ∧ line_width <= fill_height r
      ∧ (inside r xp yp ↔ x <= xp ∧ y <= yp)
      ∧ (1 <= line_width → xp < x → fill_width r = line_width)
      ∧ (1 <= line_width → yp < y → fill_height r = line_width)
      ∧ (1 <= line_width → yp = y → x <= xp →
         ∀ px py, inside r px py
                  ↔ y <= py < y + line_width
                    ∧ x <= px < x + Z.max line_width (xp - x + 1))
  | None => cr draw = None
  end.
Proof.
  unfold _vte_draw_draw_line, _vte_draw_fill_rectangle.
  destruct (cr draw); cbn [mbind option_bind]; [|done].
  unfold inside. cbn [fill_x fill_y fill_width fill_height].
  split_and!; try done; lia.
Qed.

End graphics.

Section graphics_text.
Context `{Collaborators}.

(** X24.  The characters U+1FBAF to U+1FBFF, and U+1FB93, are taken for
    graphics that VTE draws itself, and [_vte_draw_terminal_draw_graphic]
    has no case that draws anything for them: a request for one of them
    reaches no font and fills no rectangle, so that the character is not
    shown even when the font has a glyph for it. *)
Theorem unassigned_graphics_are_blank (draw : _vte_draw) (h : gmap N font_info)
    (c : vteunistr) (x y columns : Z) (style : nat) (p : N) (fi : font_info)
    (cairo : N) :
  (0x1fbaf <= c <= 0x1fbff)%N ∨ c = 0x1fb93%N →
  draw_font draw style = Some (Some p) →
  cr draw = Some cairo →
  h !! p = Some fi →
  _vte_draw_unichar_is_local_graphic c = true
  ∧ ∃ op,
      _vte_draw_text draw h
        [ {| req_c := c; req_x := x; req_y := y; req_columns := columns;
             req_mirror := false; req_box_mirror := false |} ] style
      = Some ([op], h)
      ∧ op = draw_graphic c x y (info_width fi) columns (info_height fi)
      ∧ draw_graphic_rectangles draw op = Some [].
Proof.
  intros Hc Hs Hcr Hp.
  assert (_vte_draw_unichar_is_local_graphic c = true) as Hg.
  { unfold _vte_draw_unichar_is_local_graphic.
    apply orb_true_iff. right. apply andb_true_iff.
    split; apply N.leb_le; lia. }
  split; [done|]. eexists. split; [|split; [reflexivity|]].
  - unfold _vte_draw_text, _vte_draw_text_internal. rewrite Hcr, Hs.
    cbn [mbind option_bind foldl]. unfold draw_request, request_char.
    cbn [mbind option_bind req_mirror req_c req_x req_y req_columns run_heap].
    rewrite Hg, Hp. reflexivity.
  - cbn [draw_graphic_rectangles]. by apply graphic_rectangles_blank.
Qed.

End graphics_text.

(** ** The graphics on examples *)

Lemma graphic_rectangles_within_cell_witness :
  Forall (within_cell 3 4 10 20)
    [RECTANGLE 3 4 10 20 2 2 0 0 1 1; RECTANGLE 3 4 10 20 2 2 0 1 2 2].
Proof.
  apply (graphic_rectangles_within_cell 0x2599 3 4 10 20); [lia|lia|reflexivity].
Defined.

Lemma sextant_cells_witness :
  ∃ l, graphic_rectangles 0x1fb28 0 0 10 20 = Some l
       ∧ (painted l 7 13
          ↔ Z.testbit (sextant_bitmap 0x1fb28)
              (2 * pixel_row 3 0 20 13 + pixel_column 0 10 7) = true).
Proof. apply (sextant_cells 0x1fb28 0 0 10 20 7 13); lia. Defined.

Lemma quadrant_cells_witness :
  ∃ l, graphic_rectangles 0x259a 0 0 10 20 = Some l
       ∧ (painted l 7 13
          ↔ Z.testbit (quadrant_bitmap 0x259a)
              (2 * pixel_row 2 0 20 13 + pixel_column 0 10 7) = true).
Proof. apply (quadrant_cells 0x259a 0 0 10 20 7 13); lia. Defined.

Lemma eighth_blocks_partition_witness :
  ∃ upper lower left right,
    graphic_rectangles (upper_eighths 3) 0 0 10 20 = Some upper
    ∧ graphic_rectangles (lower_eighths (8 - 3)) 0 0 10 20 = Some lower
    ∧ graphic_rectangles (left_eighths 3) 0 0 10 20 = Some left
    ∧ graphic_rectangles (right_eighths (8 - 3)) 0 0 10 20 = Some right
    ∧ (painted upper 7 13 ↔ 13 - 0 < Z.quot (20 * 3) 8)
    ∧ (painted lower 7 13 ↔ Z.quot (20 * 3) 8 <= 13 - 0)
    ∧ (painted left 7 13 ↔ 7 - 0 < Z.quot (10 * 3) 8)
    ∧ (painted right 7 13 ↔ Z.quot (10 * 3) 8 <= 7 - 0).
Proof. apply (eighth_blocks_partition 3 0 0 10 20 7 13); lia. Defined.

(** In a cell of 7 pixels the left eighth is one pixel wide, the column 0,
    and the right seven eighths start at [7 * 1 / 8], which is the column 0
    as well. *)
Lemma eighth_blocks_small_cell_example :
  ∃ left right,
    graphic_rectangles (left_eighths 1) 0 0 7 20 = Some left
    ∧ graphic_rectangles (right_eighths 7) 0 0 7 20 = Some right
    ∧ painted left 0 0 ∧ painted right 0 0.
Proof.
  eexists _, _. split; [reflexivity|]. split; [reflexivity|].
  split; (eexists; split; [apply list_elem_of_here|]);
    vm_compute; repeat split; (discriminate || reflexivity).
Qed.

Lemma separated_mosaic_blocks_witness :
  let width := cell_width example_draw * 1 in
  let height := cell_height example_draw in
  let pel := (graphic_line_widths 0x1fb28 10).1 in
  let low := if Z.rem height 3 =? 1 then 1 else 0 in
  ∃ mask,
    graphic_separation example_draw 0x1fb28 true 10 1 = Some mask
    ∧ 1 <= pel
    ∧ (width <= 2 * pel ∨ height <= 3 * pel → mask = [])
    ∧ (2 * pel < width → 3 * pel < height →
       length mask = 6%nat
       ∧ ∀ xi yi, 0 <= xi < 2 → 0 <= yi < 3 →
           ∃ m, mask !! Z.to_nat (2 * yi + xi) = Some m
                ∧ let s := RECTANGLE 0 0 width height 2 3 xi yi (xi + 1) (yi + 1) in
                  fill_x m = fill_x s + pel
                  ∧ fill_x m + fill_width m = fill_x s + fill_width s
                  ∧ fill_y m = fill_y s + (if yi =? 2 then low else 0)
                  ∧ fill_y m + fill_height m
                    = fill_y s + fill_height s - pel + (if yi =? 1 then low else 0)).
Proof. apply (separated_mosaic_blocks example_draw 0x1fb28 10 1). reflexivity. Defined.

Lemma box_drawing_grid_witness :
  let light := (graphic_line_widths 0x2500 10).1 in
  let heavy := (graphic_line_widths 0x2500 10).2 in
  let xb := box_drawing_boundaries 10 (Z.quot 10 2) light heavy in
  let yb := box_drawing_boundaries 20 (Z.quot 20 2) light heavy in
  let cell (xi yi : nat) :=
    {| fill_x := 0 + xb !!! xi; fill_y := 0 + yb !!! yi;
       fill_width := xb !!! S xi - xb !!! xi;
       fill_height := yb !!! S yi - yb !!! yi |} in
  (∀ r, r ∈ box_drawing_rectangles 0x7c00 0 0 xb yb
        ↔ ∃ xi yi : nat,
            (xi < 5)%nat ∧ (yi < 5)%nat
            ∧ Z.testbit 0x7c00 (Z.of_nat (5 * (4 - yi) + (4 - xi))) = true
            ∧ r = cell xi yi)
  ∧ (∀ xi yi : nat, (xi < 5)%nat → (yi < 5)%nat →
       0 <= fill_x (cell xi yi) ∧ 0 <= fill_width (cell xi yi)
       ∧ fill_x (cell xi yi) + fill_width (cell xi yi) <= 0 + 10
       ∧ 0 <= fill_y (cell xi yi) ∧ 0 <= fill_height (cell xi yi)
       ∧ fill_y (cell xi yi) + fill_height (cell xi yi) <= 0 + 20)
  ∧ fill_width (cell 2%nat 2%nat) = light ∧ fill_height (cell 2%nat 2%nat) = light
  ∧ inside (cell 2%nat 2%nat) (0 + Z.quot 10 2) (0 + Z.quot 20 2)
  ∧ fill_width (cell 1%nat 2%nat) + fill_width (cell 2%nat 2%nat)
    + fill_width (cell 3%nat 2%nat) = heavy
  ∧ fill_height (cell 2%nat 1%nat) + fill_height (cell 2%nat 2%nat)
    + fill_height (cell 2%nat 3%nat) = heavy.
Proof.
  apply (box_drawing_grid 0x2500 10 0x7c00 0 0 10 20); vm_compute; discriminate.
Defined.

Lemma unassigned_graphics_are_blank_witness :
  _vte_draw_unichar_is_local_graphic 0x1fbf0 = true
  ∧ ∃ op,
      _vte_draw_text example_draw example_heap
        [ {| req_c := 0x1fbf0; req_x := 30; req_y := 40; req_columns := 1;
             req_mirror := false; req_box_mirror := false |} ] 0
      = Some ([op], example_heap)
      ∧ op = draw_graphic 0x1fbf0 30 40 (info_width (example_font 1)) 1
               (info_height (example_font 1))
      ∧ draw_graphic_rectangles example_draw op = Some [].
Proof.
  apply (unassigned_graphics_are_blank example_draw example_heap 0x1fbf0 30 40 1 0 1
           (example_font 1) 1);
    [left; lia|vm_compute; reflexivity..].
Defined.

(** ** The spans of src/vtetypes.hh *)

Section spans.

Ltac span_props :=
  unfold grid.empty, grid.contains, grid.box_contains, grid.ge, grid.le, grid.lt,
    grid.start_row, grid.last_row, grid.clear in *;
  cbn [grid.row grid.column grid.m_start grid.m_end] in *;
  rewrite ?andb_true_iff, ?orb_true_iff, ?negb_true_iff, ?andb_false_iff,
    ?orb_false_iff, ?negb_false_iff, ?Z.ltb_lt, ?Z.ltb_ge, ?Z.leb_le, ?Z.leb_gt in *.

Lemma bool_eq_iff (a b : bool) : (a = true ↔ b = true) → a = b.
Proof. destruct a, b; intuition. Qed.

(** X25.  A span is the range of the cells from its start to before its
    end, in the order of the rows and then of the columns.  It contains a
    cell only when it is not empty, and then it contains its start and not
    its end; a cleared span is empty.  On a span of one row [box_contains]
    and [contains] agree. *)
Theorem span_contains (s : grid.span) (p : grid.coords) :
  (grid.contains s p = true → grid.empty s = false)
  ∧ (grid.empty s = false ↔ grid.contains s (grid.m_start s) = true)
  ∧ grid.contains s (grid.m_end s) = false
  ∧ grid.empty (grid.clear s) = true
  ∧ grid.contains (grid.clear s) p = false
  ∧ (grid.start_row s = grid.end_row s →
     grid.box_contains s p = grid.contains s p).
Proof.
  destruct s as [[sr sc] [er ec]], p as [pr pc]. split_and!.
  - span_props. lia.
  - span_props. lia.
  - span_props. lia.
  - reflexivity.
  - apply not_true_is_false. span_props. lia.
  - unfold grid.end_row. intros Hrow. apply bool_eq_iff. span_props. lia.
Qed.

(** X26.  [last_row] is the last row that holds a cell of the span: in a
    span that is not empty the rows with a cell of the span, at a column
    that is not negative, are those from [start_row] to [last_row]. *)
Theorem span_last_row (s : grid.span) (r : Z) :
  grid.empty s = false →
  (∃ c, 0 <= c ∧ grid.contains s {| grid.row := r; grid.column := c |} = true)
  ↔ grid.start_row s <= r <= grid.last_row s.
Proof.
  destruct s as [[sr sc] [er ec]]. intros Hne. split.
  - intros (c & Hc & Hin). span_props.
    destruct (0 <? ec) eqn:E; [apply Z.ltb_lt in E|apply Z.ltb_ge in E]; lia.
  - intros Hr. exists (if r =? sr then Z.max sc 0 else 0).
    destruct (r =? sr) eqn:Ersr; [apply Z.eqb_eq in Ersr|apply Z.eqb_neq in Ersr];
      (split; [lia|]); span_props;
      (destruct (0 <? ec) eqn:E; [apply Z.ltb_lt in E|apply Z.ltb_ge in E]); lia.
Qed.

End spans.

Lemma span_last_row_witness :
  (∃ c, 0 <= c
        ∧ grid.contains
            {| grid.m_start := {| grid.row := 2; grid.column := 5 |};
               grid.m_end := {| grid.row := 4; grid.column := 0 |} |}
            {| grid.row := 3; grid.column := c |} = true)
  ↔ grid.start_row
      {| grid.m_start := {| grid.row := 2; grid.column := 5 |};
         grid.m_end := {| grid.row := 4; grid.column := 0 |} |} <= 3
    <= grid.last_row
         {| grid.m_start := {| grid.row := 2; grid.column := 5 |};
            grid.m_end := {| grid.row := 4; grid.column := 0 |} |}.
Proof.
  apply (span_last_row
           {| grid.m_start := {| grid.row := 2; grid.column := 5 |};
              grid.m_end := {| grid.row := 4; grid.column := 0 |} |} 3).
  reflexivity.
Defined.

(** ** The file descriptors of src/vtetypes.hh *)

Section descriptors.
Context `{util.System}.

Lemma close_if_set_spec m_fd p :
  util.errno (util.close_if_set m_fd p) = util.errno p
  ∧ util.closed (util.close_if_set m_fd p) = util.closed p ++ util.held [m_fd].
Proof.
  unfold util.close_if_set, util.held.
  destruct (m_fd =? -1) eqn:E; [apply Z.eqb_eq in E|apply Z.eqb_neq in E].
  - rewrite filter_cons_False by (intros Hne; by apply Hne).
    by rewrite filter_nil, app_nil_r.
  - by rewrite filter_cons_True by done.
Qed.

(** X27.  Assigning one [smart_fd] to another moves the descriptor: the
    descriptor that the target held is closed, the source holds none
    afterwards, and when both objects are destroyed every descriptor that
    was held has been closed exactly once, in the order target, source;
    [errno] is what it was before, whatever [close] has set.  Assigning an
    object to itself does nothing. *)
Theorem smart_fd_move (st : util.state) (a b : N) (fa fb : Z) :
  util.objects st !! a = Some fa →
  util.objects st !! b = Some fb →
  a ≠ b →
  util.smart_fd_assign a a st = Some st
  ∧ ∃ st1 st2 st3,
      util.smart_fd_assign a b st = Some st1
      ∧ util.smart_fd_int a st1 = Some fb
      ∧ util.smart_fd_int b st1 = Some (-1)
      ∧ util.smart_fd_destroy b st1 = Some st2
      ∧ util.closed (util.proc st2) = util.closed (util.proc st) ++ util.held [fa]
      ∧ util.smart_fd_destroy a st2 = Some st3
      ∧ util.closed (util.proc st3)
        = util.closed (util.proc st) ++ util.held [fa; fb]
      ∧ util.errno (util.proc st3) = util.errno (util.proc st)
      ∧ util.objects st3 = delete a (delete b (util.objects st)).
Proof.
  intros Ha Hb Hab. split.
  - unfold util.smart_fd_assign. rewrite Ha. cbn [mbind option_bind].
    by rewrite bool_decide_eq_false_2 by (by intros ?).
  - unfold util.smart_fd_assign, util.smart_fd_destroy, util.smart_fd_int.
    rewrite Ha, Hb. cbn [mbind option_bind].
    rewrite bool_decide_eq_true_2 by done.
    eexists _, _, _. split; [reflexivity|]. cbn [util.objects util.proc].
    rewrite lookup_insert_ne, lookup_insert_eq by done.
    rewrite lookup_insert_eq. cbn [mbind option_bind].
    split; [done|]. split; [done|]. split; [reflexivity|].
    cbn [util.objects util.proc].
    destruct (close_if_set_spec (-1) (util.close_if_set fa (util.proc st)))
      as [He1 Hc1].
    destruct (close_if_set_spec fa (util.proc st)) as [He0 Hc0].
    rewrite Hc1, Hc0. split; [by rewrite app_nil_r|].
    rewrite lookup_delete_ne, lookup_insert_ne, lookup_insert_eq by done.
    cbn [mbind option_bind]. split; [reflexivity|]. cbn [util.objects util.proc].
    match goal with
    | |- context [util.close_if_set fb ?p] =>
        destruct (close_if_set_spec fb p) as [He2 Hc2]
    end.
    rewrite Hc2, He2, Hc1, He1, Hc0, He0. split_and!; [|done|].
    + rewrite app_nil_r, <- app_assoc. f_equal.
      unfold util.held. by rewrite <- filter_app.
    + apply map_eq. intros k.
      destruct (decide (k = a)) as [->|Hka].
      { by rewrite !lookup_delete_eq. }
      rewrite !(lookup_delete_ne _ a) by done.
      destruct (decide (k = b)) as [->|Hkb].
      { by rewrite !lookup_delete_eq. }
      by rewrite !lookup_delete_ne, !lookup_insert_ne by done.
Qed.

(** X28.  Assigning an [int] to a [smart_fd] closes the descriptor it
    held and takes the new one: the destructor closes that one.  Nothing
    compares the two, so that assigning the descriptor that is held
    already closes it at once and a second time in the destructor.
    [steal] gives the descriptor away: the destructor closes nothing, and
    the address of the descriptor may be taken without an assertion
    failing. *)
Theorem smart_fd_assign_int_and_steal (st : util.state) (a : N) (fa rhs : Z) :
  util.objects st !! a = Some fa →
  (∃ st1 st2,
     util.smart_fd_assign_int a rhs st = Some st1
     ∧ util.smart_fd_int a st1 = Some rhs
     ∧ util.smart_fd_destroy a st1 = Some st2
     ∧ util.closed (util.proc st2)
       = util.closed (util.proc st) ++ util.held [fa; rhs]
     ∧ util.errno (util.proc st2) = util.errno (util.proc st)
     ∧ (rhs = fa → fa ≠ -1 →
        util.closed (util.proc st2) = util.closed (util.proc st) ++ [fa; fa]))
  ∧ (∃ st1 st2,
       util.steal a st = Some (fa, st1)
       ∧ util.smart_fd_int_ptr a st1 = Some a
       ∧ util.smart_fd_destroy a st1 = Some st2
       ∧ util.proc st2 = util.proc st)
  ∧ (util.smart_fd_int_ptr a st = None ↔ fa ≠ -1).
Proof.
  intros Ha. split_and!.
  - unfold util.smart_fd_assign_int, util.smart_fd_destroy, util.smart_fd_int.
    rewrite Ha. cbn [mbind option_bind]. eexists _, _. split; [reflexivity|].
    cbn [util.objects util.proc]. rewrite lookup_insert_eq. cbn [mbind option_bind].
    split; [done|]. split; [reflexivity|]. cbn [util.objects util.proc].
    destruct (close_if_set_spec fa (util.proc st)) as [He0 Hc0].
    destruct (close_if_set_spec rhs (util.close_if_set fa (util.proc st)))
      as [He1 Hc1].
    rewrite Hc1, He1, Hc0, He0.
    assert (util.held [fa; rhs] = util.held [fa] ++ util.held [rhs]) as Hheld
      by (unfold util.held; by rewrite <- filter_app).
    split_and!; [by rewrite Hheld, app_assoc|done|].
    intros -> Hfa. rewrite <- app_assoc. f_equal. unfold util.held.
    by rewrite !filter_cons_True by done.
  - unfold util.steal, util.smart_fd_destroy, util.smart_fd_int_ptr.
    rewrite Ha. cbn [mbind option_bind]. eexists _, _. split; [reflexivity|].
    cbn [util.objects util.proc]. rewrite lookup_insert_eq. cbn [mbind option_bind].
    split; [reflexivity|]. split; [reflexivity|]. reflexivity.
  - unfold util.smart_fd_int_ptr. rewrite Ha. cbn [mbind option_bind].
    destruct (fa =? -1) eqn:E; [apply Z.eqb_eq in E|apply Z.eqb_neq in E];
      split; intros; (done || lia).
Qed.

End descriptors.

Lemma smart_fd_move_witness :
  util.smart_fd_assign 1 1 example_state = Some example_state
  ∧ ∃ st1 st2 st3,
      util.smart_fd_assign 1 2 example_state = Some st1
      ∧ util.smart_fd_int 1 st1 = Some 7
      ∧ util.smart_fd_int 2 st1 = Some (-1)
      ∧ util.smart_fd_destroy 2 st1 = Some st2
      ∧ util.closed (util.proc st2)
        = util.closed (util.proc example_state) ++ util.held [5]
      ∧ util.smart_fd_destroy 1 st2 = Some st3
      ∧ util.closed (util.proc st3)
        = util.closed (util.proc example_state) ++ util.held [5; 7]
      ∧ util.errno (util.proc st3) = util.errno (util.proc example_state)
      ∧ util.objects st3 = delete 1%N (delete 2%N (util.objects example_state)).
Proof.
  apply (smart_fd_move example_state 1 2 5 7);
    [vm_compute; reflexivity..|discriminate].
Defined.

Lemma smart_fd_assign_int_and_steal_witness :
  (∃ st1 st2,
     util.smart_fd_assign_int 1 5 example_state = Some st1
     ∧ util.smart_fd_int 1 st1 = Some 5
     ∧ util.smart_fd_destroy 1 st1 = Some st2
     ∧ util.closed (util.proc st2)
       = util.closed (util.proc example_state) ++ util.held [5; 5]
     ∧ util.errno (util.proc st2) = util.errno (util.proc example_state)
     ∧ (5 = 5 → 5 ≠ -1 →
        util.closed (util.proc st2)
        = util.closed (util.proc example_state) ++ [5; 5]))
  ∧ (∃ st1 st2,
       util.steal 1 example_state = Some (5, st1)
       ∧ util.smart_fd_int_ptr 1 st1 = Some 1%N
       ∧ util.smart_fd_destroy 1 st1 = Some st2
       ∧ util.proc st2 = util.proc example_state)
  ∧ (util.smart_fd_int_ptr 1 example_state = None ↔ 5 ≠ -1).
Proof.
  apply (smart_fd_assign_int_and_steal example_state 1 5 5).
  vm_compute. reflexivity.
Defined.
